(** * Volunteer hours tracker: the spreadsheet sync and the HTTP facade

    A shallow embedding of [googleSheetsAPI.js] (the sync orchestrator and
    the worksheet adapter) and of the handlers of [server.js] that create
    and delete records and trigger the sync, with the properties the
    design document states about them.

    Layout:
    - [Js]      : the parts of the JavaScript runtime the code relies on
                  (strings as UTF-16 code units, Numbers as binary64,
                  [parseFloat], [Number.prototype.toFixed],
                  [Array.prototype.sort], JSON values);
    - [Sheets]  : [googleSheetsAPI.js];
    - [Server]  : the handlers of [server.js];
    - [Demo]    : a concrete runtime and a concrete spreadsheet service on
                  which the definitions are run;
    - [Api]     : the data files and the routes of [server.js];
    - [Calls]   : what the log of a sync is measured against. *)

From Stdlib Require Import ZArith NArith List String Ascii Lia Bool.
From Stdlib Require Import Sorted Permutation.
From Stdlib Require Import Floats.SpecFloat.
From stdpp Require Import base list gmap.

Set Warnings "-register-all".
Local Open Scope Z_scope.

(** ** The JavaScript runtime *)

Module Js.

(** *** Strings

    A JavaScript string is a sequence of UTF-16 code units; [substring],
    [replace] with a non-unicode regular expression and [includes] all work
    on code units. *)

Abbreviation CodeUnit := N.
Abbreviation JsString := (list CodeUnit).

(** A literal of the source, given by its ASCII text. *)
Definition js (s : string) : JsString :=
  map N_of_ascii (list_ascii_of_string s).

Definition isDigit (c : CodeUnit) : bool := ((48 <=? c) && (c <=? 57))%N.
Definition isUpper (c : CodeUnit) : bool := ((65 <=? c) && (c <=? 90))%N.
Definition isLower (c : CodeUnit) : bool := ((97 <=? c) && (c <=? 122))%N.

(** The character class [a-zA-Z0-9]. *)
Definition isAlnum (c : CodeUnit) : bool := isLower c || isUpper c || isDigit c.

(** [s.replace(/[^a-zA-Z0-9]/g, ' ')] *)
Definition replaceNonAlnum (s : JsString) : JsString :=
  map (fun c => if isAlnum c then c else 32%N) s.

(** [s.substring(0, n)] *)
Definition substring0 (n : nat) (s : JsString) : JsString := take n s.

Fixpoint startsWith (needle hay : JsString) : bool :=
  match needle, hay with
  | [], _ => true
  | _ :: _, [] => false
  | a :: needle', b :: hay' => (a =? b)%N && startsWith needle' hay'
  end.

(** [hay.includes(needle)] *)
Fixpoint includes (needle hay : JsString) : bool :=
  startsWith needle hay ||
  match hay with
  | [] => false
  | _ :: hay' => includes needle hay'
  end.

(** Truthiness of a string: only the empty string is falsy. *)
Definition truthy (s : JsString) : bool :=
  match s with [] => false | _ => true end.

(** Decimal digits of a non-negative integer, most significant first. *)
Fixpoint digitsFuel (fuel : nat) (n : Z) (acc : JsString) : JsString :=
  match fuel with
  | O => acc
  | S fuel' =>
      let acc' := Z.to_N (48 + n mod 10) :: acc in
      if n / 10 =? 0 then acc' else digitsFuel fuel' (n / 10) acc'
  end.

Definition decimal (n : Z) : JsString :=
  digitsFuel (S (Z.to_nat (Z.log2 n))) n [].

(** *** Numbers

    A Number is an IEEE 754 binary64 value; the arithmetic is the one of
    [SpecFloat], with 53 bits of precision and exponents below 1024. *)

Definition Number := spec_float.

Definition prec : Z := 53.
Definition emax : Z := 1024.

Definition NaN : Number := S754_nan.
Definition posZero : Number := S754_zero false.

(** [x + y] on Numbers *)
Definition add (x y : Number) : Number := SFadd prec emax x y.

Definition isNaN (x : Number) : bool :=
  match x with S754_nan => true | _ => false end.

(** The Number nearest to [m * 10^e10], ties to even, with the sign [neg];
    [m] is not negative. A zero keeps the sign. *)
Definition ofDecimal (neg : bool) (m e10 : Z) : Number :=
  match m with
  | Z0 => S754_zero neg
  | Zpos _ =>
      if 0 <=? e10 then
        binary_normalize prec emax (cond_Zopp neg (m * 10 ^ e10)) 0 false
      else
        let '(q, e, l) := SFdiv_core_binary prec emax m 0 (10 ^ (- e10)) 0 in
        binary_round_aux prec emax neg q e l
  | Zneg _ => S754_nan
  end.

(** White space and line terminators, as [String.prototype.trimStart]
    strips them. *)
Definition isWhiteSpace (c : CodeUnit) : bool :=
  ((c =? 9) || (c =? 10) || (c =? 11) || (c =? 12) || (c =? 13) || (c =? 32)
   || (c =? 160) || (c =? 5760) || ((8192 <=? c) && (c <=? 8202))
   || (c =? 8232) || (c =? 8233) || (c =? 8239) || (c =? 8287)
   || (c =? 12288) || (c =? 65279))%N.

Fixpoint trimStart (s : JsString) : JsString :=
  match s with
  | c :: s' => if isWhiteSpace c then trimStart s' else s
  | [] => []
  end.

(** The longest run of decimal digits at the front, and what follows. *)
Fixpoint spanDigits (s : JsString) : JsString * JsString :=
  match s with
  | c :: s' =>
      if isDigit c then let '(d, r) := spanDigits s' in (c :: d, r)
      else ([], s)
  | [] => ([], [])
  end.

(** The value of a run of decimal digits. *)
Definition digitsValue (d : JsString) : Z :=
  fold_left (fun acc c => 10 * acc + (Z.of_N c - 48)) d 0.

(** An [ExponentPart] at the front of [s], if there is a complete one:
    [e] or [E], an optional sign and at least one digit. *)
Definition exponentPart (s : JsString) : Z :=
  match s with
  | c :: s' =>
      if ((c =? 101) || (c =? 69))%N then
        let '(neg, s'') :=
          match s' with
          | 43%N :: r => (false, r)
          | 45%N :: r => (true, r)
          | _ => (false, s')
          end in
        match fst (spanDigits s'') with
        | [] => 0
        | d => cond_Zopp neg (digitsValue d)
        end
      else 0
  | [] => 0
  end.

(** The longest prefix of [s] that is a [StrUnsignedDecimalLiteral], as a
    Number of sign [neg]; [NaN] when no prefix is one. *)
Definition unsignedLiteral (neg : bool) (s : JsString) : Number :=
  if startsWith (js "Infinity") s then S754_infinity neg
  else
    let '(ip, r) := spanDigits s in
    let '(fp, r') :=
      match r with
      | 46%N :: r1 => spanDigits r1
      | _ => ([], r)
      end in
    match ip ++ fp with
    | [] => NaN
    | ds => ofDecimal neg (digitsValue ds)
              (exponentPart r' - Z.of_nat (length fp))
    end.

(** [parseFloat(s)] for a string [s]: leading white space is skipped and
    the longest prefix that is a decimal literal is converted; the result
    is [NaN] when there is none. The conversion is to the nearest Number;
    for a literal of more than 20 significant digits the language also
    allows a neighbour of it. *)
Definition parseFloat (s : JsString) : Number :=
  match trimStart s with
  | 43%N :: r => unsignedLiteral false r
  | 45%N :: r => unsignedLiteral true r
  | r => unsignedLiteral false r
  end.

(** *** [Number.prototype.toString] and [toFixed] *)

(** The candidates [(distance, s, n)] of [Number::toString] with [k]
    digits for the integer [X >= 10^21] that the Number [x] holds: [s] has
    [k] digits and [s * 10^(n-k)] converts back to [x]. *)
Definition shortestCandidates (x : Number) (X : Z) (k : Z)
  : list (Z * Z * Z) :=
  let d := Z.of_nat (length (decimal X)) in
  flat_map (fun n =>
    flat_map (fun s =>
      if (10 ^ (k - 1) <=? s) && (s <? 10 ^ k)
         && SFeqb (ofDecimal false s (n - k)) x
      then [(Z.abs (s * 10 ^ (n - k) - X), s, n)] else [])
      [X / 10 ^ (n - k); X / 10 ^ (n - k) + 1])
    [d; d + 1].

(** The closest candidate; of two equally close ones, the even one. *)
Definition bestCandidate (cs : list (Z * Z * Z)) : option (Z * Z) :=
  (fun c => (snd (fst c), snd c)) <$>
  fold_left (fun best c =>
    let '(dist, s, n) := c in
    match best with
    | None => Some c
    | Some (dist', s', _) =>
        if (dist <? dist') || ((dist =? dist') && Z.even s && negb (Z.even s'))
        then Some c else best
    end) cs None.

(** [Number::toString] of a finite Number [x] whose value is the integer
    [X >= 10^21]: the fewest significant digits that convert back to [x],
    in exponential notation. *)
Definition toStringLarge (x : Number) (X : Z) : JsString :=
  let tries :=
    omap (fun k => (fun sn => (k, sn)) <$> bestCandidate (shortestCandidates x X k))
         (map Z.of_nat (seq 1 17)) in
  match tries with
  | (k, (s, n)) :: _ =>
      match decimal s with
      | c :: rest =>
          c :: (match rest with [] => [] | _ => 46%N :: rest end)
            ++ js "e+" ++ decimal (n - 1)
      | [] => []
      end
  | [] => decimal X
  end.

(** The decimal digits of [n] with a point before the last [f] of them,
    padded with zeros on the left to [f + 1] digits at least. *)
Definition fixedDigits (f : nat) (n : Z) : JsString :=
  let m := decimal n in
  let m := replicate (S f - length m) 48%N ++ m in
  match f with
  | O => m
  | _ => take (length m - f) m ++ 46%N :: drop (length m - f) m
  end.

(** The magnitude [m * 2^e] of a finite Number as a fraction. *)
Definition magnitude (m : positive) (e : Z) : Z * Z :=
  if 0 <=? e then (Zpos m * 2 ^ e, 1) else (Zpos m, 2 ^ (- e)).

Definition atLeast1e21 (m : positive) (e : Z) : bool :=
  let '(num, den) := magnitude m e in 10 ^ 21 * den <=? num.

(** [x.toFixed(f)] for [0 <= f <= 100]. A value that is not finite is
    printed by name; one of magnitude [10^21] or more by
    [Number::toString]; any other as the integer [n] nearest to
    [|x| * 10^f] (the larger of two equally near), with [f] digits after
    the point. *)
Definition toFixed (f : nat) (x : Number) : JsString :=
  match x with
  | S754_nan => js "NaN"
  | S754_infinity s => if s then js "-Infinity" else js "Infinity"
  | S754_zero _ => fixedDigits f 0
  | S754_finite s m e =>
      let '(num, den) := magnitude m e in
      (if s then [45%N] else []) ++
      if atLeast1e21 m e
      then toStringLarge (S754_finite false m e) (num / den)
      else fixedDigits f ((2 * 10 ^ Z.of_nat f * num + den) / (2 * den))
  end.

(** The Numbers that [toFixed] prints in fixed notation. *)
Definition inFixedRange (x : Number) : bool :=
  match x with
  | S754_zero _ => true
  | S754_finite _ m e => negb (atLeast1e21 m e)
  | S754_infinity _ | S754_nan => false
  end.

(** A text of the form [-?D+.DD]. *)
Definition isTwoDecimal (s : JsString) : bool :=
  let s := match s with 45%N :: r => r | _ => s end in
  let '(ip, rest) := spanDigits s in
  match ip, rest with
  | _ :: _, [46%N; d1; d2] => isDigit d1 && isDigit d2
  | _, _ => false
  end.

(** *** [Array.prototype.sort]

    [sort] is stable, and a comparator result that is negative or zero
    leaves its first argument in front. With a consistent comparator the
    outcome is fixed by that: the sorted arrangement in which equal
    elements keep their order, which the stable insertion below computes.
    A comparator result of [NaN] counts as [0]; comparators are given
    here by an integer of the same sign.

    With a comparator that is not consistent (one that returns [NaN] is
    not) the order is implementation-defined, and [sort] below is not
    what an engine computes; all that is fixed then is that the outcome
    is an arrangement of the same elements. Such an outcome is given by
    [arrange], from the rank that the engine gives to each index. *)

Section Sort.
Context {A : Type} (compareFn : A -> A -> Z).

Fixpoint insertInOrder (x : A) (l : list A) : list A :=
  match l with
  | [] => [x]
  | y :: l' =>
      if compareFn x y <=? 0 then x :: l else y :: insertInOrder x l'
  end.

Definition sort (l : list A) : list A := foldr insertInOrder [] l.

End Sort.

(** The elements in the order of the ranks of their indices, those of
    equal rank in the order they had. Every arrangement of the elements
    is [arrange] of some ranks, and [arrange] of any ranks is an
    arrangement of the elements. *)
Definition arrange {A : Type} (rank : nat -> Z) (l : list A) : list A :=
  snd <$> sort (fun a b => fst a - fst b) (imap (fun i x => (rank i, x)) l).

(** *** JSON values and objects

    What [JSON.parse] returns. An object is a finite map from property
    names to values. *)

Inductive Json :=
| JNull
| JBool (b : bool)
| JNum (x : Number)
| JStr (s : JsString)
| JArr (xs : list Json)
| JObj (o : gmap JsString Json).

Abbreviation Obj := (gmap JsString Json).

(** [v === s] for a property read [v] ([None] is [undefined]) and a
    string [s]. *)
Definition strictEqStr (v : option Json) (s : JsString) : bool :=
  match v with
  | Some (JStr s') => bool_decide (s' = s)
  | _ => false
  end.

(** Truthiness of a property read. *)
Definition truthyJson (v : option Json) : bool :=
  match v with
  | None | Some JNull => false
  | Some (JBool b) => b
  | Some (JNum x) =>
      match x with S754_zero _ | S754_nan => false | _ => true end
  | Some (JStr s) => truthy s
  | Some (JArr _) | Some (JObj _) => true
  end.

(** The own enumerable properties that an object spread [{...v}] copies:
    the entries of an object, the indexed elements of an array, the
    indexed code units of a string, and nothing for [null], booleans and
    Numbers. *)
Definition ownProperties (v : Json) : Obj :=
  match v with
  | JObj o => o
  | JArr xs => list_to_map (imap (fun i x => (decimal (Z.of_nat i), x)) xs)
  | JStr s => list_to_map (imap (fun i c => (decimal (Z.of_nat i), JStr [c])) s)
  | JNull | JBool _ | JNum _ => ∅
  end.

(** [JSON.parse(JSON.stringify(v))]: the value that the text of [v]
    denotes. [JSON.stringify] writes a Number that is not finite as
    [null], and a zero of either sign as [0]; every other value is read
    back as it was. *)
Fixpoint reparse (v : Json) : Json :=
  match v with
  | JNum x =>
      match x with
      | S754_zero _ => JNum (S754_zero false)
      | S754_infinity _ | S754_nan => JNull
      | S754_finite _ _ _ => JNum x
      end
  | JArr xs => JArr (reparse <$> xs)
  | JObj o => JObj (reparse <$> o)
  | JNull | JBool _ | JStr _ => v
  end.

(** The same for an object and for an array of objects. *)
Definition reparseObj (o : Obj) : Obj := reparse <$> o.

Definition reparseAll (data : list Obj) : list Obj := reparseObj <$> data.

(** The size of a value: the values inside a value are smaller. *)
Fixpoint size (v : Json) : nat :=
  match v with
  | JArr xs => S (sum_list_with size xs)
  | JObj o => S (map_fold (fun _ v' n => (size v' + n)%nat) 0%nat o)
  | _ => 1%nat
  end.

End Js.

(** ** googleSheetsAPI.js *)

Module Volunteer.
(** A volunteer record, typed as in the data model: the sync calls
    string methods on [name], copies [phone] and [email] into cells and
    compares [id] with [===]. *)
Record t := {
  id : Js.JsString;
  name : Js.JsString;
  phone : Js.JsString;
  email : Js.JsString
}.
End Volunteer.

Module Event.
(** An event record. [date] is any text, a date or not; [hours] is
    numeric-as-string, any text as well, and may be missing ([None] is
    [undefined]). *)
Record t := {
  volunteerId : Js.JsString;
  name : Js.JsString;
  location : Js.JsString;
  date : Js.JsString;
  hours : option Js.JsString
}.
End Event.

Module Sheets.
Import Js.

(** The service account credentials; only [client_email] is read by the
    code. *)
Record Credentials := { client_email : option JsString }.

Record SheetsConfig := {
  spreadsheetId : option JsString;
  credentials : option Credentials
}.

(** A cell of a worksheet row. *)
Inductive Cell :=
| CNum (n : Z)
| CStr (s : JsString)
| CUndefined.

Abbreviation Row := (list Cell).

(** What the sync returns:
    [{success: true, volunteersCount, eventsCount}] or
    [{success: false, error}]. *)
Inductive SyncResult :=
| Success (volunteersCount eventsCount : nat)
| Failure (error : JsString).

(** The functions of the runtime that depend on the locale and on the
    engine: [String.prototype.toLowerCase], [String.prototype.localeCompare],
    the time value of [new Date(s)] ([None] for an invalid date), and the
    order in which the engine's [sort] leaves elements whose comparator
    is the difference of their dates when a date among them is invalid:
    the rank of each index, for the time values of the elements. *)
Record Runtime := {
  toLowerCase : JsString -> JsString;
  localeCompare : JsString -> JsString -> Z;
  newDate : JsString -> option Z;
  engineOrder : list (option Z) -> nat -> Z
}.

(** *** The calls into the googleapis client library *)

Inductive Call :=
| GoogleAuth (creds : Credentials)
    (* new google.auth.GoogleAuth({credentials, scopes}) and google.sheets *)
| SpreadsheetsGet (spreadsheetId : JsString)
| AddSheet (spreadsheetId title : JsString)
    (* spreadsheets.batchUpdate with one addSheet request *)
| ValuesClear (spreadsheetId range : JsString)
| ValuesUpdate (spreadsheetId range : JsString) (values : list Row).
    (* spreadsheets.values.update with valueInputOption RAW *)

(** A call either throws an error with a message or returns; of what is
    returned only the worksheet titles of [spreadsheets.get] are read. *)
Inductive Outcome :=
| Raise (message : JsString)
| Reply (titles : list JsString).

Abbreviation Log := (list (Call * Outcome)).

(** *** Computations that call the library and may throw

    The state is the state of the world outside (the remote spreadsheet
    service) together with the log of the calls made so far. *)

Inductive Result (A : Type) :=
| Return (a : A)
| Thrown (message : JsString).
Arguments Return {A} a.
Arguments Thrown {A} message.

Definition M (World A : Type) := World * Log -> Result A * (World * Log).

Definition ret {World A} (a : A) : M World A := fun s => (Return a, s).

Definition throw {World A} (message : JsString) : M World A :=
  fun s => (Thrown message, s).

Definition bind {World A B} (m : M World A) (k : A -> M World B) : M World B :=
  fun s =>
    match m s with
    | (Return a, s') => k a s'
    | (Thrown message, s') => (Thrown message, s')
    end.

Notation "x <- m ;; k" := (bind m (fun x => k))
  (at level 100, m at next level, right associativity).
Notation "m ;;; k" := (bind m (fun _ => k))
  (at level 100, right associativity).

Section Adapter.
Context {World : Type}.

(** The client library and the service behind it. *)
Variable googleapis : Call -> World -> Outcome * World.

(** One call: it is logged with its outcome; an error is thrown on. *)
Definition call (c : Call) : M World (list JsString) :=
  fun '(w, log) =>
    let '(o, w') := googleapis c w in
    (match o with Raise message => Thrown message | Reply titles => Return titles end,
     (w', log ++ [(c, o)])).

(** [createSheetsClient(credentials)]; the [catch] prints the error and
    throws it again. What is printed on the console is left out
    throughout. *)
Definition createSheetsClient (creds : Credentials) : M World unit :=
  call (GoogleAuth creds) ;;; ret tt.

(** [updateWorksheet(sheets, spreadsheetId, sheetTitle, headerRow, data)];
    the [catch] prints the error and throws it again. *)
Definition updateWorksheet (spreadsheetId sheetTitle : JsString)
    (headerRow : Row) (data : list Row) : M World unit :=
  existingSheets <- call (SpreadsheetsGet spreadsheetId) ;;
  let sheetExists := bool_decide (sheetTitle ∈ existingSheets) in
  (if negb sheetExists then call (AddSheet spreadsheetId sheetTitle) ;;; ret tt
   else ret tt) ;;;
  let rows := headerRow :: data in
  call (ValuesClear spreadsheetId sheetTitle) ;;;
  call (ValuesUpdate spreadsheetId (sheetTitle ++ js "!A1") rows) ;;;
  ret tt.

End Adapter.

(** *** The derived views *)

Section Views.
Variable rt : Runtime.

(** [[...volunteers].sort((a, b) =>
      a.name.toLowerCase().localeCompare(b.name.toLowerCase()))]:
    [localeCompare] orders the strings by a collation and is a
    consistent comparator, so that the sort is the stable sort. *)
Definition compareNames (a b : Volunteer.t) : Z :=
  localeCompare rt (toLowerCase rt (Volunteer.name a))
                   (toLowerCase rt (Volunteer.name b)).

Definition sortedVolunteers (volunteers : list Volunteer.t) : list Volunteer.t :=
  sort compareNames volunteers.

Definition volunteersHeader : Row :=
  [CStr (js "ID"); CStr (js "Name"); CStr (js "Phone"); CStr (js "Email");
   CStr (js "Total Hours")].

(** [events.filter(event => event.volunteerId === volunteer.id)] *)
Definition volunteerEvents (events : list Event.t) (volunteer : Volunteer.t)
  : list Event.t :=
  filter (fun event => Event.volunteerId event = Volunteer.id volunteer) events.

(** The string that [parseFloat] converts in [parseFloat(event.hours || 0)]:
    the hours when they are truthy, and otherwise the Number [0], which
    prints as ["0"]. *)
Definition hoursOrZero (hours : option JsString) : JsString :=
  match hours with
  | Some s => if truthy s then s else js "0"
  | None => js "0"
  end.

(** [volunteerEvents.reduce((sum, event) =>
      sum + parseFloat(event.hours || 0), 0)] *)
Definition totalHours (events : list Event.t) (volunteer : Volunteer.t) : Number :=
  fold_left (fun sum event => add sum (parseFloat (hoursOrZero (Event.hours event))))
            (volunteerEvents events volunteer) posZero.

Definition volunteersData (volunteers : list Volunteer.t) (events : list Event.t)
  : list Row :=
  imap (fun index volunteer =>
          [CNum (Z.of_nat index + 1);
           CStr (Volunteer.name volunteer);
           CStr (Volunteer.phone volunteer);
           CStr (Volunteer.email volunteer);
           CStr (toFixed 2 (totalHours events volunteer))])
       (sortedVolunteers volunteers).

(** [new Date(a.date) - new Date(b.date)]; the difference of two time
    values has the sign of the integer difference, and it is [NaN], which
    [sort] reads as [0], when either date is invalid. *)
Definition compareDates (a b : Event.t) : Z :=
  match newDate rt (Event.date a), newDate rt (Event.date b) with
  | Some ta, Some tb => ta - tb
  | _, _ => 0
  end.

(** The time values of the dates of some events. *)
Definition timeValues (events : list Event.t) : list (option Z) :=
  (fun event => newDate rt (Event.date event)) <$> events.

(** No date is invalid: the comparator returns no [NaN], and it is
    consistent. *)
Definition validDates (events : list Event.t) : bool :=
  forallb (fun time => match time with Some _ => true | None => false end)
          (timeValues events).

(** [volunteerEvents.sort((a, b) => new Date(a.date) - new Date(b.date))]:
    the stable sort by the time values when all the dates are valid, and
    the arrangement of the engine otherwise. *)
Definition sortedEvents (volunteerEvents : list Event.t) : list Event.t :=
  if validDates volunteerEvents then sort compareDates volunteerEvents
  else arrange (engineOrder rt (timeValues volunteerEvents)) volunteerEvents.

(** [`Volunteer - ${volunteer.name.replace(/[^a-zA-Z0-9]/g, ' ')}`
      .substring(0, 30)] *)
Definition volunteerSheetName (volunteer : Volunteer.t) : JsString :=
  substring0 30 (js "Volunteer - " ++ replaceNonAlnum (Volunteer.name volunteer)).

Definition eventsHeader : Row :=
  [CStr (js "ID"); CStr (js "Event"); CStr (js "Location"); CStr (js "Date");
   CStr (js "Hours")].

Definition volunteerEventsData (volunteerEvents : list Event.t) : list Row :=
  imap (fun eventIndex event =>
          [CNum (Z.of_nat eventIndex + 1);
           CStr (Event.name event);
           CStr (Event.location event);
           CStr (Event.date event);
           match Event.hours event with Some h => CStr h | None => CUndefined end])
       volunteerEvents.

End Views.

(** *** The sync *)

Section Sync.
Context {World : Type}.
Variable googleapis : Call -> World -> Outcome * World.
Variable rt : Runtime.

Definition incomplete : JsString := js "Google Sheets configuration is incomplete".

(** The body of the loop over the sorted volunteers, and the loop. *)
Definition syncVolunteer (spreadsheetId : JsString) (events : list Event.t)
    (volunteer : Volunteer.t) : M World unit :=
  let volunteerEvents := volunteerEvents events volunteer in
  if (0 <? length volunteerEvents)%nat then
    let volunteerEvents := sortedEvents rt volunteerEvents in
    let volunteerSheetName := volunteerSheetName volunteer in
    let volunteerEventsData := volunteerEventsData volunteerEvents in
    updateWorksheet googleapis spreadsheetId volunteerSheetName
                    eventsHeader volunteerEventsData
  else ret tt.

Fixpoint syncVolunteers (spreadsheetId : JsString) (events : list Event.t)
    (sortedVolunteers : list Volunteer.t) : M World unit :=
  match sortedVolunteers with
  | [] => ret tt
  | volunteer :: rest =>
      syncVolunteer spreadsheetId events volunteer ;;;
      syncVolunteers spreadsheetId events rest
  end.

(** The [try] block of [syncToGoogleSheets]. *)
Definition syncBody (sheetsConfig : option SheetsConfig)
    (volunteers : list Volunteer.t) (events : list Event.t)
  : M World (nat * nat) :=
  match sheetsConfig with
  | Some {| spreadsheetId := Some sid; credentials := Some creds |} =>
      if truthy sid then
        createSheetsClient googleapis creds ;;;
        let sortedVolunteers := sortedVolunteers rt volunteers in
        let volunteersData := volunteersData rt volunteers events in
        updateWorksheet googleapis sid (js "Volunteers")
                        volunteersHeader volunteersData ;;;
        syncVolunteers sid events sortedVolunteers ;;;
        ret (length volunteers, length events)
      else throw incomplete
  | _ => throw incomplete
  end.

(** [syncToGoogleSheets(sheetsConfig, volunteers, events)]: the [catch]
    turns whatever was thrown into a failure result. *)
Definition syncToGoogleSheets (sheetsConfig : option SheetsConfig)
    (volunteers : list Volunteer.t) (events : list Event.t)
  : World * Log -> SyncResult * (World * Log) :=
  fun s =>
    match syncBody sheetsConfig volunteers events s with
    | (Return (volunteersCount, eventsCount), s') =>
        (Success volunteersCount eventsCount, s')
    | (Thrown message, s') => (Failure message, s')
    end.

End Sync.

(** *** What a run wrote, and what a sync is to write *)

Definition raised (o : Outcome) : bool :=
  match o with Raise _ => true | Reply _ => false end.

(** The range and the values of the [values.update] calls of a log, in
    the order of the calls. *)
Definition updates (log : Log) : list (JsString * list Row) :=
  omap (fun '(c, _) =>
          match c with
          | ValuesUpdate _ range values => Some (range, values)
          | _ => None
          end) log.

(** The update that the loop makes for one volunteer: none without
    events, one otherwise. *)
Definition individualWrites (rt : Runtime) (events : list Event.t)
    (volunteer : Volunteer.t) : list (JsString * list Row) :=
  match volunteerEvents events volunteer with
  | [] => []
  | own =>
      [(volunteerSheetName volunteer ++ js "!A1",
        eventsHeader :: volunteerEventsData (sortedEvents rt own))]
  end.

(** The updates of a whole sync, in order. *)
Definition worksheetWrites (rt : Runtime) (volunteers : list Volunteer.t)
    (events : list Event.t) : list (JsString * list Row) :=
  (js "Volunteers" ++ js "!A1",
   volunteersHeader :: volunteersData rt volunteers events)
  :: flat_map (individualWrites rt events) (sortedVolunteers rt volunteers).

(** What one event adds to the total: [0] when the hours are missing or
    empty, their [parseFloat] otherwise. *)
Definition contribution (event : Event.t) : Number :=
  match Event.hours event with
  | Some ((_ :: _) as h) => parseFloat h
  | _ => posZero
  end.

(** The total as the design document words it: hours that are missing
    or that do not parse add [0]. *)
Definition documentedTotalHours (events : list Event.t)
    (volunteer : Volunteer.t) : Number :=
  fold_left (fun sum event =>
               add sum (if isNaN (contribution event) then posZero
                        else contribution event))
            (volunteerEvents events volunteer) posZero.

(** The title as the design document words it: the name with its
    non-alphanumeric characters replaced, truncated to 30 characters,
    and then prefixed. *)
Definition documentedSheetName (volunteer : Volunteer.t) : JsString :=
  js "Volunteer - " ++ substring0 30 (replaceNonAlnum (Volunteer.name volunteer)).

(** The configuration that the sync accepts. *)
Definition complete (sheetsConfig : option SheetsConfig) : bool :=
  match sheetsConfig with
  | Some {| spreadsheetId := Some sid; credentials := Some _ |} => truthy sid
  | _ => false
  end.

(** A stretch of log against the updates expected of the computation
    that made it: after a return every call has returned and the updates
    are the expected ones; after a throw the last call is the one that
    raised the error thrown, every call before it has returned, and the
    updates attempted are the first of the expected ones. *)
Inductive traceOk {A : Type} (expected : list (JsString * list Row))
    (post : A -> Prop) : Result A -> Log -> Prop :=
| trace_return (a : A) (tr : Log) :
    Forall (fun e => raised (snd e) = false) tr ->
    updates tr = expected ->
    post a ->
    traceOk expected post (Return a) tr
| trace_thrown (message : JsString) (c : Call) (pre : Log) :
    Forall (fun e => raised (snd e) = false) pre ->
    updates (pre ++ [(c, Raise message)]) `prefix_of` expected ->
    traceOk expected post (Thrown message) (pre ++ [(c, Raise message)]).

Definition Traced {World A : Type} (m : M World A)
    (expected : list (JsString * list Row)) (post : A -> Prop) : Prop :=
  forall w log, exists tr,
    snd (snd (m (w, log))) = log ++ tr /\
    traceOk expected post (fst (m (w, log))) tr.

End Sheets.

(** ** server.js

    The handlers are functions of what they read: the request, the
    collections that [readData] returns, the configuration, and the
    values the runtime supplies ([generateId()], [new Date().toISOString()]).
    They return what [writeData] stores and the response that is sent.
    The handlers that create and delete records take the collections as
    arrays of arbitrary JSON objects; the sync route reads them at the
    types of the data model. The files are read and written without
    fault. *)

Module Server.
Import Js Sheets.

Record Config := {
  adminPassword : JsString;
  sheetsConfig : option SheetsConfig
}.

(** The JSON documents that [sendJsonResponse] sends. *)
Inductive Document :=
| Record_ (o : Obj)
| ErrorOnly (error : JsString)
| SuccessOnly
| Synced (message : JsString) (volunteers events : nat)
| NotConfigured (error : JsString)
| SyncFailed (error serviceEmail : JsString).

Record Response := { statusCode : Z; data : Document }.

(** The text of a request body. *)
Inductive RequestBody :=
| EmptyBody
| JsonText (v : Json)
| Malformed.

(** [parseBody(req)]: no body is [{}]; [None] is the rejection by
    [JSON.parse]. *)
Definition parseBody (req : RequestBody) : option Json :=
  match req with
  | EmptyBody => Some (JObj ∅)
  | JsonText v => Some v
  | Malformed => None
  end.

Definition invalidBody : Response :=
  {| statusCode := 400; data := ErrorOnly (js "Invalid request body") |}.

(** [{ id: generateId(), ...body, createdAt: new Date().toISOString() }] *)
Definition newVolunteer (generateId now : JsString) (body : Json) : Obj :=
  let o := <[js "id" := JStr generateId]> (∅ : Obj) in
  let o := ownProperties body ∪ o in
  <[js "createdAt" := JStr now]> o.

(** POST /api/volunteers *)
Definition postVolunteers (generateId now : JsString) (req : RequestBody)
    (volunteers : list Obj) : list Obj * Response :=
  match parseBody req with
  | Some body =>
      let newVolunteer := newVolunteer generateId now body in
      (volunteers ++ [newVolunteer],
       {| statusCode := 201; data := Record_ newVolunteer |})
  | None => (volunteers, invalidBody)
  end.

(** [body.date]: reading a property of [null] throws a [TypeError]
    ([None]); no prototype has a [date] property. *)
Definition bodyDate (body : Json) : option (option Json) :=
  match body with
  | JNull => None
  | JObj o => Some (o !! js "date")
  | _ => Some None
  end.

(** [{ id: generateId(), ...body,
       date: body.date || new Date().toISOString(),
       createdAt: new Date().toISOString() }] *)
Definition newEvent (generateId now now' : JsString) (body : Json) : option Obj :=
  let o := <[js "id" := JStr generateId]> (∅ : Obj) in
  let o := ownProperties body ∪ o in
  date ← bodyDate body;
  let o := <[js "date" := if truthyJson date then default JNull date else JStr now]> o in
  Some (<[js "createdAt" := JStr now']> o).

(** POST /api/events *)
Definition postEvents (generateId now now' : JsString) (req : RequestBody)
    (events : list Obj) : list Obj * Response :=
  match parseBody req ≫= newEvent generateId now now' with
  | Some newEvent =>
      (events ++ [newEvent], {| statusCode := 201; data := Record_ newEvent |})
  | None => (events, invalidBody)
  end.

(** [array.findIndex(p)]; [None] is [-1]. *)
Fixpoint findIndex {A} (p : A -> bool) (l : list A) : option nat :=
  match l with
  | [] => None
  | x :: l' => if p x then Some O else S <$> findIndex p l'
  end.

(** DELETE /api/volunteers/:id, with [id] the path segment. *)
Definition deleteVolunteer (id : JsString) (volunteers events : list Obj)
  : list Obj * list Obj * Response :=
  match findIndex (fun v => strictEqStr (v !! js "id") id) volunteers with
  | None =>
      (volunteers, events,
       {| statusCode := 404; data := ErrorOnly (js "Volunteer not found") |})
  | Some volunteerIndex =>
      let volunteers := delete volunteerIndex volunteers in
      let updatedEvents :=
        filter (fun event => ¬ strictEqStr (event !! js "volunteerId") id) events in
      (volunteers, updatedEvents, {| statusCode := 200; data := SuccessOnly |})
  end.

(** [config.sheetsConfig.credentials?.client_email
      || 'the service account email'] *)
Definition serviceEmail (sheetsConfig : SheetsConfig) : JsString :=
  match credentials sheetsConfig with
  | Some {| client_email := Some e |} =>
      if truthy e then e else js "the service account email"
  | _ => js "the service account email"
  end.

Definition permissionDenied (serviceEmail : JsString) : JsString :=
  js "Permission denied: The service account does not have access to this spreadsheet. Please share the spreadsheet with "
  ++ serviceEmail ++ js " and give it Editor permission.".

Section SyncRoute.
Context {World : Type}.
Variable googleapis : Call -> World -> Outcome * World.
Variable rt : Runtime.

(** The response to a sync result. *)
Definition syncResponse (sid serviceEmail : JsString)
    (volunteers : list Volunteer.t) (events : list Event.t)
    (syncResult : SyncResult) : Response :=
  match syncResult with
  | Success _ _ =>
      {| statusCode := 200;
         data := Synced
           (js "Synced with Google Sheets successfully. Spreadsheet ID: " ++ sid)
           (length volunteers) (length events) |}
  | Failure error =>
      if truthy error && includes (js "permission") error then
        {| statusCode := 403;
           data := SyncFailed (permissionDenied serviceEmail) serviceEmail |}
      else
        {| statusCode := 500;
           data := SyncFailed
             (if truthy error then error else js "Unknown error during sync")
             serviceEmail |}
  end.

(** POST /api/sync/sheets. [syncToGoogleSheets] does not throw, so the
    [catch] of the route is not entered. *)
Definition postSyncSheets (config : Config)
    (volunteers : list Volunteer.t) (events : list Event.t)
  : World * Log -> Response * (World * Log) :=
  fun s =>
    match sheetsConfig config with
    | Some ({| spreadsheetId := Some sid |} as sheetsConfig) =>
        if truthy sid then
          let serviceEmail := serviceEmail sheetsConfig in
          let '(syncResult, s') :=
            syncToGoogleSheets googleapis rt (Some sheetsConfig)
                               volunteers events s in
          (syncResponse sid serviceEmail volunteers events syncResult, s')
        else
          ({| statusCode := 400;
              data := NotConfigured (js "Google Sheets not configured") |}, s)
    | _ =>
        ({| statusCode := 400;
            data := NotConfigured (js "Google Sheets not configured") |}, s)
    end.

End SyncRoute.

End Server.

(** ** A concrete runtime and concrete services *)

Module Demo.
Import Js Sheets.

(** Lower case of the ASCII letters. *)
Definition asciiLower (s : JsString) : JsString :=
  map (fun c => if isUpper c then (c + 32)%N else c) s.

(** Comparison by code units, the shorter of a string and its extension
    first. *)
Fixpoint compareCodeUnits (a b : JsString) : Z :=
  match a, b with
  | [], [] => 0
  | [], _ :: _ => -1
  | _ :: _, [] => 1
  | x :: a', y :: b' =>
      match (x ?= y)%N with
      | Lt => -1
      | Gt => 1
      | Eq => compareCodeUnits a' b'
      end
  end.

(** Days from 1970-01-01 to a date of the proleptic Gregorian calendar. *)
Definition daysFromCivil (y m d : Z) : Z :=
  let y := if m <=? 2 then y - 1 else y in
  let era := y / 400 in
  let yoe := y - era * 400 in
  let doy := (153 * (if 2 <? m then m - 3 else m + 9) + 2) / 5 + d - 1 in
  let doe := yoe * 365 + yoe / 4 - yoe / 100 + doy in
  era * 146097 + doe - 719468.

(** The time value of a date-only form [YYYY-MM-DD] (midnight UTC); any
    other text is an invalid date here. *)
Definition isoDate (s : JsString) : option Z :=
  match s with
  | [y1; y2; y3; y4; 45%N; m1; m2; 45%N; d1; d2] =>
      if forallb isDigit [y1; y2; y3; y4; m1; m2; d1; d2] then
        let m := digitsValue [m1; m2] in
        let d := digitsValue [d1; d2] in
        if (1 <=? m) && (m <=? 12) && (1 <=? d) && (d <=? 31) then
          Some (daysFromCivil (digitsValue [y1; y2; y3; y4]) m d * 86400000)
        else None
      else None
  | _ => None
  end.

(** The order of V8's sort for an array of fewer than 64 elements, on
    the indices of the elements: the run at the front is found, and
    turned round when it descends, and the elements behind it are put
    in by binary search. A longer array is arranged here in the same
    way. [compareAt i j] is the comparator on the elements at [i] and
    [j], with [NaN] read as [0]. *)
Section ShortArray.
Variable times : list (option Z).

Definition compareAt (i j : nat) : Z :=
  match times !! i, times !! j with
  | Some (Some ti), Some (Some tj) => ti - tj
  | _, _ => 0
  end.

(** [CountAndMakeRun]: the length of the run at the front, which
    descends strictly or does not descend, after its first two
    elements. *)
Fixpoint runLength (isDescending : bool) (previous : nat) (rest : list nat) : nat :=
  match rest with
  | [] => 0
  | current :: rest' =>
      let order := compareAt current previous in
      if (if isDescending then 0 <=? order else order <? 0) then 0
      else S (runLength isDescending current rest')
  end.

(** The binary search of [BinaryInsertionSort]: the place of [pivot] in
    [sorted], between [left] and [right]. *)
Fixpoint searchPlace (fuel : nat) (sorted : list nat) (pivot left right : nat) : nat :=
  match fuel with
  | O => left
  | S fuel' =>
      if (left <? right)%nat then
        let mid := (left + (right - left) / 2)%nat in
        if compareAt pivot (nth mid sorted O) <? 0
        then searchPlace fuel' sorted pivot left mid
        else searchPlace fuel' sorted pivot (S mid) right
      else left
  end.

Definition insertPivot (sorted : list nat) (pivot : nat) : list nat :=
  let place := searchPlace (S (length sorted)) sorted pivot 0 (length sorted) in
  take place sorted ++ pivot :: drop place sorted.

Definition shortArrayOrder : list nat :=
  match seq 0 (length times) with
  | first :: second :: rest =>
      let isDescending := compareAt second first <? 0 in
      let run := (2 + runLength isDescending second rest)%nat in
      let indices := first :: second :: rest in
      let front := if isDescending then rev (take run indices) else take run indices in
      fold_left insertPivot (drop run indices) front
  | indices => indices
  end.

(** The place of an index in the order. *)
Fixpoint placeOf (i : nat) (order : list nat) : nat :=
  match order with
  | [] => O
  | j :: order' => if (i =? j)%nat then O else S (placeOf i order')
  end.

End ShortArray.

Definition runtime : Runtime :=
  {| toLowerCase := asciiLower;
     localeCompare := compareCodeUnits;
     newDate := isoDate;
     engineOrder := fun times i => Z.of_nat (placeOf i (shortArrayOrder times)) |}.

(** A spreadsheet that always answers: the world is the worksheets, by
    title, in the order of their creation. *)
Definition Spreadsheet := list (JsString * list Row).

Definition setSheet (title : JsString) (rows : list Row) (w : Spreadsheet)
  : Spreadsheet :=
  map (fun '(t, r) => if bool_decide (t = title) then (t, rows) else (t, r)) w.

(** The worksheet that a range addresses: the text before [!]. *)
Fixpoint sheetOfRange (range : JsString) : JsString :=
  match range with
  | [] => []
  | c :: r => if (c =? 33)%N then [] else c :: sheetOfRange r
  end.

Definition spreadsheet (c : Call) (w : Spreadsheet) : Outcome * Spreadsheet :=
  match c with
  | GoogleAuth _ => (Reply [], w)
  | SpreadsheetsGet _ => (Reply (map fst w), w)
  | AddSheet _ title => (Reply [], w ++ [(title, [])])
  | ValuesClear _ range => (Reply [], setSheet (sheetOfRange range) [] w)
  | ValuesUpdate _ range values =>
      (Reply [], setSheet (sheetOfRange range) values w)
  end.

(** A service that follows a script: the world is the outcomes still to
    come, one for each call; when the script is over every call returns. *)
Definition scripted (c : Call) (w : list Outcome) : Outcome * list Outcome :=
  match w with
  | o :: w' => (o, w')
  | [] => (Reply [], [])
  end.

Definition volunteer (id name : string) : Volunteer.t :=
  {| Volunteer.id := js id; Volunteer.name := js name;
     Volunteer.phone := js "555-0100"; Volunteer.email := js "v@example.org" |}.

Definition event (volunteerId name date : string) (hours : option string)
  : Event.t :=
  {| Event.volunteerId := js volunteerId; Event.name := js name;
     Event.location := js "Hall"; Event.date := js date;
     Event.hours := js <$> hours |}.

Definition config : SheetsConfig :=
  {| spreadsheetId := Some (js "sheet-1");
     credentials := Some {| client_email := Some (js "bot@example.org") |} |}.

Definition volunteers : list Volunteer.t :=
  [volunteer "u1" "bob"; volunteer "u2" "Alice"; volunteer "u3" "carol"].

Definition events : list Event.t :=
  [event "u1" "Cleanup" "2024-03-02" (Some "2"%string);
   event "u2" "Bake sale" "2024-02-01" (Some "4"%string);
   event "u1" "Food drive" "2024-01-15" (Some "1.5"%string);
   event "u9" "Orphan" "2024-01-01" (Some "8"%string)].

End Demo.

(** ** server.js: the files, the routes and the requests on the store

    The three data files and the chain of routes of [http.createServer].
    A collection file holds the text of an array of JSON objects, the
    configuration file the text of a JSON object, as [JSON.stringify]
    writes them, or the file cannot be read (it is missing or does not
    parse). What is read from a file and what is sent to the client has
    gone through [JSON.stringify] and [JSON.parse]. A file with a text
    that parses and that [JSON.stringify] does not write (a Number such
    as [1e999] put there by hand) is left out. A write succeeds, or
    fails at the open and leaves the file as it was, or fails after the
    open and leaves the file cut short. *)

Module Api.
Import Js Sheets Server.

(** A data file: it holds the text that [JSON.stringify] makes of a
    value ([Stored]), or it cannot be read or parsed ([Unreadable]): it
    is missing, or empty, or holds the front part of a text. *)
Inductive File (A : Type) :=
| Stored (content : A)
| Unreadable.
Arguments Stored {A} content.
Arguments Unreadable {A}.

Record Disk := {
  volunteersFile : File (list Obj);
  eventsFile : File (list Obj);
  configFile : File Obj
}.

(** [readData(filePath)]: [JSON.parse] of the text of the file; a file
    that cannot be read or parsed is the empty array. *)
Definition readData (file : File (list Obj)) : list Obj :=
  match file with
  | Stored data => reparseAll data
  | Unreadable => []
  end.

(** [{ adminPassword: 'admin123', sheetsConfig: null }] *)
Definition defaultConfig : Obj :=
  {[ js "adminPassword" := JStr (js "admin123"); js "sheetsConfig" := JNull ]}.

(** [getConfig()] *)
Definition getConfig (file : File Obj) : Obj :=
  match file with
  | Stored config => reparseObj config
  | Unreadable => defaultConfig
  end.

(** [writeData(filePath, data)] and [saveConfig(config)], with the
    outcome of [fs.writeFileSync(filePath, JSON.stringify(data, null, 2))];
    what they return is not read. A write that succeeds leaves the text
    of [data]. A write that fails has failed to open the file, which is
    then as it was, or has failed after the file was opened, and so
    emptied ([cut]): the file then holds nothing or the front part of
    the text, and cannot be parsed. *)
Definition writeData {A} (ok cut : bool) (data : A) (file : File A) : File A :=
  if ok then Stored data
  else if cut then Unreadable
  else file.

(** The files as the start of the server leaves them when none exists. *)
Definition initialDisk : Disk :=
  {| volunteersFile := Stored [];
     eventsFile := Stored [];
     configFile := Stored defaultConfig |}.

(** *** Paths *)

(** [s.split('/')] *)
Fixpoint splitSlash (s : JsString) : list JsString :=
  match s with
  | [] => [[]]
  | c :: s' =>
      if (c =? 47)%N then [] :: splitSlash s'
      else match splitSlash s' with
           | segment :: segments => (c :: segment) :: segments
           | [] => [[c]]
           end
  end.

(** The longest run of [[^/]] at the front, and what follows. *)
Fixpoint spanSegment (s : JsString) : JsString * JsString :=
  match s with
  | c :: s' =>
      if (c =? 47)%N then ([], s)
      else let '(segment, rest) := spanSegment s' in (c :: segment, rest)
  | [] => ([], [])
  end.

Fixpoint stripPrefix (prefix s : JsString) : option JsString :=
  match prefix, s with
  | [], _ => Some s
  | _ :: _, [] => None
  | a :: prefix', b :: s' => if (a =? b)%N then stripPrefix prefix' s' else None
  end.

(** [pathname.match(/^\/api\/volunteers\/[^/]+$/)] *)
Definition matchesVolunteer (pathname : JsString) : bool :=
  match stripPrefix (js "/api/volunteers/") pathname with
  | Some rest =>
      match spanSegment rest with
      | (_ :: _, []) => true
      | _ => false
      end
  | None => false
  end.

(** [pathname.match(/^\/api\/volunteers\/[^/]+\/events$/)] *)
Definition matchesVolunteerEvents (pathname : JsString) : bool :=
  match stripPrefix (js "/api/volunteers/") pathname with
  | Some rest =>
      match spanSegment rest with
      | (_ :: _, after) => bool_decide (after = js "/events")
      | _ => false
      end
  | None => false
  end.

(** [req.method] *)
Inductive Method := GET | POST | DELETE | OtherMethod (name : JsString).

Definition isGET (m : Method) : bool := match m with GET => true | _ => false end.
Definition isPOST (m : Method) : bool := match m with POST => true | _ => false end.
Definition isDELETE (m : Method) : bool := match m with DELETE => true | _ => false end.

(** The branches of the handler. The [id] of a branch is
    [pathname.split('/')[3]], [None] when it is [undefined]. *)
Inductive Route :=
| ListVolunteers
| GetVolunteer (id : option JsString)
| CreateVolunteer
| DeleteVolunteer (id : option JsString)
| ListEvents
| VolunteerEvents (id : option JsString)
| CreateEvent
| GetPassword
| SetPassword
| GetSheetsConfig
| SetSheetsConfig
| ExportCsv
| SyncSheets
| EndpointNotFound
| StaticFile.

(** [pathname === path] *)
Definition pathIs (path : string) (pathname : JsString) : bool :=
  bool_decide (pathname = js path).

(** The chain of [if]s and [else if]s, in its order. *)
Definition route (method : Method) (pathname : JsString) : Route :=
  let id := splitSlash pathname !! 3%nat in
  if startsWith (js "/api/") pathname then
    if pathIs "/api/volunteers" pathname && isGET method then ListVolunteers
    else if matchesVolunteer pathname && isGET method then GetVolunteer id
    else if pathIs "/api/volunteers" pathname && isPOST method then CreateVolunteer
    else if matchesVolunteer pathname && isDELETE method then DeleteVolunteer id
    else if pathIs "/api/events" pathname && isGET method then ListEvents
    else if matchesVolunteerEvents pathname && isGET method then VolunteerEvents id
    else if pathIs "/api/events" pathname && isPOST method then CreateEvent
    else if pathIs "/api/admin/password" pathname && isGET method then GetPassword
    else if pathIs "/api/admin/password" pathname && isPOST method then SetPassword
    else if pathIs "/api/sheets/config" pathname && isGET method then GetSheetsConfig
    else if pathIs "/api/sheets/config" pathname && isPOST method then SetSheetsConfig
    else if pathIs "/api/export/csv" pathname && isGET method then ExportCsv
    else if pathIs "/api/sync/sheets" pathname && isPOST method then SyncSheets
    else EndpointNotFound
  else StaticFile.

(** *** Requests *)

(** What [sendJsonResponse(res, statusCode, data)] sends: the status,
    and the value that the text of the body denotes. *)
Record Answer := { status : Z; json : Json }.

(** [sendJsonResponse(res, statusCode, data)]: the body is
    [JSON.stringify(data)]. *)
Definition sendJsonResponse (statusCode : Z) (data : Json) : Answer :=
  {| status := statusCode; json := reparse data |}.

Definition errorJson (error : string) : Json := JObj {[ js "error" := JStr (js error) ]}.
Definition successJson : Json := JObj {[ js "success" := JBool true ]}.

(** [{ name: v }], where [JSON.stringify] leaves out a property that is
    [undefined]. *)
Definition property (name : string) (v : option Json) : Json :=
  match v with
  | Some v => JObj {[ js name := v ]}
  | None => JObj ∅
  end.

(** [body.name] for a property name that no prototype defines
    ([password], [sheetsConfig]): reading a property of [null] throws a
    [TypeError] ([None]). *)
Definition bodyProperty (name : string) (body : Json) : option (option Json) :=
  match body with
  | JNull => None
  | JObj o => Some (o !! js name)
  | _ => Some None
  end.

(** What the runtime and the file system supply to one request:
    [generateId()], the two readings of the clock, and the outcomes of
    the first and of the second write: whether it succeeds, and, when it
    fails, whether it was cut short after the file was opened. *)
Record Env := {
  generateId : JsString;
  now : JsString;
  now' : JsString;
  writeOk : bool;
  writeOk' : bool;
  cutShort : bool;
  cutShort' : bool
}.

Definition invalidRequestBody : Answer :=
  sendJsonResponse 400 (errorJson "Invalid request body").

(** [volunteers.find(v => v.id === id)] *)
Definition findVolunteer (id : JsString) (volunteers : list Obj) : option Obj :=
  List.find (fun v => strictEqStr (v !! js "id") id) volunteers.

(** [events.filter(event => event.volunteerId === id)] *)
Definition eventsOf (id : JsString) (events : list Obj) : list Obj :=
  filter (fun event => Is_true (strictEqStr (event !! js "volunteerId") id)) events.

(** [{ success: true, message: 'CSV export completed', files: [...] }] *)
Definition csvExport : Json :=
  JObj {[ js "success" := JBool true;
          js "message" := JStr (js "CSV export completed");
          js "files" := JArr [JStr (js "volunteers.csv"); JStr (js "events.csv");
                              JStr (js "summary.csv")] ]}.

(** A branch of the handler on the disk: the disk it leaves and the
    answer it sends. The sync route and the static files are apart
    ([None]), and so is a branch whose [id] is [undefined]. *)
Definition handle (env : Env) (r : Route) (req : RequestBody) (disk : Disk)
  : option (Disk * Answer) :=
  let volunteers := readData (volunteersFile disk) in
  let events := readData (eventsFile disk) in
  match r with
  | ListVolunteers =>
      Some (disk, sendJsonResponse 200 (JArr (JObj <$> volunteers)))
  | GetVolunteer (Some id) =>
      match findVolunteer id volunteers with
      | None => Some (disk, sendJsonResponse 404 (errorJson "Volunteer not found"))
      | Some volunteer => Some (disk, sendJsonResponse 200 (JObj volunteer))
      end
  | CreateVolunteer =>
      match parseBody req with
      | Some body =>
          let newVolunteer := newVolunteer (generateId env) (now env) body in
          Some ({| volunteersFile :=
                     writeData (writeOk env) (cutShort env)
                               (volunteers ++ [newVolunteer]) (volunteersFile disk);
                   eventsFile := eventsFile disk;
                   configFile := configFile disk |},
                sendJsonResponse 201 (JObj newVolunteer))
      | None => Some (disk, invalidRequestBody)
      end
  | DeleteVolunteer (Some id) =>
      match findIndex (fun v => strictEqStr (v !! js "id") id) volunteers with
      | None => Some (disk, sendJsonResponse 404 (errorJson "Volunteer not found"))
      | Some volunteerIndex =>
          let updatedEvents :=
            filter (fun event => ¬ strictEqStr (event !! js "volunteerId") id) events in
          Some ({| volunteersFile :=
                     writeData (writeOk env) (cutShort env)
                               (delete volunteerIndex volunteers) (volunteersFile disk);
                   eventsFile :=
                     writeData (writeOk' env) (cutShort' env)
                               updatedEvents (eventsFile disk);
                   configFile := configFile disk |},
                sendJsonResponse 200 successJson)
      end
  | ListEvents =>
      Some (disk, sendJsonResponse 200 (JArr (JObj <$> events)))
  | VolunteerEvents (Some id) =>
      Some (disk, sendJsonResponse 200 (JArr (JObj <$> eventsOf id events)))
  | CreateEvent =>
      match parseBody req ≫= newEvent (generateId env) (now env) (now' env) with
      | Some newEvent =>
          Some ({| volunteersFile := volunteersFile disk;
                   eventsFile :=
                     writeData (writeOk env) (cutShort env)
                               (events ++ [newEvent]) (eventsFile disk);
                   configFile := configFile disk |},
                sendJsonResponse 201 (JObj newEvent))
      | None => Some (disk, invalidRequestBody)
      end
  | GetPassword =>
      Some (disk,
            sendJsonResponse 200
              (property "password" (getConfig (configFile disk) !! js "adminPassword")))
  | SetPassword =>
      match parseBody req ≫= bodyProperty "password" with
      | Some password =>
          if truthyJson password then
            let config :=
              <[js "adminPassword" := default JNull password]>
                (getConfig (configFile disk)) in
            Some ({| volunteersFile := volunteersFile disk;
                     eventsFile := eventsFile disk;
                     configFile :=
                       writeData (writeOk env) (cutShort env) config (configFile disk) |},
                  sendJsonResponse 200 successJson)
          else Some (disk, sendJsonResponse 400 (errorJson "Password is required"))
      | None => Some (disk, invalidRequestBody)
      end
  | GetSheetsConfig =>
      Some (disk,
            sendJsonResponse 200
              (property "sheetsConfig" (getConfig (configFile disk) !! js "sheetsConfig")))
  | SetSheetsConfig =>
      match parseBody req ≫= bodyProperty "sheetsConfig" with
      | Some sheetsConfig =>
          if truthyJson sheetsConfig then
            let config :=
              <[js "sheetsConfig" := default JNull sheetsConfig]>
                (getConfig (configFile disk)) in
            Some ({| volunteersFile := volunteersFile disk;
                     eventsFile := eventsFile disk;
                     configFile :=
                       writeData (writeOk env) (cutShort env) config (configFile disk) |},
                  sendJsonResponse 200 successJson)
          else Some (disk, sendJsonResponse 400 (errorJson "Sheets config is required"))
      | None => Some (disk, invalidRequestBody)
      end
  | ExportCsv => Some (disk, sendJsonResponse 200 csvExport)
  | EndpointNotFound =>
      Some (disk, sendJsonResponse 404 (errorJson "API endpoint not found"))
  | GetVolunteer None | DeleteVolunteer None | VolunteerEvents None
  | SyncSheets | StaticFile => None
  end.

(** The disk as the handlers read it: a file that cannot be read counts
    as the empty array, or as the default configuration. *)
Definition asRead (disk : Disk) : Disk :=
  {| volunteersFile := Stored (readData (volunteersFile disk));
     eventsFile := Stored (readData (eventsFile disk));
     configFile := Stored (getConfig (configFile disk)) |}.

(** The disks that requests lead to from the initial one. *)
Inductive Reachable : Disk -> Prop :=
| reach_initial : Reachable initialDisk
| reach_request env method pathname req disk disk' answer :
    Reachable disk ->
    handle env (route method pathname) req disk = Some (disk', answer) ->
    Reachable disk'.

(** A record as the two POST routes store it. *)
Definition stamped (record : Obj) : Prop :=
  is_Some (record !! js "id") /\
  exists createdAt, record !! js "createdAt" = Some (JStr createdAt).

(** What holds of every disk that requests lead to: every record that
    is read is stamped, every event that is read has a [date], and the
    configuration that is read has an [adminPassword] and a
    [sheetsConfig] property. *)
Definition wellFormed (disk : Disk) : Prop :=
  Forall stamped (readData (volunteersFile disk)) /\
  Forall stamped (readData (eventsFile disk)) /\
  Forall (fun event => is_Some (event !! js "date")) (readData (eventsFile disk)) /\
  is_Some (getConfig (configFile disk) !! js "adminPassword") /\
  is_Some (getConfig (configFile disk) !! js "sheetsConfig").

End Api.

(** ** googleSheetsAPI.js: the calls of a run

    What the log of a run is measured against. *)

Module Calls.
Import Js Sheets.

(** The titles that the first call of a stretch of log was answered
    with: the [existingSheets] of [updateWorksheet]. *)
Definition titlesRead (tr : Log) : list JsString :=
  match tr with
  | (_, Reply titles) :: _ => titles
  | _ => []
  end.

(** The calls of [updateWorksheet] when none raises, for the titles that
    [spreadsheets.get] answers. *)
Definition worksheetCalls (spreadsheetId sheetTitle : JsString)
    (headerRow : Row) (data : list Row) (existingSheets : list JsString)
  : list Call :=
  SpreadsheetsGet spreadsheetId
  :: (if bool_decide (sheetTitle ∈ existingSheets) then []
      else [AddSheet spreadsheetId sheetTitle])
  ++ [ValuesClear spreadsheetId sheetTitle;
      ValuesUpdate spreadsheetId (sheetTitle ++ js "!A1") (headerRow :: data)].

(** A call on one worksheet of one spreadsheet. *)
Definition onWorksheet (spreadsheetId sheetTitle : JsString) (c : Call) : Prop :=
  c = SpreadsheetsGet spreadsheetId \/
  c = AddSheet spreadsheetId sheetTitle \/
  c = ValuesClear spreadsheetId sheetTitle \/
  exists rows, c = ValuesUpdate spreadsheetId (sheetTitle ++ js "!A1") rows.

(** A computation that only adds to the log, and only calls that
    satisfy [P]. *)
Definition Logged {World A : Type} (m : M World A) (P : Call -> Prop) : Prop :=
  forall w log, exists tr,
    snd (snd (m (w, log))) = log ++ tr /\
    Forall (fun e => P (fst e)) tr.

(** [volunteerEvents.length > 0] *)
Definition hasEvents (events : list Event.t) (volunteer : Volunteer.t) : Prop :=
  volunteerEvents events volunteer <> [].

(** The number of rows under the header rows of some updates. *)
Definition dataRows (writes : list (JsString * list Row)) : nat :=
  sum_list_with (fun u => pred (length (snd u))) writes.

End Calls.

(** * Properties *)

(** ** The runtime *)

Module JsFacts.
Import Js.

Lemma startsWith_spec (needle hay : JsString) :
  startsWith needle hay = true <-> exists post, hay = needle ++ post.
Proof.
  revert hay. induction needle as [|a needle IH]; intros hay; simpl.
  - split; [intros _; now exists hay | trivial].
  - destruct hay as [|b hay].
    + split; [discriminate | intros [post H]; discriminate].
    + rewrite andb_true_iff, N.eqb_eq, IH. split.
      * intros [-> [post ->]]. now exists post.
      * intros [post H]. injection H as -> ->. eauto.
Qed.

(** [includes] finds exactly the substrings. *)
Lemma includes_spec (needle hay : JsString) :
  includes needle hay = true <-> exists pre post, hay = pre ++ needle ++ post.
Proof.
  induction hay as [|b hay IH].
  - simpl. rewrite orb_false_r, startsWith_spec. split.
    + intros [post H]. now exists [], post.
    + intros [pre [post H]]. destruct pre; [|discriminate]. eauto.
  - cbn [includes]. rewrite orb_true_iff, startsWith_spec, IH. split.
    + intros [[post H] | [pre [post H]]].
      * now exists [], post.
      * exists (b :: pre), post. now rewrite H.
    + intros [pre [post H]]. destruct pre as [|c pre].
      * left. now exists post.
      * right. injection H as -> ->. eauto.
Qed.

Lemma includes_empty (needle : JsString) :
  includes needle [] = true -> needle = [].
Proof.
  rewrite includes_spec. intros [pre [post H]].
  symmetry in H. apply app_eq_nil in H as [_ H].
  now apply app_eq_nil in H as [H _].
Qed.

Section SortFacts.
Context {A : Type} (compareFn : A -> A -> Z).

Let le (a b : A) : Prop := compareFn a b <= 0.

Lemma insertInOrder_Permutation (x : A) (l : list A) :
  Permutation (insertInOrder compareFn x l) (x :: l).
Proof.
  induction l as [|y l IH]; simpl; [reflexivity|].
  destruct (compareFn x y <=? 0); [reflexivity|].
  rewrite IH. apply perm_swap.
Qed.

Lemma sort_Permutation (l : list A) : Permutation (sort compareFn l) l.
Proof.
  induction l as [|x l IH]; simpl; [reflexivity|].
  rewrite insertInOrder_Permutation. now constructor.
Qed.

Lemma length_sort (l : list A) : length (sort compareFn l) = length l.
Proof. apply Permutation_length, sort_Permutation. Qed.

(** On the elements that satisfy [P] the comparator is consistent: of
    two elements one is in front of the other, and being in front is
    transitive. *)
Variable P : A -> Prop.
Hypothesis compare_total :
  forall a b, P a -> P b -> 0 < compareFn a b -> compareFn b a <= 0.
Hypothesis compare_trans :
  forall a b c, P a -> P b -> P c ->
    compareFn a b <= 0 -> compareFn b c <= 0 -> compareFn a c <= 0.

Lemma insertInOrder_StronglySorted (x : A) (l : list A) :
  P x -> Forall P l ->
  StronglySorted le l -> StronglySorted le (insertInOrder compareFn x l).
Proof.
  intros Hx. induction l as [|y l IH]; intros HP Hs; simpl.
  - repeat constructor.
  - apply Forall_cons in HP as [Hy HP].
    apply StronglySorted_inv in Hs as [Hs Hall].
    destruct (Z.leb_spec (compareFn x y) 0) as [Hxy|Hxy].
    + constructor; [now constructor|]. constructor; [exact Hxy|].
      rewrite Forall_forall in Hall, HP. apply Forall_forall. intros z Hz.
      apply (compare_trans x y z); auto. apply Hall, Hz.
    + constructor; [now apply IH|].
      apply Forall_forall. intros z Hz.
      apply list_elem_of_In in Hz.
      eapply Permutation_in in Hz; [|apply insertInOrder_Permutation].
      destruct Hz as [<-|Hz]; [now apply compare_total|].
      rewrite Forall_forall in Hall. apply Hall. now apply list_elem_of_In.
Qed.

Lemma sort_StronglySorted (l : list A) :
  Forall P l -> StronglySorted le (sort compareFn l).
Proof.
  induction l as [|x l IH]; intros HP; simpl; [constructor|].
  apply Forall_cons in HP as [Hx HP].
  apply insertInOrder_StronglySorted; [assumption| |now apply IH].
  apply Forall_forall. intros z Hz. apply list_elem_of_In in Hz.
  eapply Permutation_in in Hz; [|apply sort_Permutation].
  rewrite Forall_forall in HP. apply HP. now apply list_elem_of_In.
Qed.

(** Where [insertInOrder] puts the element: behind the elements that are
    strictly in front of it. *)
Lemma insertInOrder_split (x : A) (l : list A) :
  exists l1 l2,
    l = l1 ++ l2 /\ insertInOrder compareFn x l = l1 ++ x :: l2 /\
    Forall (fun y => 0 < compareFn x y) l1.
Proof.
  induction l as [|y l IH]; simpl.
  - exists [], []. repeat split. constructor.
  - destruct (Z.leb_spec (compareFn x y) 0) as [Hxy|Hxy].
    + exists [], (y :: l). repeat split. constructor.
    + destruct IH as (l1 & l2 & -> & -> & Hall).
      exists (y :: l1), l2. repeat split. now constructor.
Qed.

(** The sort is stable: the elements that compare equal to [x] are in
    the order they had. *)
Lemma sort_stable (x : A) (l : list A) :
  P x -> Forall P l ->
  filter (fun y => compareFn x y <= 0 /\ compareFn y x <= 0) (sort compareFn l)
  = filter (fun y => compareFn x y <= 0 /\ compareFn y x <= 0) l.
Proof.
  intros Hx. induction l as [|a l IH]; intros HP; [reflexivity|].
  apply Forall_cons in HP as [Ha HP]. specialize (IH HP).
  cbn [sort foldr]. fold (sort compareFn l).
  destruct (insertInOrder_split a (sort compareFn l))
    as (l1 & l2 & Hsplit & -> & Hall).
  rewrite Hsplit in IH. rewrite filter_app in IH.
  rewrite filter_app, !filter_cons, <- IH.
  destruct (decide (compareFn x a <= 0 /\ compareFn a x <= 0)) as [[Hxa Hax]|Hne];
    [|reflexivity].
  assert (Hnil : filter (fun y => compareFn x y <= 0 /\ compareFn y x <= 0) l1 = []).
  { destruct (filter _ l1) as [|y ys] eqn:Hf; [reflexivity|]. exfalso.
    assert (Hy : y ∈ filter (fun y => compareFn x y <= 0 /\ compareFn y x <= 0) l1)
      by (rewrite Hf; constructor).
    apply list_elem_of_filter in Hy as [[Hxy Hyx] Hy].
    assert (Py : P y).
    { rewrite Forall_forall in HP. apply HP. apply list_elem_of_In.
      eapply Permutation_in; [apply sort_Permutation|].
      rewrite Hsplit. apply in_or_app. left. now apply list_elem_of_In. }
    rewrite Forall_forall in Hall. specialize (Hall y Hy).
    pose proof (compare_trans a x y Ha Hx Py Hax Hxy). lia. }
  now rewrite Hnil.
Qed.

End SortFacts.

Lemma snd_imap_ranks {A} (rank : nat -> Z) (l : list A) :
  snd <$> imap (fun i x => (rank i, x)) l = l.
Proof.
  revert rank. induction l as [|x l IH]; intros rank; [reflexivity|].
  cbn [imap fmap list_fmap snd]. f_equal. apply (IH (rank ∘ S)).
Qed.

(** Whatever the ranks are, [arrange] gives the same elements. *)
Lemma arrange_Permutation {A} (rank : nat -> Z) (l : list A) :
  Permutation (arrange rank l) l.
Proof.
  unfold arrange.
  rewrite <- (snd_imap_ranks rank l) at 2.
  apply fmap_Permutation, sort_Permutation.
Qed.

(** *** Numbers *)

Lemma add_NaN_l (y : Number) : add NaN y = NaN.
Proof. reflexivity. Qed.

Lemma add_NaN_r (x : Number) : add x NaN = NaN.
Proof. now destruct x. Qed.

Lemma parseFloat_zero : parseFloat (js "0") = posZero.
Proof. reflexivity. Qed.

(** A sum that meets a [NaN] is [NaN]. *)
Lemma sum_NaN {A} (f : A -> Number) (l : list A) :
  fold_left (fun sum a => add sum (f a)) l NaN = NaN.
Proof. induction l as [|a l IH]; simpl; [reflexivity | exact IH]. Qed.

Lemma sum_with_NaN {A} (f : A -> Number) (l : list A) (x : Number) (a : A) :
  In a l -> f a = NaN -> fold_left (fun sum a => add sum (f a)) l x = NaN.
Proof.
  revert x. induction l as [|b l IH]; intros x Hin Ha; [destruct Hin|].
  simpl. destruct Hin as [->|Hin].
  - rewrite Ha, add_NaN_r. apply sum_NaN.
  - now apply IH.
Qed.

(** The conversions on some inputs. *)
Example parseFloat_examples :
  parseFloat (js "1.5") = S754_finite false 6755399441055744 (-52) /\
  parseFloat (js "  2 hours") = S754_finite false 4503599627370496 (-51) /\
  parseFloat (js "-0") = S754_zero true /\
  parseFloat (js ".5e1") = S754_finite false 5629499534213120 (-50) /\
  parseFloat (js "abc") = NaN /\
  parseFloat (js "") = NaN /\
  parseFloat (js "1e400") = S754_infinity false.
Proof. repeat split. Qed.

Example toFixed_examples :
  toFixed 2 (add (parseFloat (js "0.1")) (parseFloat (js "0.2"))) = js "0.30" /\
  toFixed 2 (parseFloat (js "1.005")) = js "1.00" /\
  toFixed 2 (parseFloat (js "0.125")) = js "0.13" /\
  toFixed 2 (parseFloat (js "-0.001")) = js "-0.00" /\
  toFixed 2 (parseFloat (js "1e21")) = js "1e+21" /\
  toFixed 2 (parseFloat (js "12345678901234567890123")) = js "1.2345678901234568e+22" /\
  toFixed 2 (parseFloat (js "Infinity")) = js "Infinity".
Proof. repeat split. Qed.

(** *** Decimal digits *)

Lemma isDigit_of_mod (n : Z) : isDigit (Z.to_N (48 + n mod 10)) = true.
Proof.
  pose proof (Z.mod_pos_bound n 10 eq_refl) as H.
  unfold isDigit. rewrite andb_true_iff, !N.leb_le. lia.
Qed.

Lemma digitsFuel_digits (fuel : nat) (n : Z) (acc : JsString) :
  Forall (fun c => isDigit c = true) acc ->
  Forall (fun c => isDigit c = true) (digitsFuel fuel n acc).
Proof.
  revert n acc. induction fuel as [|fuel IH]; intros n acc Hacc; simpl.
  - assumption.
  - destruct (n / 10 =? 0).
    + constructor; [apply isDigit_of_mod | assumption].
    + apply IH. constructor; [apply isDigit_of_mod | assumption].
Qed.

Lemma digitsFuel_length (fuel : nat) (n : Z) (acc : JsString) :
  (length acc <= length (digitsFuel fuel n acc))%nat.
Proof.
  revert n acc. induction fuel as [|fuel IH]; intros n acc; simpl; [lia|].
  destruct (n / 10 =? 0); simpl; [lia|].
  etransitivity; [|apply IH]. simpl. lia.
Qed.

Lemma decimal_digits (n : Z) : Forall (fun c => isDigit c = true) (decimal n).
Proof. apply digitsFuel_digits. constructor. Qed.

Lemma decimal_length (n : Z) : (1 <= length (decimal n))%nat.
Proof.
  unfold decimal. simpl. destruct (n / 10 =? 0); simpl; [lia|].
  etransitivity; [|apply digitsFuel_length]. simpl. lia.
Qed.

Lemma spanDigits_app (d rest : JsString) :
  Forall (fun c => isDigit c = true) d ->
  match rest with [] => True | c :: _ => isDigit c = false end ->
  spanDigits (d ++ rest) = (d, rest).
Proof.
  intros Hd Hrest. induction Hd as [|c d Hc Hd IH]; simpl.
  - destruct rest as [|c rest]; [reflexivity|]. simpl. now rewrite Hrest.
  - now rewrite Hc, IH.
Qed.

(** With two digits after the point, [fixedDigits] has the form [D+.DD]. *)
Lemma fixedDigits_two (n : Z) :
  exists ip d1 d2,
    fixedDigits 2 n = ip ++ [46%N; d1; d2] /\ ip <> [] /\
    Forall (fun c => isDigit c = true) (ip ++ [d1; d2]).
Proof.
  unfold fixedDigits.
  set (m := replicate (3 - length (decimal n)) 48%N ++ decimal n).
  assert (Hm : Forall (fun c => isDigit c = true) m).
  { apply Forall_app. split; [|apply decimal_digits].
    now apply Forall_replicate. }
  assert (Hlen : (3 <= length m)%nat).
  { unfold m. rewrite length_app, length_replicate.
    pose proof (decimal_length n). lia. }
  pose proof (take_drop (length m - 2) m) as Hsplit.
  assert (Hdrop : length (drop (length m - 2) m) = 2%nat)
    by (rewrite length_drop; lia).
  destruct (drop (length m - 2) m) as [|d1 [|d2 [|? ?]]] eqn:Hd;
    try discriminate.
  exists (take (length m - 2) m), d1, d2. repeat split.
  - intros Hnil. apply (f_equal length) in Hnil.
    rewrite length_take in Hnil. simpl in Hnil. lia.
  - now rewrite Hsplit.
Qed.

Lemma isTwoDecimal_fixedDigits (n : Z) (sign : bool) :
  isTwoDecimal ((if sign then [45%N] else []) ++ fixedDigits 2 n) = true.
Proof.
  destruct (fixedDigits_two n) as (ip & d1 & d2 & -> & Hne & Hd).
  apply Forall_app in Hd as [Hip Hd].
  assert (Hspan : spanDigits (ip ++ [46%N; d1; d2]) = (ip, [46%N; d1; d2]))
    by now apply spanDigits_app.
  assert (Hbody : isTwoDecimal (ip ++ [46%N; d1; d2]) = true).
  { unfold isTwoDecimal.
    destruct ip as [|c ip]; [congruence|].
    assert (c <> 45%N) as Hc.
    { intros ->. now inversion Hip. }
    replace (match (c :: ip) ++ [46%N; d1; d2] with
             | 45%N :: r => r | _ => (c :: ip) ++ [46%N; d1; d2] end)
      with ((c :: ip) ++ [46%N; d1; d2]).
    - rewrite Hspan. inversion Hd as [|? ? H1 Hd']; subst.
      inversion Hd' as [|? ? H2 _]; subst. now rewrite H1, H2.
    - simpl. destruct c as [|p]; [reflexivity|].
      do 6 (destruct p as [p|p|]; try reflexivity); congruence. }
  destruct sign; [|exact Hbody].
  unfold isTwoDecimal. simpl app.
  unfold isTwoDecimal in Hbody.
  destruct ip as [|c ip]; [congruence|].
  assert (c <> 45%N) as Hc.
  { intros ->. now inversion Hip. }
  rewrite Hspan. inversion Hd as [|? ? H1 Hd']; subst.
  inversion Hd' as [|? ? H2 _]; subst. now rewrite H1, H2.
Qed.

(** In its fixed range [toFixed(2)] prints exactly two decimal places. *)
Lemma toFixed_two_decimals (x : Number) :
  inFixedRange x = true -> isTwoDecimal (toFixed 2 x) = true.
Proof.
  destruct x as [s|s| |s m e]; simpl; try discriminate.
  - intros _. apply (isTwoDecimal_fixedDigits 0 false).
  - intros H. apply negb_true_iff in H. rewrite H.
    destruct (magnitude m e) as [num den].
    apply isTwoDecimal_fixedDigits.
Qed.

End JsFacts.

(** ** The concrete runtime *)

Module DemoFacts.
Import Js Sheets Demo.

Lemma compareCodeUnits_antisym (a b : JsString) :
  compareCodeUnits b a = - compareCodeUnits a b.
Proof.
  revert b. induction a as [|x a IH]; intros [|y b]; simpl; try reflexivity.
  rewrite (N.compare_antisym x y).
  destruct (x ?= y)%N; simpl; [apply IH | reflexivity | reflexivity].
Qed.

Lemma compareCodeUnits_total (a b : JsString) :
  0 < compareCodeUnits a b -> compareCodeUnits b a <= 0.
Proof. rewrite compareCodeUnits_antisym. lia. Qed.

Lemma compareCodeUnits_trans (a b c : JsString) :
  compareCodeUnits a b <= 0 -> compareCodeUnits b c <= 0 ->
  compareCodeUnits a c <= 0.
Proof.
  revert b c. induction a as [|x a IH]; intros [|y b] [|z c]; simpl; try lia.
  destruct (N.compare_spec x y), (N.compare_spec y z), (N.compare_spec x z);
    try lia.
  apply IH.
Qed.

End DemoFacts.

(** ** The adapter and the sync *)

Module SheetsFacts.
Import Js Sheets JsFacts.

Lemma updates_app (l1 l2 : Log) : updates (l1 ++ l2) = updates l1 ++ updates l2.
Proof. apply omap_app. Qed.

Section Traces.
Context {World : Type} (googleapis : Call -> World -> Outcome * World).

Lemma Traced_ret {A} (a : A) (post : A -> Prop) :
  post a -> Traced (World := World) (ret a) [] post.
Proof.
  intros Hpost w log. exists []. simpl. split; [now rewrite app_nil_r|].
  now constructor.
Qed.

Lemma Traced_call (c : Call) :
  Traced (call googleapis c) (updates [(c, Reply [])]) (fun _ => True).
Proof.
  intros w log. unfold call.
  destruct (googleapis c w) as [[message|titles] w'] eqn:E; simpl.
  - exists [(c, Raise message)]. split; [reflexivity|].
    apply (trace_thrown _ _ message c []); [constructor|].
    destruct c; reflexivity.
  - exists [(c, Reply titles)]. split; [reflexivity|].
    constructor; [repeat constructor | now destruct c | trivial].
Qed.

Lemma Traced_bind {A B} (m : M World A) (k : A -> M World B)
    (e1 e2 : list (JsString * list Row)) (p1 : A -> Prop) (p2 : B -> Prop) :
  Traced m e1 p1 ->
  (forall a, p1 a -> Traced (k a) e2 p2) ->
  Traced (bind m k) (e1 ++ e2) p2.
Proof.
  intros Hm Hk w log. destruct (Hm w log) as (tr1 & Hlog1 & Hok1).
  unfold bind. destruct (m (w, log)) as [r [w1 log1]]. simpl in *. subst log1.
  inversion Hok1 as [a tr Hall Hupd Hpost | message c pre Hall Hupd]; subst.
  - destruct (Hk a Hpost w1 (log ++ tr1)) as (tr2 & Hlog2 & Hok2).
    exists (tr1 ++ tr2). split; [now rewrite Hlog2, app_assoc|].
    inversion Hok2 as [b tr Hall2 Hupd2 Hpost2 | message c pre Hall2 Hupd2]; subst.
    + constructor; [now apply Forall_app | now rewrite updates_app | assumption].
    + rewrite app_assoc. constructor; [now apply Forall_app|].
      rewrite <- app_assoc, updates_app. now apply prefix_app.
  - exists (pre ++ [(c, Raise message)]). split; [reflexivity|].
    constructor; [assumption|]. now apply prefix_app_r.
Qed.

Lemma Traced_weaken {A} (m : M World A) (e e' : list (JsString * list Row))
    (p p' : A -> Prop) :
  e = e' -> (forall a, p a -> p' a) -> Traced m e p -> Traced m e' p'.
Proof.
  intros <- Hp Hm w log. destruct (Hm w log) as (tr & Hlog & Hok).
  exists tr. split; [assumption|].
  inversion Hok; subst; constructor; auto.
Qed.

Lemma Traced_createSheetsClient (creds : Credentials) :
  Traced (createSheetsClient googleapis creds) [] (fun _ => True).
Proof.
  unfold createSheetsClient.
  apply (Traced_bind _ _ [] [] (fun _ => True)).
  - apply (Traced_call (GoogleAuth creds)).
  - intros _ _. now apply Traced_ret.
Qed.

(** One [updateWorksheet] makes one update, of the header and the data
    at the first cell of the worksheet. *)
Lemma Traced_updateWorksheet (sid title : JsString) (header : Row)
    (data : list Row) :
  Traced (updateWorksheet googleapis sid title header data)
         [(title ++ js "!A1", header :: data)] (fun _ => True).
Proof.
  unfold updateWorksheet.
  apply (Traced_bind _ _ [] _ (fun _ => True)).
  { apply (Traced_call (SpreadsheetsGet sid)). }
  intros existingSheets _.
  apply (Traced_bind _ _ [] _ (fun _ => True)).
  { destruct (negb _).
    - apply (Traced_bind _ _ [] [] (fun _ => True)).
      + apply (Traced_call (AddSheet sid title)).
      + intros _ _. now apply Traced_ret.
    - now apply Traced_ret. }
  intros _ _.
  apply (Traced_bind _ _ [] _ (fun _ => True)).
  { apply (Traced_call (ValuesClear sid title)). }
  intros _ _.
  apply (Traced_bind _ _ [_] [] (fun _ => True)).
  { apply (Traced_call (ValuesUpdate sid (title ++ js "!A1") (header :: data))). }
  intros _ _. now apply Traced_ret.
Qed.

Variable rt : Runtime.

Lemma Traced_syncVolunteer (sid : JsString) (events : list Event.t)
    (volunteer : Volunteer.t) :
  Traced (syncVolunteer googleapis rt sid events volunteer)
         (individualWrites rt events volunteer) (fun _ => True).
Proof.
  unfold syncVolunteer, individualWrites.
  destruct (volunteerEvents events volunteer) as [|e own].
  - now apply Traced_ret.
  - apply Traced_updateWorksheet.
Qed.

Lemma Traced_syncVolunteers (sid : JsString) (events : list Event.t)
    (sorted : list Volunteer.t) :
  Traced (syncVolunteers googleapis rt sid events sorted)
         (flat_map (individualWrites rt events) sorted) (fun _ => True).
Proof.
  induction sorted as [|volunteer rest IH]; simpl.
  - now apply Traced_ret.
  - apply (Traced_bind _ _ _ _ (fun _ => True)).
    + apply Traced_syncVolunteer.
    + intros _ _. exact IH.
Qed.

Lemma syncBody_complete (sheetsConfig : option SheetsConfig)
    (volunteers : list Volunteer.t) (events : list Event.t) :
  complete sheetsConfig = true ->
  Traced (syncBody googleapis rt sheetsConfig volunteers events)
         (worksheetWrites rt volunteers events)
         (fun counts => counts = (length volunteers, length events)).
Proof.
  destruct sheetsConfig as [[[sid|] [creds|]]|]; simpl; try discriminate.
  intros ->.
  apply (Traced_bind _ _ [] _ (fun _ => True)).
  { apply Traced_createSheetsClient. }
  intros _ _. unfold worksheetWrites.
  apply (Traced_bind _ _ [_] _ (fun _ => True)).
  { apply Traced_updateWorksheet. }
  intros _ _.
  apply (Traced_weaken _ (flat_map (individualWrites rt events)
                                   (sortedVolunteers rt volunteers) ++ []) _
                       (fun counts => counts = (length volunteers, length events))).
  { apply app_nil_r. }
  { trivial. }
  apply (Traced_bind _ _ _ _ (fun _ => True)).
  { apply Traced_syncVolunteers. }
  intros _ _. now apply Traced_ret.
Qed.

Lemma syncBody_incomplete (sheetsConfig : option SheetsConfig)
    (volunteers : list Volunteer.t) (events : list Event.t) (s : World * Log) :
  complete sheetsConfig = false ->
  syncBody googleapis rt sheetsConfig volunteers events s = (Thrown incomplete, s).
Proof.
  destruct sheetsConfig as [[[sid|] [creds|]]|]; simpl; try reflexivity.
  now intros ->.
Qed.

End Traces.

Lemma raised_is_last (pre pre' post : Log) (c c' : Call) (m m' : JsString) :
  Forall (fun e => raised (snd e) = false) pre ->
  pre ++ [(c, Raise m)] = pre' ++ (c', Raise m') :: post ->
  post = [] /\ m' = m.
Proof.
  revert pre'. induction pre as [|e pre IH]; intros pre' Hall Heq.
  - destruct pre' as [|e' pre']; simpl in Heq.
    + injection Heq as _ -> <-. now split.
    + injection Heq as _ Heq. destruct pre'; discriminate.
  - apply Forall_cons in Hall as [He Hall].
    destruct pre' as [|e' pre']; simpl in Heq.
    + injection Heq as -> _. discriminate.
    + injection Heq as _ Heq. now apply (IH pre').
Qed.

Lemma returned_has_no_raise (pre post : Log) (c : Call) (m : JsString) :
  Forall (fun e => raised (snd e) = false) (pre ++ (c, Raise m) :: post) -> False.
Proof.
  intros Hall. apply Forall_app in Hall as [_ Hall].
  apply Forall_cons in Hall as [Hc _]. discriminate.
Qed.

Section Runs.
Context {World : Type} (googleapis : Call -> World -> Outcome * World).
Variable rt : Runtime.

(** Every run of the sync, summed up. *)
Lemma sync_run (sheetsConfig : option SheetsConfig)
    (volunteers : list Volunteer.t) (events : list Event.t)
    (w : World) (log : Log) :
  exists tr,
    snd (snd (syncToGoogleSheets googleapis rt sheetsConfig volunteers events
                                 (w, log))) = log ++ tr /\
    match fst (syncToGoogleSheets googleapis rt sheetsConfig volunteers events
                                  (w, log)) with
    | Success a b =>
        complete sheetsConfig = true /\
        a = length volunteers /\ b = length events /\
        Forall (fun e => raised (snd e) = false) tr /\
        updates tr = worksheetWrites rt volunteers events
    | Failure message =>
        (complete sheetsConfig = false /\ tr = [] /\ message = incomplete) \/
        (complete sheetsConfig = true /\
         exists pre c, tr = pre ++ [(c, Raise message)] /\
           Forall (fun e => raised (snd e) = false) pre /\
           updates tr `prefix_of` worksheetWrites rt volunteers events)
    end.
Proof.
  unfold syncToGoogleSheets. destruct (complete sheetsConfig) eqn:Hc.
  - destruct (syncBody_complete googleapis rt sheetsConfig volunteers events
                                Hc w log) as (tr & Hlog & Hok).
    exists tr.
    destruct (syncBody googleapis rt sheetsConfig volunteers events (w, log))
      as [r s']. simpl in *.
    inversion Hok as [[a b] tr' Hall Hupd Hpost | message c pre Hall Hupd];
      subst; simpl.
    + injection Hpost as -> ->. repeat split; auto.
    + split; [assumption|]. right. split; [reflexivity|]. eauto.
  - rewrite syncBody_incomplete by assumption. exists []. simpl.
    rewrite app_nil_r. split; [reflexivity|]. left. auto.
Qed.

(** C4. The worksheets are updated one after the other in the order of
    the plan: the "Volunteers" sheet, then the sheet of each sorted
    volunteer that has events. A call that raises an error is the last
    call of the run, and the sync then returns the failure result that
    carries the message of that error; a sync that succeeds has made
    every update and met no error. The sync returns a result in every
    case. *)
Theorem sync_sequential_and_aborts (sheetsConfig : option SheetsConfig)
    (volunteers : list Volunteer.t) (events : list Event.t) (w : World) :
  let run := syncToGoogleSheets googleapis rt sheetsConfig volunteers events
                                (w, []) in
  let result := fst run in
  let log := snd (snd run) in
  updates log `prefix_of` worksheetWrites rt volunteers events /\
  (forall pre c message post,
      log = pre ++ (c, Raise message) :: post ->
      post = [] /\ result = Failure message) /\
  (forall a b, result = Success a b ->
      Forall (fun e => raised (snd e) = false) log /\
      updates log = worksheetWrites rt volunteers events) /\
  (forall message, result = Failure message ->
      (log = [] /\ complete sheetsConfig = false /\ message = incomplete) \/
      exists pre c, log = pre ++ [(c, Raise message)]).
Proof.
  cbv zeta.
  destruct (sync_run sheetsConfig volunteers events w []) as (tr & Hlog & Hres).
  rewrite app_nil_l in Hlog. rewrite Hlog. clear Hlog.
  destruct (fst (syncToGoogleSheets googleapis rt sheetsConfig volunteers
                                    events (w, []))) as [a b|message].
  - destruct Hres as (_ & _ & _ & Hall & Hupd).
    split; [now rewrite Hupd|]. split; [|split].
    + intros pre c message post ->. now apply returned_has_no_raise in Hall.
    + intros _ _ _. now split.
    + discriminate.
  - destruct Hres as [(Hc & -> & ->) | (Hc & pre & c & -> & Hall & Hupd)].
    + split; [apply prefix_nil|]. split; [|split].
      * intros pre c message post Heq. destruct pre; discriminate.
      * discriminate.
      * intros m [= <-]. left. auto.
    + split; [assumption|]. split; [|split].
      * intros pre' c' message' post Heq.
        apply (raised_is_last _ _ _ _ _ _ _ Hall) in Heq as [-> ->].
        now split.
      * discriminate.
      * intros m [= <-]. right. eauto.
Qed.

End Runs.

(** *** The rows *)


Lemma first_cells_imap {A} (f : nat -> A -> Row) (g : nat -> Cell) (l : list A) :
  (forall i a, hd CUndefined (f i a) = g (S i)) ->
  hd CUndefined <$> imap f l = g <$> seq 1 (length l).
Proof.
  intros Hf. rewrite fmap_imap, <- fmap_S_seq, <- list_fmap_compose.
  rewrite <- (imap_seq_0 l (g ∘ S)). apply imap_ext. intros i a _. apply Hf.
Qed.

Lemma contribution_parseFloat (event : Event.t) :
  parseFloat (hoursOrZero (Event.hours event)) = contribution event.
Proof.
  unfold contribution, hoursOrZero.
  destruct (Event.hours event) as [[|c h]|]; reflexivity.
Qed.

Lemma totalHours_contributions (events : list Event.t) (volunteer : Volunteer.t) :
  totalHours events volunteer =
  fold_left (fun sum event => add sum (contribution event))
            (volunteerEvents events volunteer) posZero.
Proof.
  unfold totalHours. generalize posZero.
  induction (volunteerEvents events volunteer) as [|e l IH]; intros x; simpl.
  - reflexivity.
  - now rewrite contribution_parseFloat, IH.
Qed.

Lemma sheetName_prefix (name : JsString) :
  substring0 30 (js "Volunteer - " ++ name) = js "Volunteer - " ++ take 18 name.
Proof. reflexivity. Qed.

Section Rows.
Context {World : Type} (googleapis : Call -> World -> Outcome * World).
Variable rt : Runtime.

Lemma volunteersData_lookup (volunteers : list Volunteer.t)
    (events : list Event.t) (i : nat) (volunteer : Volunteer.t) :
  sortedVolunteers rt volunteers !! i = Some volunteer ->
  volunteersData rt volunteers events !! i =
    Some [CNum (Z.of_nat i + 1);
          CStr (Volunteer.name volunteer);
          CStr (Volunteer.phone volunteer);
          CStr (Volunteer.email volunteer);
          CStr (toFixed 2 (totalHours events volunteer))].
Proof.
  intros Hi. unfold volunteersData. now rewrite list_lookup_imap, Hi.
Qed.

Lemma first_update_of_run (sheetsConfig : option SheetsConfig)
    (volunteers : list Volunteer.t) (events : list Event.t) (w : World)
    (u : JsString * list Row) :
  head (updates (snd (snd (syncToGoogleSheets googleapis rt sheetsConfig
                             volunteers events (w, []))))) = Some u ->
  u = (js "Volunteers!A1",
       volunteersHeader :: volunteersData rt volunteers events).
Proof.
  destruct (sync_run googleapis rt sheetsConfig volunteers events w [])
    as (tr & Hlog & Hres).
  rewrite app_nil_l in Hlog. rewrite Hlog.
  assert (Hpre : updates tr `prefix_of` worksheetWrites rt volunteers events).
  { destruct (fst _) as [a b|message].
    - destruct Hres as (_ & _ & _ & _ & ->). reflexivity.
    - destruct Hres as [(_ & -> & _) | (_ & pre & c & _ & _ & Hpre)];
        [apply prefix_nil | assumption]. }
  destruct Hpre as [rest Hrest]. unfold worksheetWrites in Hrest.
  destruct (updates tr) as [|u' us]; [discriminate|].
  simpl. intros [= <-]. now injection Hrest as <- _.
Qed.

Lemma updates_of_success (sheetsConfig : option SheetsConfig)
    (volunteers : list Volunteer.t) (events : list Event.t) (w : World)
    (a b : nat) :
  fst (syncToGoogleSheets googleapis rt sheetsConfig volunteers events (w, []))
    = Success a b ->
  updates (snd (snd (syncToGoogleSheets googleapis rt sheetsConfig
                       volunteers events (w, []))))
    = worksheetWrites rt volunteers events.
Proof.
  destruct (sync_run googleapis rt sheetsConfig volunteers events w [])
    as (tr & Hlog & Hres).
  rewrite app_nil_l in Hlog. rewrite Hlog. intros Hs. rewrite Hs in Hres.
  now destruct Hres as (_ & _ & _ & _ & ->).
Qed.

(** A sync with a spreadsheet id and credentials none of whose calls
    raises an error succeeds, and has made every update. *)
Lemma run_without_raise (sid : JsString) (creds : Credentials)
    (volunteers : list Volunteer.t) (events : list Event.t) (w : World) :
  sid <> [] ->
  Forall (fun e => raised (snd e) = false)
         (snd (snd (syncToGoogleSheets googleapis rt
                      (Some {| spreadsheetId := Some sid;
                               credentials := Some creds |})
                      volunteers events (w, [])))) ->
  fst (syncToGoogleSheets googleapis rt
         (Some {| spreadsheetId := Some sid; credentials := Some creds |})
         volunteers events (w, []))
    = Success (length volunteers) (length events) /\
  updates (snd (snd (syncToGoogleSheets googleapis rt
                       (Some {| spreadsheetId := Some sid;
                                credentials := Some creds |})
                       volunteers events (w, []))))
    = worksheetWrites rt volunteers events.
Proof.
  intros Hsid.
  destruct (sync_run googleapis rt
              (Some {| spreadsheetId := Some sid; credentials := Some creds |})
              volunteers events w []) as (tr & Hlog & Hres).
  rewrite app_nil_l in Hlog. rewrite Hlog. intros Hquiet.
  destruct (fst _) as [a b|message].
  - destruct Hres as (_ & -> & -> & _ & Hupd). now split.
  - exfalso. destruct Hres as [(Hc & _) | (_ & pre & c & -> & _)].
    + simpl in Hc. destruct sid; [congruence | discriminate].
    + apply Forall_app in Hquiet as [_ Hlast].
      apply Forall_inv in Hlast. discriminate.
Qed.

End Rows.

Section Ties.
Variable rt : Runtime.

(** Volunteers whose names compare equal keep the order of the input. *)
Lemma sortedVolunteers_stable (volunteers : list Volunteer.t) (v : Volunteer.t) :
  (forall a b c, localeCompare rt a b <= 0 -> localeCompare rt b c <= 0 ->
                 localeCompare rt a c <= 0) ->
  filter (fun u => compareNames rt v u <= 0 /\ compareNames rt u v <= 0)
         (sortedVolunteers rt volunteers)
  = filter (fun u => compareNames rt v u <= 0 /\ compareNames rt u v <= 0)
           volunteers.
Proof.
  intros Htrans.
  apply (sort_stable (compareNames rt) (fun _ => True)); [|trivial|].
  - intros a b c _ _ _. apply Htrans.
  - apply Forall_forall. trivial.
Qed.

Lemma validDates_Forall (own : list Event.t) :
  validDates rt own = true <->
  Forall (fun e => newDate rt (Event.date e) <> None) own.
Proof.
  unfold validDates, timeValues. induction own as [|e own IH]; simpl.
  - split; [constructor | reflexivity].
  - rewrite Forall_cons, <- IH.
    destruct (newDate rt (Event.date e)); simpl.
    + split; [intros H; split; [discriminate | exact H] | tauto].
    + split; [discriminate | intros [H _]; congruence].
Qed.

(** With valid dates the events are sorted by the stable sort. *)
Lemma sortedEvents_valid (own : list Event.t) :
  Forall (fun e => newDate rt (Event.date e) <> None) own ->
  sortedEvents rt own = sort (compareDates rt) own.
Proof.
  intros Hvalid. unfold sortedEvents.
  now rewrite (proj2 (validDates_Forall own) Hvalid).
Qed.

(** The sort gives the same events, valid dates or not. *)
Lemma sortedEvents_Permutation (own : list Event.t) :
  Permutation (sortedEvents rt own) own.
Proof.
  unfold sortedEvents. destruct (validDates rt own).
  - apply sort_Permutation.
  - apply arrange_Permutation.
Qed.

Lemma length_sortedEvents (own : list Event.t) :
  length (sortedEvents rt own) = length own.
Proof. apply Permutation_length, sortedEvents_Permutation. Qed.

(** Events of the same time value keep the order of the input, when all
    the dates are valid. *)
Lemma sortedEvents_stable (own : list Event.t) (e : Event.t) :
  newDate rt (Event.date e) <> None ->
  Forall (fun e => newDate rt (Event.date e) <> None) own ->
  filter (fun u => compareDates rt e u <= 0 /\ compareDates rt u e <= 0)
         (sortedEvents rt own)
  = filter (fun u => compareDates rt e u <= 0 /\ compareDates rt u e <= 0) own.
Proof.
  intros He Hown. rewrite sortedEvents_valid by assumption.
  revert He Hown.
  apply (sort_stable (compareDates rt)
                     (fun e => newDate rt (Event.date e) <> None)).
  intros a b c Ha Hb Hc. unfold compareDates.
  destruct (newDate rt (Event.date a)); [|congruence].
  destruct (newDate rt (Event.date b)); [|congruence].
  destruct (newDate rt (Event.date c)); [|congruence]. lia.
Qed.

End Ties.

Section Worksheets.
Context {World : Type} (googleapis : Call -> World -> Outcome * World).
Variable rt : Runtime.

Section NameOrder.

(** [localeCompare] is a consistent comparator. *)
Hypothesis localeCompare_total :
  forall a b, 0 < localeCompare rt a b -> localeCompare rt b a <= 0.
Hypothesis localeCompare_trans :
  forall a b c, localeCompare rt a b <= 0 -> localeCompare rt b c <= 0 ->
                localeCompare rt a c <= 0.

(** C1. The first worksheet update of a sync, and on success the one
    that is made, writes to "Volunteers" the header
    [ID, Name, Phone, Email, Total Hours] and one row for each volunteer;
    a sync with a spreadsheet id and credentials none of whose calls
    raises an error succeeds, and so makes this update.
    The rows follow the volunteers in ascending order of their
    lower-cased names, and the first cell of the row at position [i]
    (from 1) is [i]: the display IDs are 1..N, whatever the stored ids
    are. *)
Theorem volunteers_sheet_rows (volunteers : list Volunteer.t)
    (events : list Event.t) :
  let sorted := sortedVolunteers rt volunteers in
  let rows := volunteersData rt volunteers events in
  (forall sheetsConfig (w : World) u,
      head (updates (snd (snd (syncToGoogleSheets googleapis rt sheetsConfig
                                 volunteers events (w, []))))) = Some u ->
      u = (js "Volunteers!A1", volunteersHeader :: rows)) /\
  (forall sheetsConfig (w : World) a b,
      fst (syncToGoogleSheets googleapis rt sheetsConfig volunteers events
                              (w, [])) = Success a b ->
      head (updates (snd (snd (syncToGoogleSheets googleapis rt sheetsConfig
                                 volunteers events (w, [])))))
      = Some (js "Volunteers!A1", volunteersHeader :: rows)) /\
  (forall sid creds (w : World),
      sid <> [] ->
      Forall (fun e => raised (snd e) = false)
             (snd (snd (syncToGoogleSheets googleapis rt
                          (Some {| spreadsheetId := Some sid;
                                   credentials := Some creds |})
                          volunteers events (w, [])))) ->
      fst (syncToGoogleSheets googleapis rt
             (Some {| spreadsheetId := Some sid; credentials := Some creds |})
             volunteers events (w, []))
        = Success (length volunteers) (length events) /\
      head (updates (snd (snd (syncToGoogleSheets googleapis rt
                                 (Some {| spreadsheetId := Some sid;
                                          credentials := Some creds |})
                                 volunteers events (w, [])))))
      = Some (js "Volunteers!A1", volunteersHeader :: rows)) /\
  volunteersHeader = [CStr (js "ID"); CStr (js "Name"); CStr (js "Phone");
                      CStr (js "Email"); CStr (js "Total Hours")] /\
  Permutation sorted volunteers /\
  StronglySorted
    (fun a b => localeCompare rt (toLowerCase rt (Volunteer.name a))
                                 (toLowerCase rt (Volunteer.name b)) <= 0)
    sorted /\
  length rows = length volunteers /\
  (forall i volunteer,
      sorted !! i = Some volunteer ->
      rows !! i = Some [CNum (Z.of_nat i + 1);
                        CStr (Volunteer.name volunteer);
                        CStr (Volunteer.phone volunteer);
                        CStr (Volunteer.email volunteer);
                        CStr (toFixed 2 (totalHours events volunteer))]) /\
  hd CUndefined <$> rows = (fun i => CNum (Z.of_nat i)) <$> seq 1 (length volunteers).
Proof.
  cbv zeta. repeat apply conj.
  - intros sheetsConfig w u. apply first_update_of_run.
  - intros sheetsConfig w a b Hs.
    now rewrite (updates_of_success googleapis rt _ _ _ _ _ _ Hs).
  - intros sid creds w Hsid Hquiet.
    destruct (run_without_raise googleapis rt sid creds volunteers events w
                                Hsid Hquiet) as [Hs Hupd].
    split; [exact Hs | now rewrite Hupd].
  - reflexivity.
  - apply sort_Permutation.
  - apply (sort_StronglySorted (compareNames rt) (fun _ => True)).
    + intros a b _ _. apply localeCompare_total.
    + intros a b c _ _ _. apply localeCompare_trans.
    + apply Forall_forall. trivial.
  - unfold volunteersData. rewrite length_imap. apply length_sort.
  - intros i volunteer. apply volunteersData_lookup.
  - unfold volunteersData.
    rewrite (first_cells_imap _ (fun i => CNum (Z.of_nat i))).
    + unfold sortedVolunteers. now rewrite length_sort.
    + intros i a. simpl. f_equal. lia.
Qed.

End NameOrder.

(** C2, amended. The Total Hours cell of a volunteer's row is
    [toFixed(2)] of the sum, over exactly the events whose [volunteerId]
    is the volunteer's id, of the [parseFloat] of the hours, where hours
    that are missing or empty add [0]. In the fixed range of [toFixed] it
    has exactly two decimal places. Hours that do not parse make the
    total [NaN], and the cell then reads "NaN". *)
Theorem total_hours_cell (volunteers : list Volunteer.t) (events : list Event.t)
    (i : nat) (volunteer : Volunteer.t) :
  sortedVolunteers rt volunteers !! i = Some volunteer ->
  let own := volunteerEvents events volunteer in
  let total := fold_left (fun sum event => add sum (contribution event))
                         own posZero in
  (forall event, event ∈ own <->
      event ∈ events /\ Event.volunteerId event = Volunteer.id volunteer) /\
  (forall event,
      Event.hours event = None \/ Event.hours event = Some [] ->
      contribution event = posZero) /\
  (forall event h,
      Event.hours event = Some h -> h <> [] ->
      contribution event = parseFloat h) /\
  volunteersData rt volunteers events !! i =
    Some [CNum (Z.of_nat i + 1);
          CStr (Volunteer.name volunteer);
          CStr (Volunteer.phone volunteer);
          CStr (Volunteer.email volunteer);
          CStr (toFixed 2 total)] /\
  (inFixedRange total = true -> isTwoDecimal (toFixed 2 total) = true) /\
  ((exists event, event ∈ own /\ contribution event = NaN) ->
   toFixed 2 total = js "NaN").
Proof.
  intros Hi. cbv zeta. repeat apply conj.
  - intros event. unfold volunteerEvents. rewrite list_elem_of_filter. tauto.
  - intros event [H|H]; unfold contribution; now rewrite H.
  - intros event h H Hh. unfold contribution. rewrite H.
    destruct h; [congruence | reflexivity].
  - rewrite <- totalHours_contributions. now apply volunteersData_lookup.
  - apply toFixed_two_decimals.
  - intros (event & Hin & Hnan).
    rewrite (sum_with_NaN contribution _ _ event); [reflexivity| |assumption].
    now apply list_elem_of_In.
Qed.


End Worksheets.

(** C7, amended. The title of a volunteer's worksheet is "Volunteer - "
    followed by the first 18 characters of the name in which every
    character that is not a letter or digit of ASCII is replaced by a
    space: the prefix is put in front first, and the whole is cut to 30
    characters. The name "O'Brien/Smith" gives
    "Volunteer - O Brien Smith". *)
Theorem sheet_title (volunteer : Volunteer.t) :
  let name := Volunteer.name volunteer in
  volunteerSheetName volunteer
    = take 30 (js "Volunteer - " ++ replaceNonAlnum name) /\
  volunteerSheetName volunteer
    = js "Volunteer - " ++ take 18 (replaceNonAlnum name) /\
  (length (volunteerSheetName volunteer) <= 30)%nat /\
  length (replaceNonAlnum name) = length name /\
  (forall i c, name !! i = Some c ->
      replaceNonAlnum name !! i = Some (if isAlnum c then c else 32%N)) /\
  volunteerSheetName (Demo.volunteer "u7" "O'Brien/Smith")
    = js "Volunteer - O Brien Smith".
Proof.
  cbv zeta. repeat apply conj.
  - reflexivity.
  - apply sheetName_prefix.
  - unfold volunteerSheetName, substring0. rewrite length_take. lia.
  - unfold replaceNonAlnum. apply length_map.
  - intros i c Hi. unfold replaceNonAlnum.
    change (map ?f ?l) with (f <$> l). now rewrite list_lookup_fmap, Hi.
  - reflexivity.
Qed.

(** *** The properties on the concrete runtime *)

(** With an invalid date among them the events are left as the engine
    arranges them. V8 puts events of the dates 2024-03-01, 2024-01-01,
    "bad" and 2024-01-01 in the order second, fourth, first, third; it
    leaves events of the dates 2024-03-01, "bad" and 2024-01-01 as they
    are, the later date in front. *)
Lemma invalid_date_order :
  Event.name <$> sortedEvents Demo.runtime
                   [Demo.event "u1" "A" "2024-03-01" None;
                    Demo.event "u1" "B" "2024-01-01" None;
                    Demo.event "u1" "X" "bad" None;
                    Demo.event "u1" "C" "2024-01-01" None]
    = [js "B"; js "C"; js "A"; js "X"] /\
  Event.name <$> sortedEvents Demo.runtime
                   [Demo.event "u1" "A" "2024-03-01" None;
                    Demo.event "u1" "X" "bad" None;
                    Demo.event "u1" "B" "2024-01-01" None]
    = [js "A"; js "X"; js "B"].
Proof. split; reflexivity. Qed.

Lemma volunteers_sheet_rows_witness :
  let run := syncToGoogleSheets Demo.spreadsheet Demo.runtime (Some Demo.config)
                                Demo.volunteers Demo.events ([], []) in
  (forall a b, 0 < Demo.compareCodeUnits a b -> Demo.compareCodeUnits b a <= 0) /\
  (forall a b c, Demo.compareCodeUnits a b <= 0 -> Demo.compareCodeUnits b c <= 0 ->
                 Demo.compareCodeUnits a c <= 0) /\
  js "sheet-1" <> [] /\
  Forall (fun e => raised (snd e) = false) (snd (snd run)) /\
  fst run = Success 3 4 /\
  head (updates (snd (snd run)))
    = Some (js "Volunteers!A1",
            [volunteersHeader;
             [CNum 1; CStr (js "Alice"); CStr (js "555-0100");
              CStr (js "v@example.org"); CStr (js "4.00")];
             [CNum 2; CStr (js "bob"); CStr (js "555-0100");
              CStr (js "v@example.org"); CStr (js "3.50")];
             [CNum 3; CStr (js "carol"); CStr (js "555-0100");
              CStr (js "v@example.org"); CStr (js "0.00")]]) /\
  Volunteer.name <$> sortedVolunteers Demo.runtime Demo.volunteers
    = [js "Alice"; js "bob"; js "carol"] /\
  hd CUndefined <$> volunteersData Demo.runtime Demo.volunteers Demo.events
    = [CNum 1; CNum 2; CNum 3].
Proof.
  cbv zeta.
  assert (Hquiet :
    Forall (fun e => raised (snd e) = false)
           (snd (snd (syncToGoogleSheets Demo.spreadsheet Demo.runtime
                        (Some Demo.config) Demo.volunteers Demo.events
                        ([], []))))).
  { vm_compute. repeat constructor. }
  split; [exact DemoFacts.compareCodeUnits_total|].
  split; [exact DemoFacts.compareCodeUnits_trans|].
  split; [discriminate|].
  split; [exact Hquiet|].
  destruct (volunteers_sheet_rows Demo.spreadsheet Demo.runtime
              DemoFacts.compareCodeUnits_total DemoFacts.compareCodeUnits_trans
              Demo.volunteers Demo.events)
    as (_ & _ & Hrun & _ & _ & _ & _ & _ & H).
  destruct (Hrun (js "sheet-1") {| client_email := Some (js "bot@example.org") |}
                 [] ltac:(discriminate) Hquiet) as [Hsuccess Hhead].
  split; [exact Hsuccess|].
  split; [exact Hhead|].
  split; [reflexivity | exact H].
Defined.

Lemma total_hours_cell_witness :
  sortedVolunteers Demo.runtime Demo.volunteers !! 1%nat
    = Some (Demo.volunteer "u1" "bob") /\
  volunteersData Demo.runtime Demo.volunteers Demo.events !! 1%nat
    = Some [CNum 2; CStr (js "bob"); CStr (js "555-0100");
            CStr (js "v@example.org"); CStr (js "3.50")].
Proof.
  split; [reflexivity|].
  destruct (total_hours_cell Demo.runtime Demo.volunteers Demo.events 1
              (Demo.volunteer "u1" "bob") eq_refl) as (_ & _ & _ & H & _).
  exact H.
Defined.

(** Hours that do not parse: the cell reads "NaN", where the total as
    documented is "0.00". *)
Lemma unparsable_hours_counterexample :
  let volunteer := Demo.volunteer "u1" "bob" in
  let event := Demo.event "u1" "Cleanup" "2024-03-02" (Some "abc"%string) in
  volunteersData Demo.runtime [volunteer] [event]
    = [[CNum 1; CStr (js "bob"); CStr (js "555-0100");
        CStr (js "v@example.org"); CStr (js "NaN")]] /\
  toFixed 2 (documentedTotalHours [event] volunteer) = js "0.00" /\
  toFixed 2 (totalHours [event] volunteer)
    <> toFixed 2 (documentedTotalHours [event] volunteer).
Proof. repeat split. discriminate. Qed.


Lemma sync_sequential_and_aborts_witness :
  let script := [Reply []; Reply []; Reply []; Raise (js "no permission")] in
  let run := syncToGoogleSheets Demo.scripted Demo.runtime (Some Demo.config)
                                Demo.volunteers Demo.events (script, []) in
  fst run = Failure (js "no permission") /\ length (snd (snd run)) = 4%nat.
Proof.
  cbv zeta. split; [|reflexivity].
  destruct (sync_sequential_and_aborts Demo.scripted Demo.runtime
              (Some Demo.config) Demo.volunteers Demo.events
              [Reply []; Reply []; Reply []; Raise (js "no permission")])
    as (_ & Hstop & _).
  eapply Hstop. reflexivity.
Defined.

(** A name of 21 characters: the title keeps 18 of them, where the title
    as documented keeps them all. *)
Lemma long_name_counterexample :
  let volunteer := Demo.volunteer "u8" "Alexander Hamilton Jr" in
  volunteerSheetName volunteer = js "Volunteer - Alexander Hamilton" /\
  documentedSheetName volunteer = js "Volunteer - Alexander Hamilton Jr" /\
  volunteerSheetName volunteer <> documentedSheetName volunteer.
Proof. repeat split. discriminate. Qed.

End SheetsFacts.

(** ** The handlers *)

Module ServerFacts.
Import Js Sheets Server JsFacts SheetsFacts.

Lemma strictEqStr_spec (v : option Json) (s : JsString) :
  strictEqStr v s = true <-> v = Some (JStr s).
Proof.
  destruct v as [[| | |s'| |]|]; simpl; try (split; [discriminate | congruence]).
  rewrite bool_decide_eq_true. split; congruence.
Qed.

Lemma findIndex_Some {A} (p : A -> bool) (l : list A) (i : nat) :
  findIndex p l = Some i ->
  exists before x after,
    l = before ++ x :: after /\ p x = true /\
    Forall (fun y => p y = false) before /\
    delete i l = before ++ after.
Proof.
  revert i. induction l as [|y l IH]; intros i; simpl; [discriminate|].
  destruct (p y) eqn:Hy.
  - intros [= <-]. exists [], y, l. repeat split; auto.
  - destruct (findIndex p l) as [j|]; [|discriminate]. intros [= <-].
    destruct (IH j eq_refl) as (before & x & after & -> & Hx & Hb & Hd).
    exists (y :: before), x, after. repeat split; auto.
    simpl. now rewrite Hd.
Qed.

Lemma findIndex_None {A} (p : A -> bool) (l : list A) :
  findIndex p l = None <-> Forall (fun y => p y = false) l.
Proof.
  induction l as [|y l IH]; simpl.
  - split; [constructor | reflexivity].
  - destruct (p y) eqn:Hy.
    + split; [discriminate|]. intros H. apply Forall_cons in H as [H _].
      congruence.
    + rewrite Forall_cons, <- IH. destruct (findIndex p l); simpl.
      * split; [discriminate | intros [_ H]; discriminate].
      * tauto.
Qed.

(** C8. When a stored volunteer has the id, DELETE removes the first
    volunteer with that id and no other, removes the events whose
    [volunteerId] is the id and keeps all the others in their order, and
    answers 200. When no stored volunteer has the id it answers 404 and
    stores both collections as they were. *)
Theorem delete_volunteer_cascade (id : JsString) (volunteers events : list Obj) :
  ((exists v, v ∈ volunteers /\ v !! js "id" = Some (JStr id)) ->
   exists before v after,
     volunteers = before ++ v :: after /\
     v !! js "id" = Some (JStr id) /\
     (forall u, u ∈ before -> u !! js "id" <> Some (JStr id)) /\
     deleteVolunteer id volunteers events =
       (before ++ after,
        filter (fun event => ¬ strictEqStr (event !! js "volunteerId") id) events,
        {| statusCode := 200; data := SuccessOnly |})) /\
  ((forall v, v ∈ volunteers -> v !! js "id" <> Some (JStr id)) ->
   deleteVolunteer id volunteers events =
     (volunteers, events,
      {| statusCode := 404; data := ErrorOnly (js "Volunteer not found") |})) /\
  (forall event,
      event ∈ filter (fun event => ¬ strictEqStr (event !! js "volunteerId") id)
                     events
      <-> event ∈ events /\ event !! js "volunteerId" <> Some (JStr id)).
Proof.
  repeat apply conj.
  - intros (v & Hin & Hid). unfold deleteVolunteer.
    destruct (findIndex _ volunteers) as [i|] eqn:Hfind.
    + apply findIndex_Some in Hfind
        as (before & x & after & -> & Hx & Hbefore & Hdelete).
      exists before, x, after. rewrite Hdelete.
      apply strictEqStr_spec in Hx. repeat split; auto.
      intros u Hu Heq. rewrite Forall_forall in Hbefore.
      apply strictEqStr_spec in Heq. specialize (Hbefore u Hu). congruence.
    + apply findIndex_None in Hfind. rewrite Forall_forall in Hfind.
      apply strictEqStr_spec in Hid. specialize (Hfind v Hin). simpl in Hfind.
      congruence.
  - intros Hnone. unfold deleteVolunteer.
    destruct (findIndex _ volunteers) as [i|] eqn:Hfind; [|reflexivity].
    apply findIndex_Some in Hfind as (before & x & after & -> & Hx & _ & _).
    apply strictEqStr_spec in Hx. destruct (Hnone x); [|assumption].
    apply elem_of_app. right. constructor.
  - intros event. rewrite list_elem_of_filter, <- strictEqStr_spec.
    destruct (strictEqStr _ id); simpl; intuition congruence.
Qed.

Lemma delete_volunteer_cascade_witness :
  let alice : Obj := {[ js "id" := JStr (js "u2") ]} in
  let bob : Obj := {[ js "id" := JStr (js "u1") ]} in
  let cleanup : Obj := {[ js "volunteerId" := JStr (js "u1") ]} in
  let bake : Obj := {[ js "volunteerId" := JStr (js "u2") ]} in
  (exists v, v ∈ [alice; bob] /\ v !! js "id" = Some (JStr (js "u1"))) /\
  exists before v after,
    [alice; bob] = before ++ v :: after /\
    deleteVolunteer (js "u1") [alice; bob] [cleanup; bake; cleanup]
      = (before ++ after, [bake], {| statusCode := 200; data := SuccessOnly |}).
Proof.
  cbv zeta.
  assert (Hex : exists v : Obj,
             v ∈ [({[ js "id" := JStr (js "u2") ]} : Obj);
                  {[ js "id" := JStr (js "u1") ]}] /\
             v !! js "id" = Some (JStr (js "u1"))).
  { eexists. split; [apply list_elem_of_In; right; left; reflexivity|].
    reflexivity. }
  split; [exact Hex|].
  destruct (delete_volunteer_cascade (js "u1")
              [{[ js "id" := JStr (js "u2") ]}; {[ js "id" := JStr (js "u1") ]}]
              [{[ js "volunteerId" := JStr (js "u1") ]};
               {[ js "volunteerId" := JStr (js "u2") ]};
               {[ js "volunteerId" := JStr (js "u1") ]}]) as (Hfound & _ & _).
  destruct (Hfound Hex) as (before & v & after & Heq & _ & _ & Hdel).
  exists before, v, after. split; [exact Heq|]. exact Hdel.
Defined.

Lemma createdAt_not_id : js "createdAt" <> js "id".
Proof. discriminate. Qed.

Lemma date_not_id : js "date" <> js "id".
Proof. discriminate. Qed.

Lemma createdAt_not_date : js "createdAt" <> js "date".
Proof. discriminate. Qed.

(** The [id] of the literal [{ id: generateId(), ...body }]: the one of
    the body when it has one. *)
Lemma spread_id (generateId : JsString) (body : Json) :
  (ownProperties body ∪ <[js "id" := JStr generateId]> (∅ : Obj)) !! js "id"
  = Some (default (JStr generateId) (ownProperties body !! js "id")).
Proof.
  destruct (ownProperties body !! js "id") as [v|] eqn:Hid; simpl.
  - now apply lookup_union_Some_l.
  - rewrite lookup_union_r by assumption. apply lookup_insert_eq.
Qed.

(** C9, amended. For a request body that is accepted, POST
    /api/volunteers and POST /api/events append one record and leave the
    stored records as they were. The record carries the [createdAt]
    timestamp of the server. Its [id] is the generated one when the body
    has no [id] property of its own; an [id] of the body takes its
    place. POST /api/events accepts every body but [null], and a request
    that is not accepted stores nothing. *)
Theorem created_record (generateId now now' : JsString) (req : RequestBody)
    (body : Json) :
  parseBody req = Some body ->
  (forall volunteers,
      let record := newVolunteer generateId now body in
      postVolunteers generateId now req volunteers
        = (volunteers ++ [record], {| statusCode := 201; data := Record_ record |}) /\
      record !! js "createdAt" = Some (JStr now) /\
      record !! js "id"
        = Some (default (JStr generateId) (ownProperties body !! js "id")) /\
      (ownProperties body !! js "id" = None ->
       record !! js "id" = Some (JStr generateId))) /\
  (forall events,
      match newEvent generateId now now' body with
      | Some record =>
          postEvents generateId now now' req events
            = (events ++ [record], {| statusCode := 201; data := Record_ record |}) /\
          record !! js "createdAt" = Some (JStr now') /\
          record !! js "id"
            = Some (default (JStr generateId) (ownProperties body !! js "id")) /\
          (ownProperties body !! js "id" = None ->
           record !! js "id" = Some (JStr generateId))
      | None =>
          body = JNull /\
          postEvents generateId now now' req events = (events, invalidBody)
      end).
Proof.
  intros Hbody. split.
  - intros volunteers. cbv zeta. unfold postVolunteers. rewrite Hbody.
    assert (Hid : newVolunteer generateId now body !! js "id"
                  = Some (default (JStr generateId)
                                  (ownProperties body !! js "id"))).
    { unfold newVolunteer.
      rewrite lookup_insert_ne by exact createdAt_not_id. apply spread_id. }
    repeat split.
    + unfold newVolunteer. apply lookup_insert_eq.
    + exact Hid.
    + intros Hnone. now rewrite Hid, Hnone.
  - intros events. unfold postEvents. rewrite Hbody. simpl.
    unfold newEvent. destruct (bodyDate body) as [date|] eqn:Hdate; simpl.
    + assert (Hid : forall v : Json,
                 <[js "createdAt" := JStr now']>
                   (<[js "date" := v]>
                      (ownProperties body ∪ <[js "id" := JStr generateId]> (∅ : Obj)))
                 !! js "id"
                 = Some (default (JStr generateId)
                                 (ownProperties body !! js "id"))).
      { intros v. rewrite lookup_insert_ne by exact createdAt_not_id.
        rewrite lookup_insert_ne by exact date_not_id. apply spread_id. }
      repeat split.
      * apply lookup_insert_eq.
      * apply Hid.
      * intros Hnone. now rewrite Hid, Hnone.
    + split; [|reflexivity]. destruct body; try discriminate. reflexivity.
Qed.

Lemma created_record_witness :
  let body := JObj {[ js "name" := JStr (js "Alice") ]} in
  parseBody (JsonText body) = Some body /\
  newVolunteer (js "7f3c") (js "2024-05-01T10:00:00.000Z") body !! js "id"
    = Some (JStr (js "7f3c")).
Proof.
  cbv zeta. split; [reflexivity|].
  destruct (created_record (js "7f3c") (js "2024-05-01T10:00:00.000Z")
              (js "2024-05-01T10:00:00.001Z")
              (JsonText (JObj {[ js "name" := JStr (js "Alice") ]}))
              (JObj {[ js "name" := JStr (js "Alice") ]}) eq_refl) as [Hv _].
  destruct (Hv []) as (_ & _ & _ & Hgen). apply Hgen. reflexivity.
Defined.

(** A body with an [id] of its own: the record stored carries that [id],
    not the generated one. *)
Lemma body_id_counterexample :
  let body := JObj {[ js "id" := JStr (js "chosen"); js "name" := JStr (js "Mallory") ]} in
  let stored :=
    fst (postVolunteers (js "7f3c") (js "2024-05-01T10:00:00.000Z")
                        (JsonText body) []) in
  (fun record : Obj => record !! js "id") <$> stored
    = [Some (JStr (js "chosen"))] /\
  JStr (js "chosen") <> JStr (js "7f3c").
Proof. cbv zeta. split; [reflexivity | discriminate]. Qed.

Section SyncRouteFacts.
Context {World : Type} (googleapis : Call -> World -> Outcome * World).
Variable rt : Runtime.

Lemma complete_false_iff (sheetsConfig : option SheetsConfig) :
  complete sheetsConfig = false <->
  sheetsConfig = None \/
  exists c, sheetsConfig = Some c /\
    (spreadsheetId c = None \/ spreadsheetId c = Some [] \/ credentials c = None).
Proof.
  destruct sheetsConfig as [[[[|ch sid]|] [creds|]]|]; simpl; split;
    try discriminate; try (intros _; right; eexists; split; [reflexivity|]; simpl; tauto);
    try (intros _; now left); try reflexivity.
  intros [H | (c & [= <-] & [H | [H | H]])]; discriminate.
Qed.

Lemma sync_incomplete (sheetsConfig : option SheetsConfig)
    (volunteers : list Volunteer.t) (events : list Event.t) (s : World * Log) :
  complete sheetsConfig = false ->
  syncToGoogleSheets googleapis rt sheetsConfig volunteers events s
    = (Failure incomplete, s).
Proof.
  intros Hc. unfold syncToGoogleSheets. now rewrite syncBody_incomplete.
Qed.

(** C5. With [sheetsConfig] absent, or without a spreadsheet id, or
    without credentials, the sync returns the failure result of the
    configuration error and leaves the world and the log of calls as they
    were: no client is built and no request is made. The route makes no
    call either. *)
Theorem incomplete_config_no_call (sheetsConfig : option SheetsConfig)
    (volunteers : list Volunteer.t) (events : list Event.t) (s : World * Log) :
  sheetsConfig = None \/
  (exists c, sheetsConfig = Some c /\
     (spreadsheetId c = None \/ spreadsheetId c = Some [] \/ credentials c = None)) ->
  syncToGoogleSheets googleapis rt sheetsConfig volunteers events s
    = (Failure (js "Google Sheets configuration is incomplete"), s) /\
  forall password,
    snd (postSyncSheets googleapis rt
           {| adminPassword := password; sheetsConfig := sheetsConfig |}
           volunteers events s) = s.
Proof.
  intros Hc. apply complete_false_iff in Hc. split.
  - now apply sync_incomplete.
  - intros password. unfold postSyncSheets. simpl.
    destruct sheetsConfig as [[[sid|] creds]|]; try reflexivity.
    destruct (truthy sid) eqn:Hsid; [|reflexivity].
    rewrite sync_incomplete by assumption. reflexivity.
Qed.

End SyncRouteFacts.

Lemma incomplete_config_no_call_witness :
  let sheetsConfig :=
    Some {| spreadsheetId := Some (js "sheet-1"); credentials := None |} in
  (sheetsConfig = None \/
   exists c, sheetsConfig = Some c /\
     (spreadsheetId c = None \/ spreadsheetId c = Some [] \/ credentials c = None)) /\
  syncToGoogleSheets Demo.spreadsheet Demo.runtime sheetsConfig
                     Demo.volunteers Demo.events ([], [])
    = (Failure (js "Google Sheets configuration is incomplete"), ([], [])).
Proof.
  cbv zeta.
  assert (H : Some {| spreadsheetId := Some (js "sheet-1"); credentials := None |}
              = None \/
              exists c, Some {| spreadsheetId := Some (js "sheet-1");
                                credentials := None |} = Some c /\
                (spreadsheetId c = None \/ spreadsheetId c = Some [] \/
                 credentials c = None)).
  { right. eexists. split; [reflexivity|]. right. right. reflexivity. }
  split; [exact H|].
  apply (incomplete_config_no_call Demo.spreadsheet Demo.runtime _ _ _ _ H).
Defined.

Lemma permission_guard (error : JsString) :
  truthy error && includes (js "permission") error
  = includes (js "permission") error.
Proof. now destruct error. Qed.

Section SyncRouteResponses.
Context {World : Type} (googleapis : Call -> World -> Outcome * World).
Variable rt : Runtime.

(** C6, amended. When the route has run the sync and the sync has
    returned a failure result, the response is 403 exactly when the error
    message contains "permission", and 500 otherwise. The 403 names the
    service account: its text contains [serviceEmail], which is the
    [client_email] of the configured credentials when they have one that
    is not empty, and the words "the service account email" otherwise.
    The 500 carries the error message as it is when the message is not
    empty, and "Unknown error during sync" otherwise. *)
Theorem sync_failure_response (config : Config) (sc : SheetsConfig)
    (sid error : JsString) (volunteers : list Volunteer.t)
    (events : list Event.t) (s : World * Log) :
  sheetsConfig config = Some sc ->
  spreadsheetId sc = Some sid ->
  sid <> [] ->
  fst (syncToGoogleSheets googleapis rt (Some sc) volunteers events s)
    = Failure error ->
  let response := fst (postSyncSheets googleapis rt config volunteers events s) in
  let permission := exists pre post, error = pre ++ js "permission" ++ post in
  (permission ->
   response = {| statusCode := 403;
                 data := SyncFailed (permissionDenied (serviceEmail sc))
                                    (serviceEmail sc) |}) /\
  (~ permission ->
   response = {| statusCode := 500;
                 data := SyncFailed
                   (if truthy error then error else js "Unknown error during sync")
                   (serviceEmail sc) |}) /\
  (statusCode response = 403 <-> permission) /\
  (~ permission -> error <> [] ->
   data response = SyncFailed error (serviceEmail sc)) /\
  (forall e, credentials sc = Some {| client_email := Some e |} -> e <> [] ->
             serviceEmail sc = e) /\
  (credentials sc = None \/ credentials sc = Some {| client_email := None |} \/
   credentials sc = Some {| client_email := Some [] |} ->
   serviceEmail sc = js "the service account email") /\
  (exists pre post,
      permissionDenied (serviceEmail sc) = pre ++ serviceEmail sc ++ post).
Proof.
  intros Hconfig Hsid Hne Hfail. cbv zeta.
  assert (Hresponse :
    fst (postSyncSheets googleapis rt config volunteers events s)
    = syncResponse sid (serviceEmail sc) volunteers events (Failure error)).
  { unfold postSyncSheets. rewrite Hconfig. destruct sc as [sid' creds].
    simpl in Hsid. subst sid'.
    destruct sid as [|c sid]; [congruence|]. cbn [truthy].
    destruct (syncToGoogleSheets googleapis rt _ volunteers events s)
      as [r s'] eqn:Hrun.
    simpl in Hfail. now subst r. }
  rewrite Hresponse. unfold syncResponse. rewrite permission_guard.
  rewrite <- includes_spec.
  assert (Hemail : forall e,
             credentials sc = Some {| client_email := Some e |} -> e <> [] ->
             serviceEmail sc = e).
  { intros e He Hnonempty. unfold serviceEmail. rewrite He.
    destruct e; [congruence | reflexivity]. }
  assert (Hnames :
    (credentials sc = None \/ credentials sc = Some {| client_email := None |} \/
     credentials sc = Some {| client_email := Some [] |} ->
     serviceEmail sc = js "the service account email") /\
    exists pre post,
      permissionDenied (serviceEmail sc) = pre ++ serviceEmail sc ++ post).
  { split; [|eexists _, _; reflexivity].
    unfold serviceEmail. now intros [-> | [-> | ->]]. }
  destruct (includes (js "permission") error) eqn:Hinc.
  - split; [reflexivity|]. split; [intros H; now destruct H|].
    split; [simpl; tauto|]. split; [intros H; now destruct H|]. now split.
  - split; [discriminate|]. split; [reflexivity|].
    split; [simpl; split; discriminate|].
    split; [|now split].
    intros _ Herr. simpl. destruct error; [congruence | reflexivity].
Qed.

(** C10. A sync that succeeds returns the length of the array of
    volunteers and the length of the array of events it was given, and
    the route answers 200 with these two lengths. Both count every
    record: also the volunteers without events, for whom no worksheet of
    their own is updated, and the events whose [volunteerId] is the id of
    no volunteer, which are among the events of no volunteer and so in no
    row. *)
Theorem sync_counts (sheetsConfig : option SheetsConfig)
    (volunteers : list Volunteer.t) (events : list Event.t)
    (s : World * Log) (a b : nat) :
  fst (syncToGoogleSheets googleapis rt sheetsConfig volunteers events s)
    = Success a b ->
  a = length volunteers /\ b = length events /\
  (forall volunteer,
      volunteerEvents events volunteer = [] ->
      individualWrites rt events volunteer = []) /\
  (forall event,
      (forall v, v ∈ volunteers -> Event.volunteerId event <> Volunteer.id v) ->
      forall v, v ∈ volunteers -> event ∉ volunteerEvents events v) /\
  forall password, exists message,
    fst (postSyncSheets googleapis rt
           {| adminPassword := password; sheetsConfig := sheetsConfig |}
           volunteers events s)
    = {| statusCode := 200;
         data := Synced message (length volunteers) (length events) |}.
Proof.
  intros Hs. destruct s as [w log].
  destruct (sync_run googleapis rt sheetsConfig volunteers events w log)
    as (tr & _ & Hres).
  rewrite Hs in Hres. destruct Hres as (Hc & -> & -> & _).
  split; [reflexivity|]. split; [reflexivity|].
  split; [intros volunteer Hnone; unfold individualWrites; now rewrite Hnone|].
  split.
  { intros event Horphan v Hv Hin. unfold volunteerEvents in Hin.
    apply list_elem_of_filter in Hin as [Hid _]. now apply (Horphan v). }
  intros password. unfold postSyncSheets. simpl.
  destruct sheetsConfig as [[[sid|] [creds|]]|]; try discriminate.
  simpl in Hc. rewrite Hc.
  destruct (syncToGoogleSheets googleapis rt _ volunteers events (w, log))
    as [r s'] eqn:Hrun.
  simpl in Hs. subst r. simpl. eexists. reflexivity.
Qed.

End SyncRouteResponses.

Lemma sync_failure_response_witness :
  let config := {| adminPassword := js "admin123";
                   sheetsConfig := Some Demo.config |} in
  let script := [Reply []; Raise (js "The caller does not have permission")] in
  fst (syncToGoogleSheets Demo.scripted Demo.runtime (Some Demo.config)
                          Demo.volunteers Demo.events (script, []))
    = Failure (js "The caller does not have permission") /\
  fst (postSyncSheets Demo.scripted Demo.runtime config
                      Demo.volunteers Demo.events (script, []))
    = {| statusCode := 403;
         data := SyncFailed (permissionDenied (js "bot@example.org"))
                            (js "bot@example.org") |}.
Proof.
  cbv zeta. split; [reflexivity|].
  destruct (sync_failure_response Demo.scripted Demo.runtime
              {| adminPassword := js "admin123"; sheetsConfig := Some Demo.config |}
              Demo.config (js "sheet-1")
              (js "The caller does not have permission")
              Demo.volunteers Demo.events
              ([Reply []; Raise (js "The caller does not have permission")], [])
              eq_refl eq_refl ltac:(discriminate) eq_refl) as (H403 & _).
  apply H403. exists (js "The caller does not have "), []. reflexivity.
Defined.

(** An error with an empty message: the 500 carries the words "Unknown
    error during sync", not the message. Credentials without a
    [client_email]: the 403 names no address. *)
Lemma empty_message_counterexample :
  let config := {| adminPassword := js "admin123";
                   sheetsConfig := Some Demo.config |} in
  let anonymous := {| spreadsheetId := Some (js "sheet-1");
                      credentials := Some {| client_email := None |} |} in
  let config' := {| adminPassword := js "admin123";
                    sheetsConfig := Some anonymous |} in
  fst (syncToGoogleSheets Demo.scripted Demo.runtime (Some Demo.config)
                          Demo.volunteers Demo.events ([Reply []; Raise []], []))
    = Failure [] /\
  fst (postSyncSheets Demo.scripted Demo.runtime config
                      Demo.volunteers Demo.events ([Reply []; Raise []], []))
    = {| statusCode := 500;
         data := SyncFailed (js "Unknown error during sync")
                            (js "bot@example.org") |} /\
  js "Unknown error during sync" <> [] /\
  fst (postSyncSheets Demo.scripted Demo.runtime config'
                      Demo.volunteers Demo.events
                      ([Reply []; Raise (js "no permission")], []))
    = {| statusCode := 403;
         data := SyncFailed (permissionDenied (js "the service account email"))
                            (js "the service account email") |}.
Proof. cbv zeta. repeat split. discriminate. Qed.

Lemma sync_counts_witness :
  fst (syncToGoogleSheets Demo.spreadsheet Demo.runtime (Some Demo.config)
                          Demo.volunteers Demo.events ([], []))
    = Success 3 4 /\
  3%nat = length Demo.volunteers /\ 4%nat = length Demo.events /\
  volunteerEvents Demo.events (Demo.volunteer "u3" "carol") = [] /\
  Forall (fun v => Volunteer.id v <> js "u9") Demo.volunteers.
Proof.
  split; [reflexivity|].
  destruct (sync_counts Demo.spreadsheet Demo.runtime (Some Demo.config)
              Demo.volunteers Demo.events ([], []) 3 4 eq_refl) as (Ha & Hb & _).
  split; [exact Ha|]. split; [exact Hb|]. split; [reflexivity|].
  repeat constructor; discriminate.
Defined.

End ServerFacts.

(** ** The routes and the requests on the store *)

Module ApiFacts.
Import Js Sheets Server Api JsFacts ServerFacts.

Ltac split_ifs :=
  cbn [isGET isPOST isDELETE];
  rewrite ?andb_false_r, ?andb_true_r;
  repeat match goal with
         | |- context [if ?b then _ else _] =>
             lazymatch b with
             | true => fail
             | false => fail
             | _ => let Hb := fresh "Hpath" in destruct b eqn:Hb
             end
         end.

Ltac read_route :=
  repeat match goal with
         | H : pathIs _ _ = true |- _ => apply bool_decide_eq_true in H
         end.

(** *** The text of a value *)

Lemma size_element (xs : list Json) (v : Json) :
  v ∈ xs -> (size v < size (JArr xs))%nat.
Proof.
  intros Hin. cbn [size]. induction Hin as [v xs|v w xs _ IH]; simpl; lia.
Qed.

Lemma size_property (o : Obj) (name : JsString) (v : Json) :
  o !! name = Some v -> (size v < size (JObj o))%nat.
Proof.
  intros Hname. cbn [size].
  rewrite (map_fold_delete_L _ _ name v o); [lia | intros; lia | exact Hname].
Qed.

(** Induction on the values inside a value. *)
Lemma Json_inside_ind (P : Json -> Prop) :
  (forall v,
      (forall xs, v = JArr xs -> Forall P xs) ->
      (forall o, v = JObj o -> map_Forall (fun _ => P) o) ->
      P v) ->
  forall v, P v.
Proof.
  intros Hstep v.
  assert (Hall : forall n v, (size v < n)%nat -> P v).
  { clear v. induction n as [|n IH]; intros v Hsize; [lia|].
    apply Hstep.
    - intros xs ->. apply Forall_forall. intros x Hx.
      apply IH. apply size_element in Hx. lia.
    - intros o -> name x Hx.
      apply IH. apply size_property in Hx. lia. }
  apply (Hall (S (size v))). lia.
Qed.

(** A text that is parsed and written again is the same text. *)
Lemma reparse_idemp (v : Json) : reparse (reparse v) = reparse v.
Proof.
  induction v as [v Harr Hobj] using Json_inside_ind.
  destruct v as [|b|x|s|xs|o]; try reflexivity.
  - destruct x; reflexivity.
  - cbn [reparse]. f_equal. rewrite <- list_fmap_compose.
    apply Forall_fmap_ext. exact (Harr xs eq_refl).
  - cbn [reparse]. f_equal. rewrite <- map_fmap_compose.
    apply map_fmap_ext. exact (Hobj o eq_refl).
Qed.

Lemma reparseObj_idemp (o : Obj) : reparseObj (reparseObj o) = reparseObj o.
Proof.
  pose proof (reparse_idemp (JObj o)) as H. cbn [reparse] in H.
  now injection H.
Qed.

Lemma reparseAll_idemp (data : list Obj) :
  reparseAll (reparseAll data) = reparseAll data.
Proof.
  unfold reparseAll. rewrite <- list_fmap_compose.
  apply list_fmap_ext. intros i o _. apply reparseObj_idemp.
Qed.

Lemma reparseAll_fixed (data : list Obj) :
  reparseAll data = data <-> Forall (fun o => reparseObj o = o) data.
Proof.
  unfold reparseAll. induction data as [|o data IH].
  - split; [constructor | reflexivity].
  - rewrite Forall_cons, <- IH, fmap_cons. split.
    + intros [= Ho Hdata]. now split.
    + intros [Ho Hdata]. now rewrite Ho, Hdata.
Qed.

(** What is read from a file is a value as its text denotes it. *)
Lemma readData_fixed (file : File (list Obj)) :
  reparseAll (readData file) = readData file.
Proof. destruct file; [apply reparseAll_idemp | reflexivity]. Qed.

Lemma readData_records_fixed (file : File (list Obj)) :
  Forall (fun o => reparseObj o = o) (readData file).
Proof. apply reparseAll_fixed, readData_fixed. Qed.

Lemma getConfig_fixed (file : File Obj) :
  reparseObj (getConfig file) = getConfig file.
Proof. destruct file; [apply reparseObj_idemp | reflexivity]. Qed.

Lemma reparse_records (data : list Obj) :
  reparse (JArr (JObj <$> data)) = JArr (JObj <$> reparseAll data).
Proof.
  cbn [reparse]. f_equal. unfold reparseAll.
  rewrite <- !list_fmap_compose. reflexivity.
Qed.

Lemma reparse_fixed_records (data : list Obj) :
  Forall (fun o => reparseObj o = o) data ->
  reparse (JArr (JObj <$> data)) = JArr (JObj <$> data).
Proof.
  intros Hfixed. rewrite reparse_records.
  now rewrite (proj2 (reparseAll_fixed data) Hfixed).
Qed.

Lemma reparse_property (name : string) (v : option Json) :
  reparse (property name v) = property name (reparse <$> v).
Proof.
  destruct v as [v|]; cbn [property reparse fmap option_fmap option_map].
  - now rewrite map_fmap_singleton.
  - now rewrite fmap_empty.
Qed.

Lemma lookup_reparseObj (o : Obj) (name : JsString) :
  reparseObj o !! name = reparse <$> o !! name.
Proof. apply lookup_fmap. Qed.

Lemma reparse_errorJson (error : string) :
  reparse (errorJson error) = errorJson error.
Proof. unfold errorJson. cbn [reparse]. now rewrite map_fmap_singleton. Qed.

Lemma reparse_fixed_record (o : Obj) :
  reparseObj o = o -> reparse (JObj o) = JObj o.
Proof. intros Ho. cbn [reparse]. fold (reparseObj o). now rewrite Ho. Qed.

Lemma readData_elem_fixed (file : File (list Obj)) (o : Obj) :
  o ∈ readData file -> reparseObj o = o.
Proof.
  intros Ho. pose proof (readData_records_fixed file) as Hall.
  rewrite Forall_forall in Hall. now apply Hall.
Qed.

(** Whether a value is a given string does not depend on its text. *)
Lemma strictEqStr_reparse (v : option Json) (s : JsString) :
  strictEqStr (reparse <$> v) s = strictEqStr v s.
Proof.
  destruct v as [[| | x | | |]|]; try reflexivity. now destruct x.
Qed.

(** *** Paths *)

Lemma stripPrefix_spec (prefix s rest : JsString) :
  stripPrefix prefix s = Some rest <-> s = prefix ++ rest.
Proof.
  revert s. induction prefix as [|a prefix IH]; intros s; simpl.
  - split; congruence.
  - destruct s as [|b s]; [split; discriminate|].
    destruct (N.eqb_spec a b) as [->|Hne].
    + rewrite IH. split; congruence.
    + split; [discriminate | congruence].
Qed.

Lemma spanSegment_spec (s segment rest : JsString) :
  spanSegment s = (segment, rest) ->
  s = segment ++ rest /\ (47%N ∉ segment) /\
  (rest = [] \/ exists rest', rest = 47%N :: rest').
Proof.
  revert segment rest. induction s as [|c s IH]; intros segment rest; simpl.
  - intros [= <- <-]. repeat split; [apply not_elem_of_nil | now left].
  - destruct (N.eqb_spec c 47) as [->|Hne].
    + intros [= <- <-]. repeat split; [apply not_elem_of_nil | right; eauto].
    + destruct (spanSegment s) as [segment' rest'].
      intros [= <- <-]. destruct (IH _ _ eq_refl) as (-> & Hnot & Hrest).
      repeat split; [|assumption].
      rewrite not_elem_of_cons. split; [congruence | assumption].
Qed.

Lemma spanSegment_app (segment rest : JsString) :
  47%N ∉ segment ->
  (rest = [] \/ exists rest', rest = 47%N :: rest') ->
  spanSegment (segment ++ rest) = (segment, rest).
Proof.
  intros Hnot Hrest. induction segment as [|c segment IH]; simpl.
  - destruct Hrest as [->|[rest' ->]]; reflexivity.
  - apply not_elem_of_cons in Hnot as [Hc Hnot].
    destruct (N.eqb_spec c 47) as [->|_]; [congruence|].
    now rewrite IH.
Qed.

Lemma splitSlash_segment (segment : JsString) :
  47%N ∉ segment -> splitSlash segment = [segment].
Proof.
  induction segment as [|c segment IH]; intros Hnot; [reflexivity|].
  apply not_elem_of_cons in Hnot as [Hc Hnot]. simpl.
  destruct (N.eqb_spec c 47) as [->|_]; [congruence|].
  now rewrite IH.
Qed.

Lemma splitSlash_app (segment rest : JsString) :
  47%N ∉ segment ->
  splitSlash (segment ++ 47%N :: rest) = segment :: splitSlash rest.
Proof.
  induction segment as [|c segment IH]; intros Hnot; [reflexivity|].
  apply not_elem_of_cons in Hnot as [Hc Hnot]. simpl.
  destruct (N.eqb_spec c 47) as [->|_]; [congruence|].
  now rewrite IH.
Qed.

(** The segments of a path under [/api/volunteers/]. *)
Lemma splitSlash_volunteer (id rest : JsString) :
  47%N ∉ id ->
  (rest = [] \/ exists rest', rest = 47%N :: rest') ->
  splitSlash (js "/api/volunteers/" ++ id ++ rest) !! 3%nat = Some id.
Proof.
  intros Hnot Hrest.
  change (js "/api/volunteers/" ++ id ++ rest)
    with ([] ++ 47%N :: js "api" ++ 47%N :: js "volunteers" ++ 47%N :: id ++ rest).
  rewrite splitSlash_app by apply not_elem_of_nil.
  rewrite (splitSlash_app (js "api"))
    by (apply (bool_decide_unpack _); vm_compute; exact I).
  rewrite (splitSlash_app (js "volunteers"))
    by (apply (bool_decide_unpack _); vm_compute; exact I).
  destruct Hrest as [->|[rest' ->]].
  - rewrite app_nil_r, splitSlash_segment by assumption. reflexivity.
  - rewrite splitSlash_app by assumption. reflexivity.
Qed.

Lemma matchesVolunteer_iff (pathname : JsString) :
  matchesVolunteer pathname = true <->
  exists id, id <> [] /\ (47%N ∉ id) /\ pathname = js "/api/volunteers/" ++ id.
Proof.
  unfold matchesVolunteer. split.
  - destruct (stripPrefix _ pathname) as [rest|] eqn:Hstrip; [|discriminate].
    apply stripPrefix_spec in Hstrip.
    destruct (spanSegment rest) as [segment after] eqn:Hspan.
    apply spanSegment_spec in Hspan as (-> & Hnot & _).
    destruct segment as [|c segment]; [discriminate|].
    destruct after; [|discriminate]. intros _.
    exists (c :: segment). rewrite app_nil_r in Hstrip. now repeat split.
  - intros (id & Hne & Hnot & ->).
    rewrite (proj2 (stripPrefix_spec _ _ id) eq_refl).
    rewrite <- (app_nil_r id) at 1.
    rewrite spanSegment_app by auto. destruct id; [congruence | reflexivity].
Qed.

Lemma matchesVolunteerEvents_iff (pathname : JsString) :
  matchesVolunteerEvents pathname = true <->
  exists id, id <> [] /\ (47%N ∉ id) /\
             pathname = js "/api/volunteers/" ++ id ++ js "/events".
Proof.
  unfold matchesVolunteerEvents. split.
  - destruct (stripPrefix _ pathname) as [rest|] eqn:Hstrip; [|discriminate].
    apply stripPrefix_spec in Hstrip.
    destruct (spanSegment rest) as [segment after] eqn:Hspan.
    apply spanSegment_spec in Hspan as (-> & Hnot & _).
    destruct segment as [|c segment]; [discriminate|].
    rewrite bool_decide_eq_true. intros ->.
    exists (c :: segment). now repeat split.
  - intros (id & Hne & Hnot & ->).
    rewrite (proj2 (stripPrefix_spec _ _ (id ++ js "/events")) eq_refl).
    rewrite spanSegment_app by (auto; right; eexists; reflexivity).
    destruct id; [congruence|]. now rewrite bool_decide_eq_true.
Qed.

(** *** Routes *)

Lemma pathIs_longer (path : string) (rest : JsString) :
  (length (js path) < length rest)%nat -> pathIs path rest = false.
Proof.
  intros Hlen. apply bool_decide_eq_false. intros ->. lia.
Qed.

Lemma route_get_volunteer (id : JsString) :
  id <> [] -> 47%N ∉ id ->
  route GET (js "/api/volunteers/" ++ id) = GetVolunteer (Some id).
Proof.
  intros Hne Hnot. unfold route.
  replace (splitSlash (js "/api/volunteers/" ++ id) !! 3%nat) with (Some id)
    by (rewrite <- (app_nil_r id) at 2; symmetry; apply splitSlash_volunteer; auto).
  rewrite (proj2 (matchesVolunteer_iff _)) by eauto.
  rewrite pathIs_longer by (rewrite length_app; simpl; lia).
  reflexivity.
Qed.

Lemma route_delete_volunteer (id : JsString) :
  id <> [] -> 47%N ∉ id ->
  route DELETE (js "/api/volunteers/" ++ id) = DeleteVolunteer (Some id).
Proof.
  intros Hne Hnot. unfold route.
  replace (splitSlash (js "/api/volunteers/" ++ id) !! 3%nat) with (Some id)
    by (rewrite <- (app_nil_r id) at 2; symmetry; apply splitSlash_volunteer; auto).
  rewrite (proj2 (matchesVolunteer_iff _)) by eauto.
  reflexivity.
Qed.

Lemma route_get_volunteer_events (id : JsString) :
  id <> [] -> 47%N ∉ id ->
  route GET (js "/api/volunteers/" ++ id ++ js "/events") = VolunteerEvents (Some id).
Proof.
  intros Hne Hnot. unfold route.
  rewrite splitSlash_volunteer by (auto; right; eexists; reflexivity).
  rewrite (proj2 (matchesVolunteerEvents_iff _)) by eauto.
  rewrite pathIs_longer by (rewrite length_app; simpl; lia).
  assert (Hno : matchesVolunteer (js "/api/volunteers/" ++ id ++ js "/events") = false).
  { apply not_true_is_false. intros (id' & _ & Hnot' & Heq)%matchesVolunteer_iff.
    apply app_inv_head in Heq. subst id'. apply Hnot'.
    apply elem_of_app. right. constructor. }
  rewrite Hno.
  assert (Hevents : pathIs "/api/events"
                      (js "/api/volunteers/" ++ id ++ js "/events") = false).
  { apply bool_decide_eq_false. discriminate. }
  rewrite Hevents. reflexivity.
Qed.

(** A branch other than the sync route and the static files always has
    its [id], and is answered. *)
Lemma handle_defined (env : Env) (method : Method) (pathname : JsString)
    (req : RequestBody) (disk : Disk) :
  route method pathname <> SyncSheets ->
  route method pathname <> StaticFile ->
  is_Some (handle env (route method pathname) req disk).
Proof.
  unfold route.
  destruct (startsWith (js "/api/") pathname); [|congruence].
  destruct (matchesVolunteer pathname) eqn:Hv.
  - apply matchesVolunteer_iff in Hv as (id & Hne & Hnot & ->).
    replace (splitSlash (js "/api/volunteers/" ++ id) !! 3%nat) with (Some id)
      by (rewrite <- (app_nil_r id) at 2; symmetry; apply splitSlash_volunteer; auto).
    destruct method; split_ifs; intros Hsync _;
      simpl; repeat case_match; eauto; congruence.
  - destruct (matchesVolunteerEvents pathname) eqn:He.
    + apply matchesVolunteerEvents_iff in He as (id & Hne & Hnot & ->).
      rewrite splitSlash_volunteer by (auto; right; eexists; reflexivity).
      destruct method; split_ifs; intros Hsync _;
        simpl; repeat case_match; eauto; congruence.
    + rewrite !andb_false_l.
      destruct method; split_ifs; intros Hsync _;
        simpl; repeat case_match; eauto; congruence.
Qed.

(** X1. The pattern of the routes on one volunteer accepts exactly the
    paths [/api/volunteers/] followed by a segment that is not empty and
    has no slash, and the [id] read from index 3 of the split path is
    that segment: GET and DELETE on such a path reach their handlers
    with it, and the [id] is never [undefined]. *)
Theorem volunteer_path_id (pathname : JsString) :
  (matchesVolunteer pathname = true <->
   exists id, id <> [] /\ (47%N ∉ id) /\ pathname = js "/api/volunteers/" ++ id) /\
  (forall id, id <> [] -> 47%N ∉ id -> pathname = js "/api/volunteers/" ++ id ->
     splitSlash pathname !! 3%nat = Some id /\
     route GET pathname = GetVolunteer (Some id) /\
     route DELETE pathname = DeleteVolunteer (Some id)) /\
  (forall method, route method pathname <> GetVolunteer None /\
                  route method pathname <> DeleteVolunteer None).
Proof.
  split; [apply matchesVolunteer_iff|]. split.
  - intros id Hne Hnot ->. split; [|split].
    + rewrite <- (app_nil_r id) at 1. apply splitSlash_volunteer; auto.
    + now apply route_get_volunteer.
    + now apply route_delete_volunteer.
  - intros method. unfold route.
    destruct (startsWith (js "/api/") pathname); [|split; discriminate].
    destruct (matchesVolunteer pathname) eqn:Hv.
    + apply matchesVolunteer_iff in Hv as (id & Hne & Hnot & ->).
      replace (splitSlash (js "/api/volunteers/" ++ id) !! 3%nat) with (Some id)
        by (rewrite <- (app_nil_r id) at 2; symmetry; apply splitSlash_volunteer; auto).
      split; destruct method; split_ifs; discriminate.
    + rewrite !andb_false_l.
      split; destruct method; split_ifs; discriminate.
Qed.

Lemma volunteer_path_id_witness :
  js "7f3c" <> [] /\ (47%N ∉ js "7f3c") /\
  route DELETE (js "/api/volunteers/7f3c") = DeleteVolunteer (Some (js "7f3c")).
Proof.
  assert (Hne : js "7f3c" <> []) by discriminate.
  assert (Hnot : 47%N ∉ js "7f3c")
    by (apply (bool_decide_unpack _); vm_compute; exact I).
  split; [exact Hne|]. split; [exact Hnot|].
  destruct (volunteer_path_id (js "/api/volunteers/7f3c")) as (_ & Hid & _).
  destruct (Hid (js "7f3c") Hne Hnot eq_refl) as (_ & _ & Hdelete).
  exact Hdelete.
Defined.

(** X2. The pattern of the route on the events of one volunteer accepts
    exactly the paths [/api/volunteers/], a segment that is not empty and
    has no slash, and [/events]; GET on such a path reaches the handler
    with that segment as [id], and on no path with an [id] that is
    [undefined]. *)
Theorem volunteer_events_path_id (pathname : JsString) :
  (matchesVolunteerEvents pathname = true <->
   exists id, id <> [] /\ (47%N ∉ id) /\
              pathname = js "/api/volunteers/" ++ id ++ js "/events") /\
  (forall id, id <> [] -> 47%N ∉ id ->
     pathname = js "/api/volunteers/" ++ id ++ js "/events" ->
     splitSlash pathname !! 3%nat = Some id /\
     route GET pathname = VolunteerEvents (Some id)) /\
  (forall method, route method pathname <> VolunteerEvents None).
Proof.
  split; [apply matchesVolunteerEvents_iff|]. split.
  - intros id Hne Hnot ->. split.
    + apply splitSlash_volunteer; auto. right. eexists. reflexivity.
    + now apply route_get_volunteer_events.
  - intros method. unfold route.
    destruct (startsWith (js "/api/") pathname); [|discriminate].
    destruct (matchesVolunteerEvents pathname) eqn:He.
    + apply matchesVolunteerEvents_iff in He as (id & Hne & Hnot & ->).
      rewrite splitSlash_volunteer by (auto; right; eexists; reflexivity).
      destruct method; split_ifs; discriminate.
    + rewrite !andb_false_l.
      destruct method; split_ifs; discriminate.
Qed.

Lemma volunteer_events_path_id_witness :
  js "7f3c" <> [] /\ (47%N ∉ js "7f3c") /\
  route GET (js "/api/volunteers/7f3c/events") = VolunteerEvents (Some (js "7f3c")).
Proof.
  assert (Hne : js "7f3c" <> []) by discriminate.
  assert (Hnot : 47%N ∉ js "7f3c")
    by (apply (bool_decide_unpack _); vm_compute; exact I).
  split; [exact Hne|]. split; [exact Hnot|].
  destruct (volunteer_events_path_id (js "/api/volunteers/7f3c/events"))
    as (_ & Hid & _).
  destruct (Hid (js "7f3c") Hne Hnot eq_refl) as (_ & Hget).
  exact Hget.
Defined.



(** *** Requests *)

(** What the method and the path of a branch are. *)
Lemma route_inv (method : Method) (pathname : JsString) :
  match route method pathname with
  | ListVolunteers => method = GET /\ pathname = js "/api/volunteers"
  | GetVolunteer _ => method = GET /\ matchesVolunteer pathname = true
  | CreateVolunteer => method = POST /\ pathname = js "/api/volunteers"
  | DeleteVolunteer _ => method = DELETE /\ matchesVolunteer pathname = true
  | ListEvents => method = GET /\ pathname = js "/api/events"
  | VolunteerEvents _ => method = GET /\ matchesVolunteerEvents pathname = true
  | CreateEvent => method = POST /\ pathname = js "/api/events"
  | GetPassword => method = GET /\ pathname = js "/api/admin/password"
  | SetPassword => method = POST /\ pathname = js "/api/admin/password"
  | GetSheetsConfig => method = GET /\ pathname = js "/api/sheets/config"
  | SetSheetsConfig => method = POST /\ pathname = js "/api/sheets/config"
  | ExportCsv => method = GET /\ pathname = js "/api/export/csv"
  | SyncSheets => method = POST /\ pathname = js "/api/sync/sheets"
  | EndpointNotFound => startsWith (js "/api/") pathname = true
  | StaticFile => startsWith (js "/api/") pathname = false
  end.
Proof.
  unfold route. destruct (startsWith (js "/api/") pathname) eqn:Hapi; [|reflexivity].
  destruct method; split_ifs; read_route; auto.
Qed.

Lemma disk_eta (disk : Disk) :
  {| volunteersFile := volunteersFile disk;
     eventsFile := eventsFile disk;
     configFile := configFile disk |} = disk.
Proof. now destruct disk. Qed.

(** X4. Only five routes write, each its own files: the file of the
    volunteers changes only with POST /api/volunteers and DELETE
    /api/volunteers/:id, the file of the events only with POST
    /api/events and that DELETE, the configuration only with POST
    /api/admin/password and POST /api/sheets/config. A request of
    another method leaves the disk as it was. *)
Theorem writes_by_route (env : Env) (method : Method) (pathname : JsString)
    (req : RequestBody) (disk disk' : Disk) (answer : Answer) :
  handle env (route method pathname) req disk = Some (disk', answer) ->
  (volunteersFile disk' <> volunteersFile disk ->
   (method = POST /\ pathname = js "/api/volunteers") \/
   (method = DELETE /\ matchesVolunteer pathname = true)) /\
  (eventsFile disk' <> eventsFile disk ->
   (method = POST /\ pathname = js "/api/events") \/
   (method = DELETE /\ matchesVolunteer pathname = true)) /\
  (configFile disk' <> configFile disk ->
   method = POST /\
   (pathname = js "/api/admin/password" \/ pathname = js "/api/sheets/config")) /\
  (method <> POST -> method <> DELETE -> disk' = disk).
Proof.
  pose proof (route_inv method pathname) as Hroute.
  destruct (route method pathname) as [|[id|]| |[id|]| |[id|]| | | | | | | | |];
    simpl; intros Hhandle;
    repeat case_match; simplify_eq; simpl;
    try match type of Hroute with _ /\ _ => destruct Hroute as [-> Hpath] end;
    repeat split; intros; try congruence; auto.
Qed.

Lemma writes_by_route_witness :
  let env := {| generateId := js "7f3c"; now := js "2024-05-01T10:00:00.000Z";
                now' := js "2024-05-01T10:00:00.001Z";
                writeOk := true; writeOk' := true;
                cutShort := false; cutShort' := false |} in
  handle env (route GET (js "/api/volunteers")) EmptyBody initialDisk
    = Some (initialDisk, {| status := 200; json := JArr [] |}) /\
  (GET <> POST -> GET <> DELETE -> initialDisk = initialDisk).
Proof.
  cbv zeta. split; [reflexivity|].
  apply (writes_by_route
           {| generateId := js "7f3c"; now := js "2024-05-01T10:00:00.000Z";
              now' := js "2024-05-01T10:00:00.001Z";
              writeOk := true; writeOk' := true;
              cutShort := false; cutShort' := false |}
           GET (js "/api/volunteers") EmptyBody initialDisk initialDisk
           {| status := 200; json := JArr [] |} eq_refl).
Defined.

Lemma Forall_filter_keep {A} (P Q : A -> Prop) `{!forall x, Decision (Q x)}
    (l : list A) :
  Forall P l -> Forall P (filter Q l).
Proof.
  rewrite !Forall_forall. intros Hall x Hx.
  apply list_elem_of_filter in Hx as [_ Hx]. now apply Hall.
Qed.

(** What is read after a write, whatever its outcome. *)
Lemma readData_writeData (ok cut : bool) (data : list Obj)
    (file : File (list Obj)) :
  readData (writeData ok cut data file)
  = if ok then reparseAll data else if cut then [] else readData file.
Proof. now destruct ok, cut. Qed.

Lemma getConfig_writeData (ok cut : bool) (config : Obj) (file : File Obj) :
  getConfig (writeData ok cut config file)
  = if ok then reparseObj config else if cut then defaultConfig else getConfig file.
Proof. now destruct ok, cut. Qed.

Lemma reparseAll_snoc (file : File (list Obj)) (record : Obj) :
  reparseAll (readData file ++ [record]) = readData file ++ [reparseObj record].
Proof.
  unfold reparseAll at 1. rewrite fmap_app.
  fold (reparseAll (readData file)). now rewrite readData_fixed.
Qed.

Lemma reparseAll_delete (file : File (list Obj)) (index : nat) :
  reparseAll (delete index (readData file)) = delete index (readData file).
Proof. apply reparseAll_fixed, Forall_delete, readData_records_fixed. Qed.

Lemma reparseAll_filter (file : File (list Obj)) (P : Obj -> Prop)
    `{!forall x, Decision (P x)} :
  reparseAll (filter P (readData file)) = filter P (readData file).
Proof. apply reparseAll_fixed, Forall_filter_keep, readData_records_fixed. Qed.

(** X5. No request alters a stored record. After a request the
    volunteers read from the disk are those read before, or those and
    one more at the end, or those with one taken out; the events are
    those read before, or those and one more at the end, or those that do
    not carry one [volunteerId], in their order. The one other outcome
    is that of a write that was cut short: the file then reads as
    empty. *)
Theorem records_never_altered (env : Env) (r : Route) (req : RequestBody)
    (disk disk' : Disk) (answer : Answer) :
  handle env r req disk = Some (disk', answer) ->
  let volunteers := readData (volunteersFile disk) in
  let volunteers' := readData (volunteersFile disk') in
  let events := readData (eventsFile disk) in
  let events' := readData (eventsFile disk') in
  (volunteers' = volunteers \/
   (exists record, volunteers' = volunteers ++ [record]) \/
   (exists index, volunteers' = delete index volunteers) \/
   (writeOk env = false /\ cutShort env = true /\ volunteers' = [])) /\
  (events' = events \/
   (exists record, events' = events ++ [record]) \/
   (exists id, events' =
      filter (fun event => ¬ strictEqStr (event !! js "volunteerId") id) events) \/
   (((writeOk env = false /\ cutShort env = true) \/
     (writeOk' env = false /\ cutShort' env = true)) /\ events' = [])).
Proof.
  destruct r as [|[id|]| |[id|]| |[id|]| | | | | | | | |];
    cbn [handle]; intros Hhandle;
    repeat case_match; simplify_eq;
    cbn [volunteersFile eventsFile configFile];
    try (split; left; reflexivity);
    rewrite ?readData_writeData, ?reparseAll_snoc, ?reparseAll_delete,
      ?reparseAll_filter;
    destruct (writeOk env), (writeOk' env), (cutShort env), (cutShort' env);
    split; eauto 8.
Qed.

Lemma records_never_altered_witness :
  let env := {| generateId := js "7f3c"; now := js "2024-05-01T10:00:00.000Z";
                now' := js "2024-05-01T10:00:00.001Z";
                writeOk := true; writeOk' := true;
                cutShort := false; cutShort' := false |} in
  let record := newVolunteer (js "7f3c") (js "2024-05-01T10:00:00.000Z") (JObj ∅) in
  handle env CreateVolunteer EmptyBody initialDisk
    = Some ({| volunteersFile := Stored [record]; eventsFile := Stored [];
               configFile := Stored defaultConfig |},
            {| status := 201; json := JObj record |}) /\
  ([record] = [] \/ (exists r, [record] = [] ++ [r]) \/
   (exists index, [record] = delete index ([] : list Obj)) \/
   (true = false /\ false = true /\ [record] = [])).
Proof.
  cbv zeta. split; [reflexivity|].
  destruct (records_never_altered
              {| generateId := js "7f3c"; now := js "2024-05-01T10:00:00.000Z";
                 now' := js "2024-05-01T10:00:00.001Z";
                 writeOk := true; writeOk' := true;
                 cutShort := false; cutShort' := false |}
              CreateVolunteer EmptyBody initialDisk _ _ eq_refl) as [Hvolunteers _].
  exact Hvolunteers.
Defined.

(** *** Fetching, creating and deleting *)

Lemma find_Some_split {A} (p : A -> bool) (l : list A) (x : A) :
  List.find p l = Some x ->
  exists before after,
    l = before ++ x :: after /\ p x = true /\
    Forall (fun y => p y = false) before.
Proof.
  induction l as [|y l IH]; simpl; [discriminate|].
  destruct (p y) eqn:Hy.
  - intros [= <-]. exists [], l. repeat split; auto.
  - intros Hfind. destruct (IH Hfind) as (before & after & -> & Hx & Hbefore).
    exists (y :: before), after. repeat split; auto.
Qed.

Lemma find_None_iff {A} (p : A -> bool) (l : list A) :
  List.find p l = None <-> Forall (fun y => p y = false) l.
Proof.
  induction l as [|y l IH]; simpl.
  - split; [constructor | reflexivity].
  - destruct (p y) eqn:Hy.
    + split; [discriminate|]. intros [H _]%Forall_cons. congruence.
    + rewrite Forall_cons, IH. tauto.
Qed.

Lemma find_app_last {A} (p : A -> bool) (l : list A) (x : A) :
  Forall (fun y => p y = false) l -> p x = true ->
  List.find p (l ++ [x]) = Some x.
Proof.
  intros Hl Hx. induction Hl as [|y l Hy Hl IH]; simpl.
  - now rewrite Hx.
  - now rewrite Hy.
Qed.

Lemma no_match_iff (id : JsString) (volunteers : list Obj) :
  Forall (fun v => strictEqStr (v !! js "id") id = false) volunteers <->
  forall v, v ∈ volunteers -> v !! js "id" <> Some (JStr id).
Proof.
  rewrite Forall_forall. split; intros H v Hv.
  - intros Heq%strictEqStr_spec. specialize (H v Hv). simpl in H. congruence.
  - apply not_true_is_false. intros Heq%strictEqStr_spec. now apply (H v).
Qed.

(** X6. GET /api/volunteers/:id answers 200 with the first stored record
    whose [id] is the string of the path, and 404 when no stored record
    has it; it writes nothing. A record that is answered is a stored one
    whose [id] is that string, so that a record stored with an [id] that
    is not a string is never fetched. *)
Theorem fetch_by_id (env : Env) (id : JsString) (req : RequestBody) (disk : Disk) :
  let volunteers := readData (volunteersFile disk) in
  ((forall v, v ∈ volunteers -> v !! js "id" <> Some (JStr id)) ->
   handle env (GetVolunteer (Some id)) req disk
   = Some (disk, {| status := 404; json := errorJson "Volunteer not found" |})) /\
  (forall before v after,
      volunteers = before ++ v :: after ->
      v !! js "id" = Some (JStr id) ->
      (forall u, u ∈ before -> u !! js "id" <> Some (JStr id)) ->
      handle env (GetVolunteer (Some id)) req disk
      = Some (disk, {| status := 200; json := JObj v |})) /\
  (forall disk' answer,
      handle env (GetVolunteer (Some id)) req disk = Some (disk', answer) ->
      disk' = disk /\
      (status answer = 404 \/
       exists v, answer = {| status := 200; json := JObj v |} /\
                 v ∈ volunteers /\ v !! js "id" = Some (JStr id))).
Proof.
  cbv zeta. cbn [handle]. unfold findVolunteer, sendJsonResponse.
  rewrite reparse_errorJson. repeat apply conj.
  - intros Hnone%no_match_iff%find_None_iff. now rewrite Hnone.
  - intros before v after Heq Hid Hbefore%no_match_iff.
    assert (Hfixed : reparseObj v = v).
    { apply (readData_elem_fixed (volunteersFile disk)).
      rewrite Heq. apply elem_of_app. right. constructor. }
    rewrite Heq.
    assert (Hfind : List.find (fun v => strictEqStr (v !! js "id") id)
                              (before ++ v :: after) = Some v).
    { clear Heq. induction Hbefore as [|u before Hu _ IH]; simpl.
      - now rewrite (proj2 (strictEqStr_spec _ _) Hid).
      - simpl in Hu. now rewrite Hu. }
    now rewrite Hfind, reparse_fixed_record.
  - intros disk' answer.
    destruct (List.find _ (readData (volunteersFile disk))) as [v|] eqn:Hfind;
      intros [= <- <-]; (split; [reflexivity|]); [right | now left].
    apply find_Some_split in Hfind as (before & after & Heq & Hid & _).
    assert (Hin : v ∈ readData (volunteersFile disk)).
    { rewrite Heq. apply elem_of_app. right. constructor. }
    exists v. split; [|split; [exact Hin | now apply strictEqStr_spec]].
    fold (reparseObj v). now rewrite (readData_elem_fixed _ _ Hin).
Qed.

Lemma fetch_by_id_witness :
  let env := {| generateId := js "7f3c"; now := js "2024-05-01T10:00:00.000Z";
                now' := js "2024-05-01T10:00:00.001Z";
                writeOk := true; writeOk' := true;
                cutShort := false; cutShort' := false |} in
  let numbered : Obj := {[ js "id" := JNum (S754_finite false 5 0) ]} in
  let disk := {| volunteersFile := Stored [numbered]; eventsFile := Stored [];
                 configFile := Stored defaultConfig |} in
  (forall v, v ∈ [numbered] -> v !! js "id" <> Some (JStr (js "5"))) /\
  handle env (route GET (js "/api/volunteers/5")) EmptyBody disk
  = Some (disk, {| status := 404; json := errorJson "Volunteer not found" |}).
Proof.
  cbv zeta.
  assert (Hnone : forall v : Obj,
             v ∈ [({[ js "id" := JNum (S754_finite false 5 0) ]} : Obj)] ->
             v !! js "id" <> Some (JStr (js "5"))).
  { intros v ->%list_elem_of_singleton. discriminate. }
  split; [exact Hnone|].
  apply (fetch_by_id
           {| generateId := js "7f3c"; now := js "2024-05-01T10:00:00.000Z";
              now' := js "2024-05-01T10:00:00.001Z";
              writeOk := true; writeOk' := true;
              cutShort := false; cutShort' := false |}
           (js "5") EmptyBody
           {| volunteersFile := Stored [{[ js "id" := JNum (S754_finite false 5 0) ]}];
              eventsFile := Stored []; configFile := Stored defaultConfig |}).
  exact Hnone.
Defined.

Lemma newVolunteer_id (generateId now : JsString) (body : Json) :
  newVolunteer generateId now body !! js "id"
  = Some (default (JStr generateId) (ownProperties body !! js "id")).
Proof.
  unfold newVolunteer. rewrite lookup_insert_ne by exact createdAt_not_id.
  apply spread_id.
Qed.

(** X7. A volunteer that is created can be fetched: when the body has no
    [id] of its own, the write succeeds, and no stored volunteer has the
    generated id already, GET /api/volunteers/ with the generated id
    answers 200 with the record that the POST answered. *)
Theorem create_then_fetch (env env' : Env) (req req' : RequestBody)
    (body : Json) (disk : Disk) :
  parseBody req = Some body ->
  ownProperties body !! js "id" = None ->
  writeOk env = true ->
  generateId env <> [] ->
  47%N ∉ generateId env ->
  (forall v, v ∈ readData (volunteersFile disk) ->
             v !! js "id" <> Some (JStr (generateId env))) ->
  exists disk' record,
    handle env (route POST (js "/api/volunteers")) req disk
    = Some (disk', {| status := 201; json := JObj record |}) /\
    handle env' (route GET (js "/api/volunteers/" ++ generateId env)) req' disk'
    = Some (disk', {| status := 200; json := JObj record |}).
Proof.
  intros Hbody Hown Hok Hne Hnot Hfresh.
  rewrite route_get_volunteer by assumption.
  change (route POST (js "/api/volunteers")) with CreateVolunteer.
  cbn [handle]. rewrite Hbody, Hok.
  eexists _, (reparseObj (newVolunteer (generateId env) (now env) body)).
  split; [reflexivity|].
  cbn [volunteersFile writeData readData]. rewrite reparseAll_snoc.
  unfold findVolunteer. rewrite find_app_last.
  - unfold sendJsonResponse.
    now rewrite reparse_fixed_record by apply reparseObj_idemp.
  - now apply no_match_iff.
  - rewrite lookup_reparseObj, strictEqStr_reparse.
    apply strictEqStr_spec. now rewrite newVolunteer_id, Hown.
Qed.

Lemma create_then_fetch_witness :
  let env := {| generateId := js "7f3c"; now := js "2024-05-01T10:00:00.000Z";
                now' := js "2024-05-01T10:00:00.001Z";
                writeOk := true; writeOk' := true;
                cutShort := false; cutShort' := false |} in
  let body := JObj {[ js "name" := JStr (js "Alice") ]} in
  parseBody (JsonText body) = Some body /\
  exists disk' record,
    handle env (route POST (js "/api/volunteers")) (JsonText body) initialDisk
    = Some (disk', {| status := 201; json := JObj record |}) /\
    handle env (route GET (js "/api/volunteers/7f3c")) EmptyBody disk'
    = Some (disk', {| status := 200; json := JObj record |}).
Proof.
  cbv zeta. split; [reflexivity|].
  apply (create_then_fetch
           {| generateId := js "7f3c"; now := js "2024-05-01T10:00:00.000Z";
              now' := js "2024-05-01T10:00:00.001Z";
              writeOk := true; writeOk' := true;
              cutShort := false; cutShort' := false |} _
           (JsonText (JObj {[ js "name" := JStr (js "Alice") ]})) EmptyBody
           (JObj {[ js "name" := JStr (js "Alice") ]}) initialDisk).
  - reflexivity.
  - reflexivity.
  - reflexivity.
  - discriminate.
  - apply (bool_decide_unpack _). vm_compute. exact I.
  - intros v Hv. inversion Hv.
Defined.

Lemma eventsOf_removed (id : JsString) (events : list Obj) :
  eventsOf id
    (filter (fun event => ¬ strictEqStr (event !! js "volunteerId") id) events)
  = [].
Proof.
  unfold eventsOf. induction events as [|e events IH]; [reflexivity|].
  rewrite filter_cons. destruct (decide _) as [Hno|_]; [|exact IH].
  rewrite filter_cons. destruct (decide _) as [Hyes|_]; [contradiction | exact IH].
Qed.

Lemma filter_nil_Forall {A} (p : A -> bool) (l : list A) :
  filter (fun x => Is_true (p x)) l = [] -> Forall (fun x => p x = false) l.
Proof.
  induction l as [|x l IH]; [constructor|].
  rewrite filter_cons. destruct (decide _) as [Hx|Hx]; [discriminate|].
  intros Hnil. constructor; [|now apply IH].
  destruct (p x); [exfalso; now apply Hx | reflexivity].
Qed.

Lemma filter_none_Forall {A} (p : A -> bool) (l : list A) :
  Forall (fun x => p x = false) l -> filter (fun x => Is_true (p x)) l = [].
Proof.
  induction 1 as [|x l Hx _ IH]; [reflexivity|].
  rewrite filter_cons. destruct (decide _) as [Hyes|_]; [|exact IH].
  rewrite Hx in Hyes. destruct Hyes.
Qed.

(** X8. After a DELETE of a volunteer that answered 200 and wrote both
    files, GET on the events of that id answers the empty array. When at
    most one stored volunteer had the id, GET on the volunteer and a
    second DELETE both answer 404; the disk stays as the DELETE left
    it. *)
Theorem delete_then_gone (env env' : Env) (id : JsString)
    (req req' : RequestBody) (disk disk' : Disk) (answer : Answer) :
  id <> [] -> 47%N ∉ id ->
  handle env (route DELETE (js "/api/volunteers/" ++ id)) req disk
    = Some (disk', answer) ->
  status answer = 200 ->
  writeOk env = true -> writeOk' env = true ->
  handle env' (route GET (js "/api/volunteers/" ++ id ++ js "/events")) req' disk'
    = Some (disk', {| status := 200; json := JArr [] |}) /\
  ((length (filter (fun v => Is_true (strictEqStr (v !! js "id") id))
                   (readData (volunteersFile disk))) <= 1)%nat ->
   handle env' (route GET (js "/api/volunteers/" ++ id)) req' disk'
     = Some (disk', {| status := 404; json := errorJson "Volunteer not found" |}) /\
   handle env' (route DELETE (js "/api/volunteers/" ++ id)) req' disk'
     = Some (disk', {| status := 404; json := errorJson "Volunteer not found" |})).
Proof.
  intros Hne Hnot Hdelete Hstatus Hok Hok'.
  rewrite route_get_volunteer_events, route_get_volunteer, route_delete_volunteer
    by assumption.
  rewrite route_delete_volunteer in Hdelete by assumption.
  cbn [handle] in Hdelete.
  destruct (findIndex _ (readData (volunteersFile disk))) as [index|] eqn:Hfind;
    injection Hdelete as <- <-; [|discriminate Hstatus].
  rewrite Hok, Hok'.
  cbn [handle volunteersFile eventsFile writeData readData].
  rewrite reparseAll_delete, reparseAll_filter.
  unfold sendJsonResponse. rewrite reparse_errorJson. split.
  - now rewrite eventsOf_removed.
  - intros Hunique.
    apply findIndex_Some in Hfind
      as (before & x & after & Hsplit & Hx & Hbefore & ->).
    assert (Hnone : Forall (fun v => strictEqStr (v !! js "id") id = false)
                           (before ++ after)).
    { apply Forall_app. split; [assumption|].
      apply filter_nil_Forall.
      rewrite Hsplit, filter_app, filter_cons in Hunique.
      rewrite (filter_none_Forall _ _ Hbefore) in Hunique.
      destruct (decide _) as [_|Hno]; [|rewrite Hx in Hno; now destruct Hno].
      simpl in Hunique.
      destruct (filter _ after); [reflexivity | simpl in Hunique; lia]. }
    unfold findVolunteer.
    rewrite (proj2 (find_None_iff _ _) Hnone).
    now rewrite (proj2 (findIndex_None _ _) Hnone).
Qed.

Lemma delete_then_gone_witness :
  let env := {| generateId := js "7f3c"; now := js "2024-05-01T10:00:00.000Z";
                now' := js "2024-05-01T10:00:00.001Z";
                writeOk := true; writeOk' := true;
                cutShort := false; cutShort' := false |} in
  let bob : Obj := {[ js "id" := JStr (js "u1") ]} in
  let cleanup : Obj := {[ js "volunteerId" := JStr (js "u1") ]} in
  let disk := {| volunteersFile := Stored [bob]; eventsFile := Stored [cleanup];
                 configFile := Stored defaultConfig |} in
  let disk' := {| volunteersFile := Stored []; eventsFile := Stored [];
                  configFile := Stored defaultConfig |} in
  handle env (route DELETE (js "/api/volunteers/u1")) EmptyBody disk
    = Some (disk', {| status := 200; json := successJson |}) /\
  handle env (route GET (js "/api/volunteers/u1/events")) EmptyBody disk'
    = Some (disk', {| status := 200; json := JArr [] |}).
Proof.
  cbv zeta. split; [reflexivity|].
  refine (proj1 (delete_then_gone
                   {| generateId := js "7f3c"; now := js "2024-05-01T10:00:00.000Z";
                      now' := js "2024-05-01T10:00:00.001Z";
                      writeOk := true; writeOk' := true;
                      cutShort := false; cutShort' := false |} _
                   (js "u1") EmptyBody EmptyBody
                   {| volunteersFile := Stored [{[ js "id" := JStr (js "u1") ]}];
                      eventsFile := Stored [{[ js "volunteerId" := JStr (js "u1") ]}];
                      configFile := Stored defaultConfig |}
                   _ {| status := 200; json := successJson |} _ _ _ _ _ _)).
  - discriminate.
  - apply (bool_decide_unpack _). vm_compute. exact I.
  - reflexivity.
  - reflexivity.
  - reflexivity.
  - reflexivity.
Defined.

(** *** The configuration *)

(** X9. POST /api/admin/password with a truthy [password] of any JSON
    type stores it, and GET /api/admin/password then answers the value
    that the text of it denotes: the [password] itself when
    [JSON.stringify] writes it as it is, and [null] for a Number that is
    not finite, which is truthy and so accepted. The [sheetsConfig] and
    the two collections stay as they were. A [password] that is missing
    or falsy is refused with 400 and nothing is written. *)
Theorem password_round_trip (env env' : Env) (req req' : RequestBody)
    (body : Json) (disk : Disk) :
  parseBody req = Some body ->
  (forall v,
      bodyProperty "password" body = Some (Some v) ->
      truthyJson (Some v) = true ->
      writeOk env = true ->
      exists disk',
        handle env (route POST (js "/api/admin/password")) req disk
        = Some (disk', {| status := 200; json := successJson |}) /\
        handle env' (route GET (js "/api/admin/password")) req' disk'
        = Some (disk', {| status := 200;
                          json := property "password" (Some (reparse v)) |}) /\
        (reparse v = v ->
         handle env' (route GET (js "/api/admin/password")) req' disk'
         = Some (disk', {| status := 200; json := property "password" (Some v) |})) /\
        (forall sign, v = JNum (S754_infinity sign) ->
         handle env' (route GET (js "/api/admin/password")) req' disk'
         = Some (disk', {| status := 200; json := property "password" (Some JNull) |})) /\
        getConfig (configFile disk') !! js "sheetsConfig"
        = getConfig (configFile disk) !! js "sheetsConfig" /\
        volunteersFile disk' = volunteersFile disk /\
        eventsFile disk' = eventsFile disk) /\
  (forall p,
      bodyProperty "password" body = Some p ->
      truthyJson p = false ->
      handle env (route POST (js "/api/admin/password")) req disk
      = Some (disk, {| status := 400; json := errorJson "Password is required" |})).
Proof.
  intros Hbody.
  change (route POST (js "/api/admin/password")) with SetPassword.
  change (route GET (js "/api/admin/password")) with GetPassword.
  unfold handle. rewrite Hbody.
  change (Some body ≫= bodyProperty "password") with (bodyProperty "password" body).
  split.
  - intros v -> Htruthy ->. rewrite Htruthy.
    eexists. split; [reflexivity|].
    cbn [configFile volunteersFile eventsFile writeData getConfig default
           from_option id].
    assert (Hget :
      sendJsonResponse 200
        (property "password"
           (reparseObj (<[js "adminPassword" := v]> (getConfig (configFile disk)))
              !! js "adminPassword"))
      = {| status := 200; json := property "password" (Some (reparse v)) |}).
    { unfold sendJsonResponse.
      rewrite reparse_property, lookup_reparseObj, lookup_insert_eq.
      cbn [fmap option_fmap option_map]. now rewrite reparse_idemp. }
    rewrite Hget. split; [reflexivity|].
    split; [now intros ->|].
    split; [now intros sign ->|].
    split; [|auto].
    rewrite lookup_reparseObj, lookup_insert_ne by discriminate.
    now rewrite <- lookup_reparseObj, getConfig_fixed.
  - intros p -> ->. reflexivity.
Qed.

(** The password [1e999] is read as [Infinity], accepted, and written as
    [null]: the password then reads [null]. *)
Lemma password_round_trip_witness :
  let env := {| generateId := js "7f3c"; now := js "2024-05-01T10:00:00.000Z";
                now' := js "2024-05-01T10:00:00.001Z";
                writeOk := true; writeOk' := true;
                cutShort := false; cutShort' := false |} in
  let body := JObj {[ js "password" := JNum (S754_infinity false) ]} in
  parseBody (JsonText body) = Some body /\
  exists disk',
    handle env (route POST (js "/api/admin/password")) (JsonText body) initialDisk
    = Some (disk', {| status := 200; json := successJson |}) /\
    handle env (route GET (js "/api/admin/password")) EmptyBody disk'
    = Some (disk', {| status := 200; json := property "password" (Some JNull) |}).
Proof.
  cbv zeta. split; [reflexivity|].
  destruct (password_round_trip
              {| generateId := js "7f3c"; now := js "2024-05-01T10:00:00.000Z";
                 now' := js "2024-05-01T10:00:00.001Z";
                 writeOk := true; writeOk' := true;
                 cutShort := false; cutShort' := false |}
              {| generateId := js "7f3c"; now := js "2024-05-01T10:00:00.000Z";
                 now' := js "2024-05-01T10:00:00.001Z";
                 writeOk := true; writeOk' := true;
                 cutShort := false; cutShort' := false |}
              (JsonText (JObj {[ js "password" := JNum (S754_infinity false) ]}))
              EmptyBody
              (JObj {[ js "password" := JNum (S754_infinity false) ]}) initialDisk
              eq_refl)
    as [Hset _].
  destruct (Hset (JNum (S754_infinity false)))
    as (disk' & Hpost & _ & _ & Hnull & _);
    [reflexivity | reflexivity | reflexivity |].
  exists disk'. split; [exact Hpost | exact (Hnull false eq_refl)].
Defined.

(** X10. POST /api/sheets/config with a truthy [sheetsConfig] of any
    JSON type stores it, and GET /api/sheets/config then answers the
    value that the text of it denotes: the [sheetsConfig] itself when
    [JSON.stringify] writes it as it is, and [null] for a Number that is
    not finite, which is truthy and so accepted. So the route, which
    refuses [null], clears the configuration when it is given such a
    Number. The password and the two collections stay as they were. A
    [sheetsConfig] that is missing or falsy is refused with 400 and
    nothing is written. *)
Theorem sheets_config_round_trip (env env' : Env) (req req' : RequestBody)
    (body : Json) (disk : Disk) :
  parseBody req = Some body ->
  (forall v,
      bodyProperty "sheetsConfig" body = Some (Some v) ->
      truthyJson (Some v) = true ->
      writeOk env = true ->
      exists disk',
        handle env (route POST (js "/api/sheets/config")) req disk
        = Some (disk', {| status := 200; json := successJson |}) /\
        handle env' (route GET (js "/api/sheets/config")) req' disk'
        = Some (disk', {| status := 200;
                          json := property "sheetsConfig" (Some (reparse v)) |}) /\
        (reparse v = v ->
         handle env' (route GET (js "/api/sheets/config")) req' disk'
         = Some (disk', {| status := 200; json := property "sheetsConfig" (Some v) |})) /\
        (forall sign, v = JNum (S754_infinity sign) ->
         handle env' (route GET (js "/api/sheets/config")) req' disk'
         = Some (disk', {| status := 200; json := property "sheetsConfig" (Some JNull) |})) /\
        getConfig (configFile disk') !! js "adminPassword"
        = getConfig (configFile disk) !! js "adminPassword" /\
        volunteersFile disk' = volunteersFile disk /\
        eventsFile disk' = eventsFile disk) /\
  (forall p,
      bodyProperty "sheetsConfig" body = Some p ->
      truthyJson p = false ->
      handle env (route POST (js "/api/sheets/config")) req disk
      = Some (disk, {| status := 400; json := errorJson "Sheets config is required" |})).
Proof.
  intros Hbody.
  change (route POST (js "/api/sheets/config")) with SetSheetsConfig.
  change (route GET (js "/api/sheets/config")) with GetSheetsConfig.
  unfold handle. rewrite Hbody.
  change (Some body ≫= bodyProperty "sheetsConfig") with (bodyProperty "sheetsConfig" body).
  split.
  - intros v -> Htruthy ->. rewrite Htruthy.
    eexists. split; [reflexivity|].
    cbn [configFile volunteersFile eventsFile writeData getConfig default
           from_option id].
    assert (Hget :
      sendJsonResponse 200
        (property "sheetsConfig"
           (reparseObj (<[js "sheetsConfig" := v]> (getConfig (configFile disk)))
              !! js "sheetsConfig"))
      = {| status := 200; json := property "sheetsConfig" (Some (reparse v)) |}).
    { unfold sendJsonResponse.
      rewrite reparse_property, lookup_reparseObj, lookup_insert_eq.
      cbn [fmap option_fmap option_map]. now rewrite reparse_idemp. }
    rewrite Hget. split; [reflexivity|].
    split; [now intros ->|].
    split; [now intros sign ->|].
    split; [|auto].
    rewrite lookup_reparseObj, lookup_insert_ne by discriminate.
    now rewrite <- lookup_reparseObj, getConfig_fixed.
  - intros p -> ->. reflexivity.
Qed.

(** The configuration [1e999] is read as [Infinity], accepted, and
    written as [null]: the configuration is cleared. *)
Lemma sheets_config_round_trip_witness :
  let env := {| generateId := js "7f3c"; now := js "2024-05-01T10:00:00.000Z";
                now' := js "2024-05-01T10:00:00.001Z";
                writeOk := true; writeOk' := true;
                cutShort := false; cutShort' := false |} in
  let body := JObj {[ js "sheetsConfig" := JNum (S754_infinity false) ]} in
  parseBody (JsonText body) = Some body /\
  exists disk',
    handle env (route POST (js "/api/sheets/config")) (JsonText body) initialDisk
    = Some (disk', {| status := 200; json := successJson |}) /\
    handle env (route GET (js "/api/sheets/config")) EmptyBody disk'
    = Some (disk', {| status := 200; json := property "sheetsConfig" (Some JNull) |}).
Proof.
  cbv zeta. split; [reflexivity|].
  destruct (sheets_config_round_trip
              {| generateId := js "7f3c"; now := js "2024-05-01T10:00:00.000Z";
                 now' := js "2024-05-01T10:00:00.001Z";
                 writeOk := true; writeOk' := true;
                 cutShort := false; cutShort' := false |}
              {| generateId := js "7f3c"; now := js "2024-05-01T10:00:00.000Z";
                 now' := js "2024-05-01T10:00:00.001Z";
                 writeOk := true; writeOk' := true;
                 cutShort := false; cutShort' := false |}
              (JsonText (JObj {[ js "sheetsConfig" := JNum (S754_infinity false) ]}))
              EmptyBody
              (JObj {[ js "sheetsConfig" := JNum (S754_infinity false) ]}) initialDisk
              eq_refl)
    as [Hset _].
  destruct (Hset (JNum (S754_infinity false)))
    as (disk' & Hpost & _ & _ & Hnull & _);
    [reflexivity | reflexivity | reflexivity |].
  exists disk'. split; [exact Hpost | exact (Hnull false eq_refl)].
Defined.

(** *** Files that cannot be read or written *)

(** X11. A file that cannot be read or parsed is served as the empty
    array, or as the default configuration: every route answers on a
    disk exactly as on the disk with those contents stored, and the two
    resulting disks read the same. *)
Theorem unreadable_as_empty (env : Env) (r : Route) (req : RequestBody)
    (disk disk' : Disk) (answer : Answer) :
  handle env r req disk = Some (disk', answer) ->
  exists disk'',
    handle env r req (asRead disk) = Some (disk'', answer) /\
    asRead disk'' = asRead disk'.
Proof.
  intros Hhandle.
  destruct r as [|[id|]| |[id|]| |[id|]| | | | | | | | |];
    cbn [handle] in Hhandle |- *; try discriminate;
    cbn [asRead volunteersFile eventsFile configFile readData getConfig];
    rewrite ?readData_fixed, ?getConfig_fixed;
    repeat case_match; simplify_eq;
    (eexists; split; [reflexivity|]);
    unfold asRead; cbn [volunteersFile eventsFile configFile];
    rewrite ?readData_writeData, ?getConfig_writeData;
    cbn [readData getConfig]; rewrite ?readData_fixed, ?getConfig_fixed;
    reflexivity.
Qed.

Lemma unreadable_as_empty_witness :
  let env := {| generateId := js "7f3c"; now := js "2024-05-01T10:00:00.000Z";
                now' := js "2024-05-01T10:00:00.001Z";
                writeOk := true; writeOk' := true;
                cutShort := false; cutShort' := false |} in
  let broken := {| volunteersFile := Unreadable; eventsFile := Unreadable;
                   configFile := Unreadable |} in
  handle env (route GET (js "/api/volunteers")) EmptyBody broken
    = Some (broken, {| status := 200; json := JArr [] |}) /\
  exists disk'',
    handle env (route GET (js "/api/volunteers")) EmptyBody (asRead broken)
    = Some (disk'', {| status := 200; json := JArr [] |}) /\
    asRead disk'' = asRead broken.
Proof.
  cbv zeta. split; [reflexivity|].
  apply (unreadable_as_empty _ ListVolunteers EmptyBody
           {| volunteersFile := Unreadable; eventsFile := Unreadable;
              configFile := Unreadable |}).
  reflexivity.
Defined.

(** X12. A write that fails is not reported: the answer of a route does
    not depend on the outcome of its writes. A write that fails at the
    open leaves its file as it was. A write that fails after the open
    leaves its file cut short: the file cannot be parsed and is read as
    the empty array, or as the default configuration, from then on, so
    that what the file held is lost although the request is answered
    with 200 or 201. *)
Theorem write_failure_unreported (env env' : Env) (r : Route)
    (req : RequestBody) (disk : Disk) :
  generateId env = generateId env' ->
  now env = now env' ->
  now' env = now' env' ->
  snd <$> handle env r req disk = snd <$> handle env' r req disk /\
  forall disk' answer,
    handle env r req disk = Some (disk', answer) ->
    (writeOk env = false -> writeOk' env = false ->
     cutShort env = false -> cutShort' env = false ->
     disk' = disk) /\
    (writeOk env = false -> cutShort env = true ->
     status answer = 200 \/ status answer = 201 ->
     (r = CreateVolunteer \/ (exists id, r = DeleteVolunteer (Some id)) ->
      volunteersFile disk' = Unreadable /\
      readData (volunteersFile disk') = []) /\
     (r = CreateEvent ->
      eventsFile disk' = Unreadable /\ readData (eventsFile disk') = []) /\
     (r = SetPassword \/ r = SetSheetsConfig ->
      configFile disk' = Unreadable /\
      getConfig (configFile disk') = defaultConfig)).
Proof.
  destruct env as [g n n' w w' c c'], env' as [g0 n0 n0' w0 w0' c0 c0'].
  cbn [generateId now now' writeOk writeOk' cutShort cutShort'].
  intros <- <- <-. split.
  - destruct r as [|[id|]| |[id|]| |[id|]| | | | | | | | |];
      cbn [handle generateId now now' writeOk writeOk' cutShort cutShort'];
      repeat case_match; reflexivity.
  - intros disk' answer Hhandle. split.
    + intros -> -> -> ->. revert Hhandle.
      destruct r as [|[id|]| |[id|]| |[id|]| | | | | | | | |];
        cbn [handle generateId now now' writeOk writeOk' cutShort cutShort'
             writeData];
        repeat case_match; intros; simplify_eq;
        first [reflexivity | apply disk_eta | symmetry; apply disk_eta].
    + intros -> -> Hstatus. revert Hhandle Hstatus.
      destruct r as [|[id|]| |[id|]| |[id|]| | | | | | | | |];
        cbn [handle generateId now now' writeOk writeOk' cutShort cutShort'
             writeData];
        repeat case_match; intros; simplify_eq;
        cbn [status sendJsonResponse invalidRequestBody] in *;
        (split; [|split]);
        intros Hroute;
        repeat match goal with
               | H : _ \/ _ |- _ => destruct H
               | H : exists _, _ |- _ => destruct H
               end;
        try discriminate; try lia; now split.
Qed.

Lemma write_failure_unreported_witness :
  let env := {| generateId := js "7f3c"; now := js "2024-05-01T10:00:00.000Z";
                now' := js "2024-05-01T10:00:00.001Z";
                writeOk := false; writeOk' := false;
                cutShort := true; cutShort' := false |} in
  let env' := {| generateId := js "7f3c"; now := js "2024-05-01T10:00:00.000Z";
                 now' := js "2024-05-01T10:00:00.001Z";
                 writeOk := true; writeOk' := true;
                 cutShort := false; cutShort' := false |} in
  let req := JsonText (JObj {[ js "name" := JStr (js "Ann") ]}) in
  let bob : Obj := {[ js "id" := JStr (js "u1") ]} in
  let disk := {| volunteersFile := Stored [bob]; eventsFile := Stored [];
                 configFile := Stored defaultConfig |} in
  snd <$> handle env (route POST (js "/api/volunteers")) req disk
  = snd <$> handle env' (route POST (js "/api/volunteers")) req disk /\
  exists disk' answer,
    handle env (route POST (js "/api/volunteers")) req disk = Some (disk', answer) /\
    status answer = 201 /\
    readData (volunteersFile disk) = [bob] /\
    readData (volunteersFile disk') = [].
Proof.
  cbv zeta.
  destruct (write_failure_unreported
              {| generateId := js "7f3c"; now := js "2024-05-01T10:00:00.000Z";
                 now' := js "2024-05-01T10:00:00.001Z";
                 writeOk := false; writeOk' := false;
                 cutShort := true; cutShort' := false |}
              {| generateId := js "7f3c"; now := js "2024-05-01T10:00:00.000Z";
                 now' := js "2024-05-01T10:00:00.001Z";
                 writeOk := true; writeOk' := true;
                 cutShort := false; cutShort' := false |}
              CreateVolunteer
              (JsonText (JObj {[ js "name" := JStr (js "Ann") ]}))
              {| volunteersFile := Stored [{[ js "id" := JStr (js "u1") ]}];
                 eventsFile := Stored []; configFile := Stored defaultConfig |}
              eq_refl eq_refl eq_refl) as [Hanswer Hdisk].
  split; [exact Hanswer|].
  eexists _, _. split; [reflexivity|]. split; [reflexivity|].
  split; [reflexivity|].
  refine (proj2 (proj1 (proj2 (Hdisk _ _ eq_refl) eq_refl eq_refl _) _)).
  - right. reflexivity.
  - left. reflexivity.
Defined.

(** *** What every reachable disk satisfies *)

Lemma newVolunteer_stamped (generateId now : JsString) (body : Json) :
  stamped (newVolunteer generateId now body).
Proof.
  split.
  - rewrite newVolunteer_id. eauto.
  - exists now. apply lookup_insert_eq.
Qed.

Lemma newEvent_stamped (generateId now now' : JsString) (body : Json)
    (event : Obj) :
  newEvent generateId now now' body = Some event ->
  stamped event /\ is_Some (event !! js "date").
Proof.
  unfold newEvent. destruct (bodyDate body) as [date|]; [|discriminate].
  simpl. intros [= <-]. repeat split.
  - rewrite lookup_insert_ne by exact createdAt_not_id.
    rewrite lookup_insert_ne by exact date_not_id.
    rewrite spread_id. eauto.
  - exists now'. apply lookup_insert_eq.
  - rewrite lookup_insert_ne by exact createdAt_not_date.
    rewrite lookup_insert_eq. eauto.
Qed.

Lemma stamped_reparse (record : Obj) :
  stamped record -> stamped (reparseObj record).
Proof.
  intros [Hid (createdAt & HcreatedAt)]. split.
  - rewrite lookup_reparseObj. now apply fmap_is_Some.
  - exists createdAt. now rewrite lookup_reparseObj, HcreatedAt.
Qed.

Lemma property_reparse (record : Obj) (name : JsString) :
  is_Some (record !! name) -> is_Some (reparseObj record !! name).
Proof. intros Hname. rewrite lookup_reparseObj. now apply fmap_is_Some. Qed.

Lemma defaultConfig_properties :
  is_Some (defaultConfig !! js "adminPassword") /\
  is_Some (defaultConfig !! js "sheetsConfig").
Proof. split; vm_compute; eauto. Qed.

Lemma wellFormed_step (env : Env) (r : Route) (req : RequestBody)
    (disk disk' : Disk) (answer : Answer) :
  wellFormed disk ->
  handle env r req disk = Some (disk', answer) ->
  wellFormed disk'.
Proof.
  intros Hsame. pose proof Hsame as (Hvs & Hes & Hdates & Hpassword & Hsheets).
  destruct r as [|[id|]| |[id|]| |[id|]| | | | | | | | |];
    cbn [handle]; try discriminate; try (intros [= <- <-]; exact Hsame).
  - (* GET /api/volunteers/:id *)
    destruct (findVolunteer _ _); intros [= <- <-]; exact Hsame.
  - (* POST /api/volunteers *)
    destruct (parseBody req) as [body|]; intros [= <- <-]; [|exact Hsame].
    unfold wellFormed. cbn [volunteersFile eventsFile configFile].
    rewrite readData_writeData, reparseAll_snoc.
    split; [|auto].
    destruct (writeOk env); [|destruct (cutShort env); [constructor | assumption]].
    apply Forall_app. split; [assumption|].
    constructor; [apply stamped_reparse, newVolunteer_stamped | constructor].
  - (* DELETE /api/volunteers/:id *)
    destruct (findIndex _ _) as [index|]; intros [= <- <-]; [|exact Hsame].
    unfold wellFormed. cbn [volunteersFile eventsFile configFile].
    rewrite !readData_writeData, reparseAll_delete, reparseAll_filter.
    split; [destruct (writeOk env);
            [now apply Forall_delete
            |destruct (cutShort env); [constructor | assumption]]|].
    split; [destruct (writeOk' env);
            [now apply Forall_filter_keep
            |destruct (cutShort' env); [constructor | assumption]]|].
    split; [destruct (writeOk' env);
            [now apply Forall_filter_keep
            |destruct (cutShort' env); [constructor | assumption]]|].
    auto.
  - (* POST /api/events *)
    destruct (parseBody req ≫= _) as [event|] eqn:Hevent;
      intros [= <- <-]; [|exact Hsame].
    destruct (parseBody req) as [body|]; [|discriminate].
    apply newEvent_stamped in Hevent as [Hstamped Hdate].
    unfold wellFormed. cbn [volunteersFile eventsFile configFile].
    rewrite readData_writeData, reparseAll_snoc.
    split; [assumption|].
    destruct (writeOk env);
      [|destruct (cutShort env); [repeat split; auto; constructor | auto]].
    split; [apply Forall_app; split; [assumption|];
            constructor; [now apply stamped_reparse | constructor]|].
    split; [apply Forall_app; split; [assumption|];
            constructor; [now apply property_reparse | constructor]|].
    auto.
  - (* POST /api/admin/password *)
    destruct (parseBody req ≫= _) as [password|];
      [|intros [= <- <-]; exact Hsame].
    destruct (truthyJson password) eqn:Htruthy;
      intros [= <- <-]; [|exact Hsame].
    unfold wellFormed. cbn [volunteersFile eventsFile configFile].
    rewrite getConfig_writeData.
    do 3 (split; [assumption|]).
    destruct (writeOk env);
      [|destruct (cutShort env); [exact defaultConfig_properties | auto]].
    split; apply property_reparse.
    + rewrite lookup_insert_eq. eauto.
    + now rewrite lookup_insert_ne by discriminate.
  - (* POST /api/sheets/config *)
    destruct (parseBody req ≫= _) as [sheetsConfig|];
      [|intros [= <- <-]; exact Hsame].
    destruct (truthyJson sheetsConfig);
      intros [= <- <-]; [|exact Hsame].
    unfold wellFormed. cbn [volunteersFile eventsFile configFile].
    rewrite getConfig_writeData.
    do 3 (split; [assumption|]).
    destruct (writeOk env);
      [|destruct (cutShort env); [exact defaultConfig_properties | auto]].
    split; apply property_reparse.
    + now rewrite lookup_insert_ne by discriminate.
    + rewrite lookup_insert_eq. eauto.
Qed.

(** X13. Whatever requests the server has handled since it created its
    data files, with writes that succeed, fail or are cut short: every
    volunteer and every event that is read from the disk has an [id] and
    a [createdAt] string; every event that is read has a [date]; the
    configuration that is read has an [adminPassword] and a
    [sheetsConfig] property. *)
Theorem reachable_invariant (disk : Disk) :
  Reachable disk -> wellFormed disk.
Proof.
  induction 1 as [|env method pathname req disk disk' answer _ IH Hhandle].
  - unfold wellFormed. cbn [initialDisk volunteersFile eventsFile configFile
                            readData getConfig reparseAll fmap list_fmap].
    do 3 (split; [constructor|]).
    exact defaultConfig_properties.
  - exact (wellFormed_step _ _ _ _ _ _ IH Hhandle).
Qed.

Lemma reachable_invariant_witness :
  let env := {| generateId := js "7f3c"; now := js "2024-05-01T10:00:00.000Z";
                now' := js "2024-05-01T10:00:00.001Z";
                writeOk := true; writeOk' := true;
                cutShort := false; cutShort' := false |} in
  let body := JObj {[ js "volunteerId" := JStr (js "u1") ]} in
  exists disk answer,
    handle env (route POST (js "/api/events")) (JsonText body) initialDisk
    = Some (disk, answer) /\
    wellFormed disk.
Proof.
  cbv zeta. eexists _, _. split; [reflexivity|].
  apply reachable_invariant.
  eapply (reach_request
            {| generateId := js "7f3c"; now := js "2024-05-01T10:00:00.000Z";
               now' := js "2024-05-01T10:00:00.001Z";
               writeOk := true; writeOk' := true;
               cutShort := false; cutShort' := false |}
            POST (js "/api/events")
            (JsonText (JObj {[ js "volunteerId" := JStr (js "u1") ]}))
            initialDisk).
  - exact reach_initial.
  - reflexivity.
Defined.

(** *** Events and request bodies *)

(** X14. An event that is created is listed: for a body that is an
    object whose [volunteerId] is a string, when the write succeeds, GET
    /api/events answers the stored events and the new one at the end,
    and GET /api/volunteers/:id/events for that string answers the
    events of that id and the new one at the end. No volunteer needs to
    have the id, and the file of the volunteers is not touched. *)
Theorem create_event_then_list (env env' : Env) (req req' : RequestBody)
    (body : Obj) (id : JsString) (disk : Disk) :
  parseBody req = Some (JObj body) ->
  body !! js "volunteerId" = Some (JStr id) ->
  writeOk env = true ->
  id <> [] -> 47%N ∉ id ->
  let events := readData (eventsFile disk) in
  exists event disk',
    handle env (route POST (js "/api/events")) req disk
    = Some (disk', {| status := 201; json := JObj event |}) /\
    event !! js "volunteerId" = Some (JStr id) /\
    volunteersFile disk' = volunteersFile disk /\
    handle env' (route GET (js "/api/events")) req' disk'
    = Some (disk', {| status := 200; json := JArr (JObj <$> events ++ [event]) |}) /\
    handle env' (route GET (js "/api/volunteers/" ++ id ++ js "/events")) req' disk'
    = Some (disk', {| status := 200;
                      json := JArr (JObj <$> eventsOf id events ++ [event]) |}).
Proof.
  intros Hbody Hid Hok Hne Hslash. cbv zeta.
  rewrite route_get_volunteer_events by assumption.
  change (route POST (js "/api/events")) with CreateEvent.
  change (route GET (js "/api/events")) with ListEvents.
  cbn [handle]. rewrite Hbody, Hok.
  change (Some (JObj body) ≫= newEvent (generateId env) (now env) (now' env))
    with (newEvent (generateId env) (now env) (now' env) (JObj body)).
  unfold newEvent. cbn [bodyDate mbind option_bind ownProperties].
  set (event :=
    <[js "createdAt" := JStr (now' env)]>
      (<[js "date" := if truthyJson (body !! js "date")
                      then default JNull (body !! js "date")
                      else JStr (now env)]>
         (body ∪ <[js "id" := JStr (generateId env)]> (∅ : Obj)))).
  assert (Hevent : event !! js "volunteerId" = Some (JStr id)).
  { unfold event. rewrite !lookup_insert_ne by discriminate.
    now apply lookup_union_Some_l. }
  assert (Hrecords :
    Forall (fun o => reparseObj o = o)
           (readData (eventsFile disk) ++ [reparseObj event])).
  { apply Forall_app. split; [apply readData_records_fixed|].
    constructor; [apply reparseObj_idemp | constructor]. }
  eexists (reparseObj event), _. split; [reflexivity|].
  cbn [eventsFile volunteersFile writeData readData].
  rewrite reparseAll_snoc. unfold sendJsonResponse.
  split; [now rewrite lookup_reparseObj, Hevent|].
  split; [reflexivity|].
  split; [now rewrite reparse_fixed_records|].
  rewrite reparse_fixed_records by now apply Forall_filter_keep.
  unfold eventsOf. rewrite filter_app, filter_cons.
  destruct (decide _) as [_|Hno]; [reflexivity|].
  exfalso. apply Hno. rewrite lookup_reparseObj, Hevent.
  apply Is_true_true, strictEqStr_spec. reflexivity.
Qed.

Lemma create_event_then_list_witness :
  let env := {| generateId := js "9a1b"; now := js "2024-05-01T10:00:00.000Z";
                now' := js "2024-05-01T10:00:00.001Z";
                writeOk := true; writeOk' := true;
                cutShort := false; cutShort' := false |} in
  let body : Obj := {[ js "volunteerId" := JStr (js "u9") ]} in
  exists event disk',
    handle env (route POST (js "/api/events")) (JsonText (JObj body)) initialDisk
    = Some (disk', {| status := 201; json := JObj event |}) /\
    handle env (route GET (js "/api/volunteers/u9/events")) EmptyBody disk'
    = Some (disk', {| status := 200; json := JArr [JObj event] |}).
Proof.
  cbv zeta.
  destruct (create_event_then_list
              {| generateId := js "9a1b"; now := js "2024-05-01T10:00:00.000Z";
                 now' := js "2024-05-01T10:00:00.001Z";
                 writeOk := true; writeOk' := true;
                 cutShort := false; cutShort' := false |}
              {| generateId := js "9a1b"; now := js "2024-05-01T10:00:00.000Z";
                 now' := js "2024-05-01T10:00:00.001Z";
                 writeOk := true; writeOk' := true;
                 cutShort := false; cutShort' := false |}
              (JsonText (JObj {[ js "volunteerId" := JStr (js "u9") ]})) EmptyBody
              {[ js "volunteerId" := JStr (js "u9") ]} (js "u9") initialDisk)
    as (event & disk' & Hpost & _ & _ & _ & Hget).
  - reflexivity.
  - reflexivity.
  - reflexivity.
  - discriminate.
  - apply (bool_decide_unpack _). vm_compute. exact I.
  - exists event, disk'. split; [exact Hpost | exact Hget].
Defined.

(** X15. A body that is not JSON is refused with 400 by the four POST
    routes, and nothing is written. The body [null] is refused by POST
    /api/events, POST /api/admin/password and POST /api/sheets/config,
    which read a property of it. POST /api/volunteers takes [null], and
    every body without properties of its own, and answers 201 with a
    record of the generated [id] and [createdAt] alone; POST /api/events
    without a body answers 201 with [id], the time as [date], and
    [createdAt]. *)
Theorem body_edge_cases (env : Env) (req : RequestBody) (disk : Disk) :
  (parseBody req = None ->
   Forall (fun r => handle env r req disk = Some (disk, invalidRequestBody))
          [CreateVolunteer; CreateEvent; SetPassword; SetSheetsConfig]) /\
  (parseBody req = Some JNull ->
   Forall (fun r => handle env r req disk = Some (disk, invalidRequestBody))
          [CreateEvent; SetPassword; SetSheetsConfig]) /\
  (forall body,
      parseBody req = Some body -> ownProperties body = ∅ ->
      snd <$> handle env CreateVolunteer req disk
      = Some {| status := 201;
                json := JObj (<[js "createdAt" := JStr (now env)]>
                                {[ js "id" := JStr (generateId env) ]}) |}) /\
  (req = EmptyBody ->
   snd <$> handle env CreateEvent req disk
   = Some {| status := 201;
             json := JObj (<[js "createdAt" := JStr (now' env)]>
                             (<[js "date" := JStr (now env)]>
                                {[ js "id" := JStr (generateId env) ]})) |}).
Proof.
  split; [|split; [|split]].
  - intros Hbody. repeat constructor; unfold handle; now rewrite Hbody.
  - intros Hbody. repeat constructor; unfold handle; now rewrite Hbody.
  - intros body Hbody Hempty. unfold handle. rewrite Hbody. simpl.
    unfold newVolunteer. rewrite Hempty, (left_id_L ∅ (∪)). reflexivity.
  - intros ->. reflexivity.
Qed.

Lemma body_edge_cases_witness :
  let env := {| generateId := js "9a1b"; now := js "2024-05-01T10:00:00.000Z";
                now' := js "2024-05-01T10:00:00.001Z";
                writeOk := true; writeOk' := true;
                cutShort := false; cutShort' := false |} in
  handle env (route POST (js "/api/events")) (JsonText JNull) initialDisk
  = Some (initialDisk, invalidRequestBody) /\
  exists disk',
    handle env (route POST (js "/api/volunteers")) (JsonText JNull) initialDisk
    = Some (disk', {| status := 201;
                      json := JObj (<[js "createdAt" := JStr (now env)]>
                                      {[ js "id" := JStr (generateId env) ]}) |}).
Proof.
  cbv zeta.
  destruct (body_edge_cases
              {| generateId := js "9a1b"; now := js "2024-05-01T10:00:00.000Z";
                 now' := js "2024-05-01T10:00:00.001Z";
                 writeOk := true; writeOk' := true;
                 cutShort := false; cutShort' := false |}
              (JsonText JNull) initialDisk) as (_ & Hnull & Hempty & _).
  split.
  - exact (Forall_inv (Hnull eq_refl)).
  - specialize (Hempty JNull eq_refl eq_refl).
    change (route POST (js "/api/volunteers")) with CreateVolunteer.
    destruct (handle _ CreateVolunteer (JsonText JNull) initialDisk)
      as [[disk' answer]|]; [|discriminate Hempty].
    injection Hempty as ->. now exists disk'.
Defined.

End ApiFacts.

(** ** The calls of a sync *)

Module CallsFacts.
Import Js Sheets Server Calls JsFacts SheetsFacts ServerFacts.

Section Logs.
Context {World : Type} (googleapis : Call -> World -> Outcome * World).

(** X16. [updateWorksheet] adds to the log and leaves what was logged as
    it was. It asks for the spreadsheet first; it adds the worksheet
    exactly when that call was answered with titles that do not include
    the title; it then clears the worksheet and then writes the header
    and the rows at [A1]. It returns when all these calls have returned;
    the first call that raises an error is the last call, and that error
    is thrown on. *)
Theorem update_worksheet_calls (sid title : JsString) (header : Row)
    (data : list Row) (w : World) (log : Log) :
  let run := updateWorksheet googleapis sid title header data (w, log) in
  exists tr,
    snd (snd run) = log ++ tr /\
    fst <$> tr `prefix_of` worksheetCalls sid title header data (titlesRead tr) /\
    (AddSheet sid title ∈ fst <$> tr <->
     exists titles rest,
       tr = (SpreadsheetsGet sid, Reply titles) :: rest /\ title ∉ titles) /\
    match fst run with
    | Return _ =>
        fst <$> tr = worksheetCalls sid title header data (titlesRead tr) /\
        Forall (fun e => raised (snd e) = false) tr
    | Thrown message =>
        exists pre c, tr = pre ++ [(c, Raise message)] /\
                      Forall (fun e => raised (snd e) = false) pre
    end.
Proof.
  cbv zeta. unfold updateWorksheet, worksheetCalls, bind, call, ret.
  generalize (title ++ js "!A1"). intros range.
  destruct (googleapis (SpreadsheetsGet sid) w) as [[m|titles] w1] eqn:H1;
    [|destruct (bool_decide (title ∈ titles)) eqn:Hex; cbn [negb];
      [|destruct (googleapis (AddSheet sid title) w1) as [[m|t1] w1'] eqn:H1'];
      [destruct (googleapis (ValuesClear sid title) w1) as [[m|t2] w2] eqn:H2
      | | destruct (googleapis (ValuesClear sid title) w1') as [[m|t2] w2] eqn:H2];
      [|destruct (googleapis (ValuesUpdate sid range (header :: data)) w2)
          as [[m|t3] w3] eqn:H3
       | | |destruct (googleapis (ValuesUpdate sid range (header :: data)) w2)
          as [[m|t3] w3] eqn:H3]].
  all: eexists; split; [cbn; rewrite <- ?app_assoc; reflexivity|].
  all: cbn [app fmap list_fmap fst snd titlesRead]; rewrite ?Hex; cbn [app].
  all: try apply bool_decide_eq_true in Hex; try apply bool_decide_eq_false in Hex.
  all: split; [eexists; cbn [app]; reflexivity|].
  all: split;
    [split;
     [intros Hadd;
      first [ repeat (apply elem_of_cons in Hadd as [Hadd|Hadd]; [discriminate|]);
              now apply elem_of_nil in Hadd
            | eexists _, _; split; [reflexivity | assumption] ]
     |intros (titles' & rest & Htr & Hnot);
      first [ discriminate Htr
            | injection Htr as <- _; contradiction
            | apply elem_of_cons; right; apply elem_of_cons; left; reflexivity ]]|].
  all: first
    [ split; [reflexivity | repeat constructor]
    | eexists [], _; split; [reflexivity | repeat constructor]
    | eexists [_], _; split; [reflexivity | repeat constructor]
    | eexists [_; _], _; split; [reflexivity | repeat constructor]
    | eexists [_; _; _], _; split; [reflexivity | repeat constructor] ].
Qed.

Lemma Logged_ret {A} (a : A) (P : Call -> Prop) : Logged (World := World) (ret a) P.
Proof. intros w log. exists []. simpl. now rewrite app_nil_r. Qed.

Lemma Logged_call (c : Call) (P : Call -> Prop) :
  P c -> Logged (call googleapis c) P.
Proof.
  intros Hc w log. unfold call.
  destruct (googleapis c w) as [o w']. eexists. split; [reflexivity|].
  now repeat constructor.
Qed.

Lemma Logged_bind {A B} (m : M World A) (k : A -> M World B) (P : Call -> Prop) :
  Logged m P -> (forall a, Logged (k a) P) -> Logged (bind m k) P.
Proof.
  intros Hm Hk w log. destruct (Hm w log) as (tr1 & Hlog1 & Hall1).
  unfold bind. destruct (m (w, log)) as [[a|message] [w1 log1]]; simpl in *; subst.
  - destruct (Hk a w1 (log ++ tr1)) as (tr2 & Hlog2 & Hall2).
    exists (tr1 ++ tr2). rewrite Hlog2, app_assoc. split; [reflexivity|].
    now apply Forall_app.
  - now exists tr1.
Qed.

Lemma Logged_weaken {A} (m : M World A) (P Q : Call -> Prop) :
  (forall c, P c -> Q c) -> Logged m P -> Logged m Q.
Proof.
  intros HPQ Hm w log. destruct (Hm w log) as (tr & Hlog & Hall).
  exists tr. split; [assumption|].
  eapply Forall_impl; [exact Hall|]. intros e. apply HPQ.
Qed.

Lemma Logged_updateWorksheet (sid title : JsString) (header : Row)
    (data : list Row) :
  Logged (updateWorksheet googleapis sid title header data) (onWorksheet sid title).
Proof.
  unfold updateWorksheet.
  apply Logged_bind; [apply Logged_call; now left|]. intros existingSheets.
  apply Logged_bind.
  { destruct (negb _); [|apply Logged_ret].
    apply Logged_bind; [|intros; apply Logged_ret].
    apply Logged_call. right. now left. }
  intros _. apply Logged_bind; [apply Logged_call; right; right; now left|].
  intros _. apply Logged_bind; [|intros; apply Logged_ret].
  apply Logged_call. right. right. right. now eexists.
Qed.

Variable rt : Runtime.

Lemma Logged_syncVolunteers (sid : JsString) (events : list Event.t)
    (l : list Volunteer.t) :
  Logged (syncVolunteers googleapis rt sid events l)
         (fun c => exists v, v ∈ l /\ hasEvents events v /\
                             onWorksheet sid (volunteerSheetName v) c).
Proof.
  induction l as [|v l IH]; simpl; [apply Logged_ret|].
  apply Logged_bind.
  - unfold syncVolunteer.
    destruct (volunteerEvents events v) as [|e own] eqn:Hown; simpl;
      [apply Logged_ret|].
    eapply Logged_weaken; [|apply Logged_updateWorksheet].
    intros c Hc. exists v. split; [left|]. split; [|exact Hc].
    unfold hasEvents. now rewrite Hown.
  - intros _. eapply Logged_weaken; [|exact IH].
    intros c (v' & Hin & Hc). exists v'. split; [now right | exact Hc].
Qed.

(** X17. A sync with a spreadsheet id and credentials builds the client
    from the configured credentials first, and once. When that raises an
    error no request is made and the sync fails with the message of the
    error. Every request after it is for the configured spreadsheet, and
    for the worksheet "Volunteers" or the worksheet of a volunteer of
    the list that has events. *)
Theorem sync_calls (sid : JsString) (creds : Credentials)
    (volunteers : list Volunteer.t) (events : list Event.t)
    (w : World) (log : Log) :
  sid <> [] ->
  let run := syncToGoogleSheets googleapis rt
               (Some {| spreadsheetId := Some sid; credentials := Some creds |})
               volunteers events (w, log) in
  exists o rest,
    snd (snd run) = log ++ (GoogleAuth creds, o) :: rest /\
    (forall message, o = Raise message ->
                     rest = [] /\ fst run = Failure message) /\
    Forall (fun e =>
              onWorksheet sid (js "Volunteers") (fst e) \/
              exists v, v ∈ volunteers /\ hasEvents events v /\
                        onWorksheet sid (volunteerSheetName v) (fst e))
           rest.
Proof.
  intros Hsid. cbv zeta. unfold syncToGoogleSheets, syncBody.
  destruct sid as [|ch sid]; [congruence|]. cbn [truthy].
  set (sid' := ch :: sid).
  unfold createSheetsClient.
  set (rest :=
         updateWorksheet googleapis sid' (js "Volunteers") volunteersHeader
                         (volunteersData rt volunteers events) ;;;
         syncVolunteers googleapis rt sid' events (sortedVolunteers rt volunteers) ;;;
         ret (length volunteers, length events)).
  assert (Hrest : Logged rest
            (fun c => onWorksheet sid' (js "Volunteers") c \/
                      exists v, v ∈ volunteers /\ hasEvents events v /\
                                onWorksheet sid' (volunteerSheetName v) c)).
  { unfold rest. apply Logged_bind.
    { eapply Logged_weaken; [|apply Logged_updateWorksheet]. intros c Hc. now left. }
    intros _. apply Logged_bind; [|intros; apply Logged_ret].
    eapply Logged_weaken; [|apply Logged_syncVolunteers].
    intros c (v & Hin & Hc). right. exists v. split; [|exact Hc].
    apply list_elem_of_In. apply list_elem_of_In in Hin.
    eapply Permutation_in; [apply sort_Permutation | exact Hin]. }
  unfold bind, call, ret.
  destruct (googleapis (GoogleAuth creds) w) as [[message|titles] w1].
  - exists (Raise message), []. simpl. split; [reflexivity|]. split; [|constructor].
    intros m [= <-]. now split.
  - destruct (Hrest w1 (log ++ [(GoogleAuth creds, Reply titles)]))
      as (tr & Hlog & Hall).
    exists (Reply titles), tr. fold rest.
    destruct (rest _) as [[[a b]|message] [w2 log2]]; simpl in *; subst log2;
      rewrite <- app_assoc; (split; [reflexivity|]); (split; [discriminate|]);
      exact Hall.
Qed.

End Logs.

Lemma sync_calls_witness :
  let creds := {| client_email := Some (js "bot@example.org") |} in
  let run := syncToGoogleSheets Demo.scripted Demo.runtime
               (Some {| spreadsheetId := Some (js "sheet-1");
                        credentials := Some creds |})
               Demo.volunteers Demo.events ([Raise (js "invalid_grant")], []) in
  exists o rest,
    snd (snd run) = [] ++ (GoogleAuth creds, o) :: rest /\
    (forall message, o = Raise message ->
                     rest = [] /\ fst run = Failure message) /\
    Forall (fun e =>
              onWorksheet (js "sheet-1") (js "Volunteers") (fst e) \/
              exists v, v ∈ Demo.volunteers /\ hasEvents Demo.events v /\
                        onWorksheet (js "sheet-1") (volunteerSheetName v) (fst e))
           rest.
Proof.
  cbv zeta.
  apply (sync_calls Demo.scripted Demo.runtime (js "sheet-1")
           {| client_email := Some (js "bot@example.org") |}
           Demo.volunteers Demo.events [Raise (js "invalid_grant")] []).
  discriminate.
Defined.

(** *** The worksheets of the volunteers *)

(** X18. The title of a volunteer's worksheet has 12 to 30 characters,
    each a letter or digit of ASCII, a space or a hyphen, and it is
    never "Volunteers". Two volunteers have the same title, and so the
    same worksheet, exactly when their names agree on the first 18
    characters once every character that is not a letter or digit is
    read as a space. *)
Theorem sheet_title_shape (a b : Volunteer.t) :
  Forall (fun c => isAlnum c = true \/ c = 32%N \/ c = 45%N)
         (volunteerSheetName a) /\
  (12 <= length (volunteerSheetName a) <= 30)%nat /\
  volunteerSheetName a <> js "Volunteers" /\
  (volunteerSheetName a = volunteerSheetName b <->
   take 18 (replaceNonAlnum (Volunteer.name a))
   = take 18 (replaceNonAlnum (Volunteer.name b))).
Proof.
  assert (Hlen : (12 <= length (volunteerSheetName a) <= 30)%nat).
  { unfold volunteerSheetName. rewrite sheetName_prefix, length_app, length_take.
    change (length (js "Volunteer - ")) with 12%nat. lia. }
  split; [|split; [exact Hlen|split]].
  - unfold volunteerSheetName. rewrite sheetName_prefix.
    apply Forall_app. split.
    + apply Forall_forall. intros c Hc.
      repeat (apply elem_of_cons in Hc as [->|Hc]; [vm_compute; auto|]).
      now apply elem_of_nil in Hc.
    + apply Forall_take. unfold replaceNonAlnum.
      apply Forall_forall. intros c Hc. apply list_elem_of_In, in_map_iff in Hc.
      destruct Hc as (x & <- & _). destruct (isAlnum x) eqn:Hx; auto.
  - intros Heq. rewrite Heq in Hlen. simpl in Hlen. lia.
  - unfold volunteerSheetName. rewrite !sheetName_prefix. split.
    + apply app_inv_head.
    + now intros ->.
Qed.

Lemma individualWrites_length (rt : Runtime) (events : list Event.t)
    (v : Volunteer.t) :
  length (individualWrites rt events v)
  = (if decide (hasEvents events v) then 1 else 0)%nat /\
  dataRows (individualWrites rt events v) = length (volunteerEvents events v).
Proof.
  unfold individualWrites, hasEvents, dataRows.
  destruct (volunteerEvents events v) as [|e own] eqn:Hown.
  - destruct (decide _) as [H|_]; [congruence | now split].
  - destruct (decide _) as [_|H]; [|exfalso; apply H; discriminate].
    split; [reflexivity|]. cbn [sum_list_with snd length pred].
    unfold volunteerEventsData.
    rewrite length_imap, length_sortedEvents. cbn [length]. lia.
Qed.

Lemma flat_map_writes (rt : Runtime) (events : list Event.t)
    (l : list Volunteer.t) :
  length (flat_map (individualWrites rt events) l)
  = length (filter (hasEvents events) l) /\
  dataRows (flat_map (individualWrites rt events) l)
  = sum_list_with (fun v => length (volunteerEvents events v)) l.
Proof.
  induction l as [|v l [IH1 IH2]]; [now split|].
  destruct (individualWrites_length rt events v) as [H1 H2].
  simpl. rewrite length_app, filter_cons, H1, IH1. unfold dataRows in *.
  rewrite sum_list_with_app, H2, IH2.
  split; [|reflexivity]. now destruct (decide _).
Qed.

Lemma owned_disjoint (events : list Event.t) (v : Volunteer.t)
    (ids : list JsString) :
  Volunteer.id v ∉ ids ->
  (length (volunteerEvents events v)
   + length (filter (fun e => Event.volunteerId e ∈ ids) events))%nat
  = length (filter (fun e => Event.volunteerId e ∈ Volunteer.id v :: ids) events).
Proof.
  intros Hfresh. unfold volunteerEvents.
  induction events as [|e events IH]; [reflexivity|].
  rewrite !filter_cons.
  destruct (decide (Event.volunteerId e = Volunteer.id v)) as [Heq|Hne].
  - destruct (decide (Event.volunteerId e ∈ ids)) as [Hin|_];
      [rewrite Heq in Hin; contradiction|].
    destruct (decide (Event.volunteerId e ∈ _ :: ids)) as [_|Hout];
      [simpl; now rewrite IH|].
    exfalso. apply Hout. rewrite Heq. now left.
  - destruct (decide (Event.volunteerId e ∈ ids)) as [Hin|Hout].
    + destruct (decide (Event.volunteerId e ∈ _ :: ids)) as [_|Hout];
        [simpl; rewrite <- IH; lia|].
      exfalso. apply Hout. now right.
    + destruct (decide (Event.volunteerId e ∈ _ :: ids)) as [Hin|_];
        [|exact IH].
      apply elem_of_cons in Hin as [Hin|Hin]; contradiction.
Qed.

Lemma owned_total (events : list Event.t) (l : list Volunteer.t) :
  NoDup (Volunteer.id <$> l) ->
  sum_list_with (fun v => length (volunteerEvents events v)) l
  = length (filter (fun e => Event.volunteerId e ∈ Volunteer.id <$> l) events).
Proof.
  induction l as [|v l IH]; intros Hnodup.
  - simpl. induction events as [|e events IHe]; [reflexivity|].
    rewrite filter_cons. destruct (decide _) as [Hin|_]; [|exact IHe].
    now apply elem_of_nil in Hin.
  - rewrite fmap_cons in Hnodup. apply NoDup_cons in Hnodup as [Hfresh Hnodup].
    simpl. rewrite IH by assumption. now apply owned_disjoint.
Qed.

Section Counts.
Context {World : Type} (googleapis : Call -> World -> Outcome * World).
Variable rt : Runtime.

(** X19. A sync that succeeds has made one update more than there are
    volunteers with events: the one of "Volunteers" and one for each
    such volunteer. A volunteer without events has no worksheet
    written. *)
Theorem sync_update_count (sheetsConfig : option SheetsConfig)
    (volunteers : list Volunteer.t) (events : list Event.t)
    (w : World) (a b : nat) :
  fst (syncToGoogleSheets googleapis rt sheetsConfig volunteers events (w, []))
    = Success a b ->
  length (updates (snd (snd (syncToGoogleSheets googleapis rt sheetsConfig
                               volunteers events (w, [])))))
  = S (length (filter (hasEvents events) volunteers)).
Proof.
  intros Hs.
  rewrite (updates_of_success googleapis rt _ _ _ _ _ _ Hs).
  unfold worksheetWrites. cbn [length].
  destruct (flat_map_writes rt events (sortedVolunteers rt volunteers)) as [-> _].
  assert (Hperm : sortedVolunteers rt volunteers ≡ₚ volunteers)
    by apply sort_Permutation.
  now rewrite Hperm.
Qed.

(** X20. In a sync that succeeds, the rows under the headers of the
    volunteers' own worksheets are as many as the events of all the
    volunteers taken one volunteer after the other. When no two
    volunteers share an id this is the number of events whose
    [volunteerId] is the id of a volunteer: each such event is written
    once, and an event of no volunteer is written nowhere. *)
Theorem event_rows_conserved (sheetsConfig : option SheetsConfig)
    (volunteers : list Volunteer.t) (events : list Event.t)
    (w : World) (a b : nat) :
  fst (syncToGoogleSheets googleapis rt sheetsConfig volunteers events (w, []))
    = Success a b ->
  let own := tail (updates (snd (snd (syncToGoogleSheets googleapis rt
                      sheetsConfig volunteers events (w, []))))) in
  dataRows own
  = sum_list_with (fun v => length (volunteerEvents events v)) volunteers /\
  (NoDup (Volunteer.id <$> volunteers) ->
   dataRows own
   = length (filter (fun e => Event.volunteerId e ∈ Volunteer.id <$> volunteers)
                    events)).
Proof.
  intros Hs. cbv zeta.
  rewrite (updates_of_success googleapis rt _ _ _ _ _ _ Hs).
  unfold worksheetWrites. cbn [tail].
  destruct (flat_map_writes rt events (sortedVolunteers rt volunteers)) as [_ ->].
  assert (Hperm : sortedVolunteers rt volunteers ≡ₚ volunteers)
    by apply sort_Permutation.
  assert (Hsum :
    sum_list_with (fun v => length (volunteerEvents events v))
                  (sortedVolunteers rt volunteers)
    = sum_list_with (fun v => length (volunteerEvents events v)) volunteers).
  { clear -Hperm. induction Hperm; simpl; lia. }
  split; [exact Hsum|].
  intros Hnodup. rewrite Hsum. now apply owned_total.
Qed.

Lemma syncResponse_status (sid email : JsString) (volunteers : list Volunteer.t)
    (events : list Event.t) (result : SyncResult) :
  let status := statusCode (syncResponse sid email volunteers events result) in
  (status = 200 \/ status = 403 \/ status = 500) /\
  (status = 200 <-> exists a b, result = Success a b).
Proof.
  destruct result as [a b|error]; simpl.
  - split; [now left|]. split; [eauto | reflexivity].
  - destruct (truthy error && includes (js "permission") error); simpl;
      (split; [auto|]); split; try discriminate; now intros (? & ? & ?).
Qed.

(** X21. POST /api/sync/sheets answers 400 exactly when there is no
    [sheetsConfig] or its [spreadsheetId] is missing or empty, and it
    then does nothing else. With a spreadsheet id and no credentials it
    answers 500 with the message of the incomplete configuration and
    the placeholder for the service account, again without a call. The
    status is one of 200, 400, 403 and 500, and it is 200 exactly when
    the sync succeeds. *)
Theorem sync_route_status (config : Config) (volunteers : list Volunteer.t)
    (events : list Event.t) (s : World * Log) :
  let run := postSyncSheets googleapis rt config volunteers events s in
  let status := statusCode (fst run) in
  let unconfigured :=
    sheetsConfig config = None \/
    exists sc, sheetsConfig config = Some sc /\
               (spreadsheetId sc = None \/ spreadsheetId sc = Some []) in
  (unconfigured ->
   run = ({| statusCode := 400;
             data := NotConfigured (js "Google Sheets not configured") |}, s)) /\
  (status = 400 -> unconfigured) /\
  (forall sid,
      sheetsConfig config
      = Some {| spreadsheetId := Some sid; credentials := None |} ->
      sid <> [] ->
      run = ({| statusCode := 500;
                data := SyncFailed (js "Google Sheets configuration is incomplete")
                                   (js "the service account email") |}, s)) /\
  (status = 200 \/ status = 400 \/ status = 403 \/ status = 500) /\
  (status = 200 <->
   exists a b,
     fst (syncToGoogleSheets googleapis rt (sheetsConfig config)
                             volunteers events s) = Success a b).
Proof.
  cbv zeta. unfold postSyncSheets.
  destruct (sheetsConfig config) as [[[[|ch sid]|] creds]|] eqn:Hconfig.
  1, 3, 4:
    try destruct creds;
    rewrite sync_incomplete by reflexivity;
    cbn [truthy fst statusCode];
    (split; [reflexivity|]);
    (split; [intros _; first [now left | right; eexists; split; [reflexivity|]; simpl; auto]|]);
    (split; [intros sid' [=]; congruence|]);
    (split; [auto|]); (split; [discriminate | now intros (? & ? & ?)]).
  cbn [truthy]. set (sid' := ch :: sid).
  assert (Hconfigured :
    ~ (Some {| spreadsheetId := Some sid'; credentials := creds |} = None \/
       exists sc, Some {| spreadsheetId := Some sid'; credentials := creds |} = Some sc /\
                  (spreadsheetId sc = None \/ spreadsheetId sc = Some []))).
  { intros [H | (sc & [= <-] & [H | H])]; discriminate. }
  split; [intros H; now destruct Hconfigured|].
  destruct (syncToGoogleSheets googleapis rt _ volunteers events s)
    as [result s'] eqn:Hrun.
  cbn [fst].
  destruct (syncResponse_status sid'
              (serviceEmail {| spreadsheetId := Some sid'; credentials := creds |})
              volunteers events result) as [Hstatus Hok].
  split; [intros H; exfalso; destruct Hstatus as [H'|[H'|H']]; congruence|].
  split; [|split; [tauto | exact Hok]].
  intros sid0 [= <- ->] _.
  rewrite sync_incomplete in Hrun by reflexivity. now injection Hrun as <- <-.
Qed.

End Counts.

Lemma sync_update_count_witness :
  fst (syncToGoogleSheets Demo.spreadsheet Demo.runtime (Some Demo.config)
                          Demo.volunteers Demo.events ([], []))
    = Success 3 4 /\
  length (updates (snd (snd (syncToGoogleSheets Demo.spreadsheet Demo.runtime
                               (Some Demo.config) Demo.volunteers Demo.events
                               ([], [])))))
  = 3%nat.
Proof.
  split; [reflexivity|].
  exact (sync_update_count Demo.spreadsheet Demo.runtime (Some Demo.config)
           Demo.volunteers Demo.events [] 3 4 eq_refl).
Defined.

Lemma event_rows_conserved_witness :
  NoDup (Volunteer.id <$> Demo.volunteers) /\
  dataRows (tail (updates (snd (snd (syncToGoogleSheets Demo.spreadsheet
                     Demo.runtime (Some Demo.config) Demo.volunteers Demo.events
                     ([], []))))))
  = 3%nat.
Proof.
  assert (Hnodup : NoDup (Volunteer.id <$> Demo.volunteers)).
  { apply (bool_decide_unpack _). vm_compute. exact I. }
  split; [exact Hnodup|].
  destruct (event_rows_conserved Demo.spreadsheet Demo.runtime (Some Demo.config)
              Demo.volunteers Demo.events [] 3 4 eq_refl) as [_ Hrows].
  exact (Hrows Hnodup).
Defined.

Lemma sync_route_status_witness :
  let config :=
    {| adminPassword := js "admin123";
       sheetsConfig := Some {| spreadsheetId := Some (js "sheet-1");
                               credentials := None |} |} in
  postSyncSheets Demo.spreadsheet Demo.runtime config Demo.volunteers Demo.events
                 ([], [])
  = ({| statusCode := 500;
        data := SyncFailed (js "Google Sheets configuration is incomplete")
                           (js "the service account email") |}, ([], [])).
Proof.
  cbv zeta.
  destruct (sync_route_status Demo.spreadsheet Demo.runtime
              {| adminPassword := js "admin123";
                 sheetsConfig := Some {| spreadsheetId := Some (js "sheet-1");
                                         credentials := None |} |}
              Demo.volunteers Demo.events ([], [])) as (_ & _ & Hcreds & _).
  apply (Hcreds (js "sheet-1")); [reflexivity | discriminate].
Defined.

End CallsFacts.
